(** * We Care beauty store: stock, wallet and ledger consistency

    A shallow embedding of the purchase and restock logic of the Flask
    application (app.py and backend_engine/) together with the properties
    stated about it.

    Conventions of the model.
    - Python dicts loaded from the JSON files are finite maps keyed by the
      string [str id], as in the source ([products[str(product_id)]]).
    - Quantities are Python ints, hence [Z]; [//] is [Z.div], which is
      floor division for the positive divisors used.
    - Amounts of money are whole numbers, hence [Z] too.  The program
      holds them in binary64 floats (costs such as 1000.0, the 10000.0 of
      a new wallet, [float(request.form['amount'])]), whose [+], [-] and
      [*] are exact on whole numbers below 2^53: that is the range the
      model speaks of.  The module [binary64] gives the arithmetic of the
      same statements in floating point; the last part of the file proves
      that it agrees with the model on that range, and the theorems about
      amounts with a fraction or nan are stated on it.
    - Every function runs in the monad [M]: it threads the [World] (the
      module-level [products] dict, the JSON files, the flashed messages)
      and may raise an exception carrying its message.
    - Whether a file operation raises, and how long ago the catalog was last
      (re)loaded, is decided by the environment.  The world carries two
      queues the environment filled in advance: [faults] gives the fate of
      the successive file operations, [timing] the answer to the successive
      readings of [time.time() - _last_update_time].  An exhausted queue
      means "no fault" and "long ago".
    - A file operation that fails raises before it touches its file: a
      refused [open], or a content [json.load] cannot parse, which it
      reports by a [JSONDecodeError].  A write cut short after [open]
      truncated the file is outside the model.
    - The database files and invoice folders exist (they are created when
      the modules are imported); only admin_wallet.json, which is created
      lazily by [init_admin_wallet], may be absent.
    - Requests are served one at a time and nothing else writes the files;
      printing is left out. *)

From Stdlib Require Import ZArith SpecFloat.
From stdpp Require Import gmap strings list fin_maps pretty.

Local Open Scope Z_scope.

(** ** Data model *)

Record Product := mkProduct {
  p_id : Z;
  p_name : string;
  p_brand : string;
  p_stock : Z;
  p_cost : Z;
  p_price : Z;
  p_is_active : bool
}.

Record Customer := mkCustomer {
  c_name : string;
  c_total_spent : Z;
  c_purchase_count : Z;
  c_points : Z;
  c_last_purchase : option Z
}.

Record Wallet := mkWallet {
  wl_card_holder : string;
  wl_card_number : string;
  wl_balance : Z
}.

(** One entry of customer_transactions.json. *)
Record CustomerTx := mkCustomerTx {
  ctx_id : Z;
  ctx_type : string;
  ctx_amount : Z;
  ctx_description : string;
  ctx_balance_after : Z;
  ctx_timestamp : Z
}.

Record AdminWallet := mkAdminWallet {
  aw_balance : Z;
  aw_total_revenue : Z;
  aw_total_transactions : Z;
  aw_last_updated : Z
}.

Record Sale := mkSale {
  sale_id : Z;
  sale_customer_id : Z;
  sale_product_id : Z;
  sale_product_name : string;
  sale_quantity : Z;
  sale_unit_price : Z;
  sale_total_price : Z;
  sale_timestamp : Z
}.

(** One entry of transactions.json (the global financial log). *)
Record LedgerTx := mkLedgerTx {
  ltx_id : Z;
  ltx_customer_id : Z;
  ltx_amount : Z;
  ltx_type : string;
  ltx_description : string;
  ltx_timestamp : Z
}.

(** A priced line of a purchase, as appended to [items] in [purchase]. *)
Record Item := mkItem {
  it_name : string;
  it_qty : Z;
  it_free : Z;
  it_price : Z
}.

Record PurchaseInvoice := mkPurchaseInvoice {
  pi_customer_name : string;
  pi_items : list Item;
  pi_total : Z;
  pi_timestamp : Z
}.

Record RestockLine := mkRestockLine {
  rl_name : string;
  rl_brand : string;
  rl_amount : Z;
  rl_rate : Z;
  rl_item_cost : Z
}.

Record RestockInvoice := mkRestockInvoice {
  ri_vendor : string;
  ri_lines : list RestockLine;
  ri_grand_total : Z;
  ri_timestamp : Z
}.

(** The error texts of [update_product_stock]. *)
Inductive StockError :=
| FailedToLoad            (* 'Failed to load products' *)
| ProductNotFound         (* 'Product not found' *)
| InsufficientStock (available : Z)  (* 'Insufficient stock. Available: ..' *)
| FailedToSave            (* 'Failed to save stock update' *)
| Unexpected (msg : string).         (* str(e) *)

(** The dict returned by [update_product_stock]. *)
Inductive StockResult :=
| StockUpdated (old_stock new_stock : Z)
| StockFailed (error : StockError).

Definition stock_success (r : StockResult) : bool :=
  match r with StockUpdated _ _ => true | StockFailed _ => false end.

(** The messages handed to [flash]. *)
Inductive Flash :=
| NoProductsSelected
| NotEnoughStock (name : string) (available : Z)
| InsufficientWalletBalance (total available : Z)
| ErrorUpdatingStock (name : string) (error : StockError)
| PurchaseCompleted
| ErrorGeneratingInvoice
| ErrorDuringPurchase (msg : string)
| NoVendorName
| NoRestockItems
| RestockProductNotFound (product_id : Z)
| InsufficientAdminBalance (total_cost available : Z)
| ErrorRestocking (name : string) (error : StockError)
| RestockCompleted (total_cost : Z)
| RestockWalletNotUpdated
| ErrorDuringRestocking (msg : string).

Inductive Response :=
| Redirect (endpoint : string)
| Render (template : string).

(** [session['invoice_data']] *)
Record InvoiceData := mkInvoiceData {
  iv_customer_name : string;
  iv_timestamp : Z;
  iv_items : list Item;
  iv_total : Z;
  iv_wallet_balance : Z
}.

(** Time elapsed since [_last_update_time], as far as [load_products]
    distinguishes it. *)
Inductive Elapsed := UnderHalfSecond | UnderTwoSeconds | LongAgo.

Record World := mkWorld {
  products : gmap string Product;            (* read_ops.products *)
  products_file : gmap string Product;       (* database/products.json *)
  customers_file : gmap string Customer;     (* database/customers.json *)
  wallets_file : gmap string Wallet;         (* database/wallets.json *)
  customer_tx_file : gmap string (list CustomerTx);
  admin_wallet_file : option AdminWallet;    (* database/admin_wallet.json *)
  sales_file : list Sale;                    (* database/sales.json *)
  transactions_file : list LedgerTx;         (* database/transactions.json *)
  purchase_invoices : list PurchaseInvoice;  (* invoices/purchase_database *)
  restock_invoices : list RestockInvoice;    (* invoices/restock_database *)
  flashed : list Flash;
  session_invoice : option InvoiceData;
  clock : Z;                                 (* datetime.now() *)
  timing : list Elapsed;
  faults : list (option string)
}.

Definition set_products (v : gmap string Product) (w : World) : World :=
  mkWorld v (products_file w) (customers_file w) (wallets_file w)
    (customer_tx_file w) (admin_wallet_file w) (sales_file w)
    (transactions_file w) (purchase_invoices w) (restock_invoices w)
    (flashed w) (session_invoice w) (clock w) (timing w) (faults w).

Definition set_products_file (v : gmap string Product) (w : World) : World :=
  mkWorld (products w) v (customers_file w) (wallets_file w)
    (customer_tx_file w) (admin_wallet_file w) (sales_file w)
    (transactions_file w) (purchase_invoices w) (restock_invoices w)
    (flashed w) (session_invoice w) (clock w) (timing w) (faults w).

Definition set_customers_file (v : gmap string Customer) (w : World) : World :=
  mkWorld (products w) (products_file w) v (wallets_file w)
    (customer_tx_file w) (admin_wallet_file w) (sales_file w)
    (transactions_file w) (purchase_invoices w) (restock_invoices w)
    (flashed w) (session_invoice w) (clock w) (timing w) (faults w).

Definition set_wallets_file (v : gmap string Wallet) (w : World) : World :=
  mkWorld (products w) (products_file w) (customers_file w) v
    (customer_tx_file w) (admin_wallet_file w) (sales_file w)
    (transactions_file w) (purchase_invoices w) (restock_invoices w)
    (flashed w) (session_invoice w) (clock w) (timing w) (faults w).

Definition set_customer_tx_file (v : gmap string (list CustomerTx)) (w : World)
  : World :=
  mkWorld (products w) (products_file w) (customers_file w) (wallets_file w)
    v (admin_wallet_file w) (sales_file w)
    (transactions_file w) (purchase_invoices w) (restock_invoices w)
    (flashed w) (session_invoice w) (clock w) (timing w) (faults w).

Definition set_admin_wallet_file (v : option AdminWallet) (w : World) : World :=
  mkWorld (products w) (products_file w) (customers_file w) (wallets_file w)
    (customer_tx_file w) v (sales_file w)
    (transactions_file w) (purchase_invoices w) (restock_invoices w)
    (flashed w) (session_invoice w) (clock w) (timing w) (faults w).

Definition set_sales_file (v : list Sale) (w : World) : World :=
  mkWorld (products w) (products_file w) (customers_file w) (wallets_file w)
    (customer_tx_file w) (admin_wallet_file w) v
    (transactions_file w) (purchase_invoices w) (restock_invoices w)
    (flashed w) (session_invoice w) (clock w) (timing w) (faults w).

Definition set_transactions_file (v : list LedgerTx) (w : World) : World :=
  mkWorld (products w) (products_file w) (customers_file w) (wallets_file w)
    (customer_tx_file w) (admin_wallet_file w) (sales_file w)
    v (purchase_invoices w) (restock_invoices w)
    (flashed w) (session_invoice w) (clock w) (timing w) (faults w).

Definition set_purchase_invoices (v : list PurchaseInvoice) (w : World) : World :=
  mkWorld (products w) (products_file w) (customers_file w) (wallets_file w)
    (customer_tx_file w) (admin_wallet_file w) (sales_file w)
    (transactions_file w) v (restock_invoices w)
    (flashed w) (session_invoice w) (clock w) (timing w) (faults w).

Definition set_restock_invoices (v : list RestockInvoice) (w : World) : World :=
  mkWorld (products w) (products_file w) (customers_file w) (wallets_file w)
    (customer_tx_file w) (admin_wallet_file w) (sales_file w)
    (transactions_file w) (purchase_invoices w) v
    (flashed w) (session_invoice w) (clock w) (timing w) (faults w).

Definition set_flashed (v : list Flash) (w : World) : World :=
  mkWorld (products w) (products_file w) (customers_file w) (wallets_file w)
    (customer_tx_file w) (admin_wallet_file w) (sales_file w)
    (transactions_file w) (purchase_invoices w) (restock_invoices w)
    v (session_invoice w) (clock w) (timing w) (faults w).

Definition set_session_invoice (v : option InvoiceData) (w : World) : World :=
  mkWorld (products w) (products_file w) (customers_file w) (wallets_file w)
    (customer_tx_file w) (admin_wallet_file w) (sales_file w)
    (transactions_file w) (purchase_invoices w) (restock_invoices w)
    (flashed w) v (clock w) (timing w) (faults w).

Definition set_timing (v : list Elapsed) (w : World) : World :=
  mkWorld (products w) (products_file w) (customers_file w) (wallets_file w)
    (customer_tx_file w) (admin_wallet_file w) (sales_file w)
    (transactions_file w) (purchase_invoices w) (restock_invoices w)
    (flashed w) (session_invoice w) (clock w) v (faults w).

Definition set_faults (v : list (option string)) (w : World) : World :=
  mkWorld (products w) (products_file w) (customers_file w) (wallets_file w)
    (customer_tx_file w) (admin_wallet_file w) (sales_file w)
    (transactions_file w) (purchase_invoices w) (restock_invoices w)
    (flashed w) (session_invoice w) (clock w) (timing w) v.

(** ** The monad: state passing with Python exceptions *)

Inductive Outcome (A : Type) :=
| Ret (a : A)
| Raise (e : string).
Arguments Ret {A} a.
Arguments Raise {A} e.

Definition M (A : Type) : Type := World → Outcome A * World.

Definition ret {A} (a : A) : M A := λ w, (Ret a, w).

Definition raise {A} (e : string) : M A := λ w, (Raise e, w).

Definition bind {A B} (m : M A) (k : A → M B) : M B :=
  λ w, match m w with
       | (Ret a, w') => k a w'
       | (Raise e, w') => (Raise e, w')
       end.

(** [try: m  except Exception as e: h e] *)
Definition try_except {A} (m : M A) (h : string → M A) : M A :=
  λ w, match m w with
       | (Ret a, w') => (Ret a, w')
       | (Raise e, w') => h e w'
       end.

Definition gets {A} (f : World → A) : M A := λ w, (Ret (f w), w).

Definition modify (f : World → World) : M unit := λ w, (Ret tt, f w).

Notation "'let*' x := m 'in' k" := (bind m (λ x, k))
  (at level 10, x name, m at level 100, k at level 200).
Notation "m >> k" := (bind m (λ _, k))
  (at level 100, k at level 200, right associativity).

(** [for x in l: body x] *)
Fixpoint for_each {A} (l : list A) (body : A → M unit) : M unit :=
  match l with
  | [] => ret tt
  | x :: rest => body x >> for_each rest body
  end.

(** ** The environment *)

(** One file operation (open, read or write): it raises when the
    environment says so. *)
Definition file_op : M unit :=
  λ w, match faults w with
       | [] => (Ret tt, w)
       | None :: rest => (Ret tt, set_faults rest w)
       | Some e :: rest => (Raise e, set_faults rest w)
       end.

(** [time.time() - _last_update_time] *)
Definition since_last_update : M Elapsed :=
  λ w, match timing w with
       | [] => (Ret LongAgo, w)
       | e :: rest => (Ret e, set_timing rest w)
       end.

Definition flash (f : Flash) : M unit :=
  modify (λ w, set_flashed (flashed w ++ [f]) w).

(** [str(n)] for an [int] *)
Definition str (n : Z) : string := pretty n.

(** [str(KeyError(k))] for a string key *)
Definition key_error (k : string) : string := "'" +:+ k +:+ "'".

(** [isinstance(e, json.JSONDecodeError)], read off the message the
    exception carries: those of the json module start with one of the words
    below ("Expecting value: line 1 column 1 (char 0)" for an empty file),
    those of a refused [open] with "[Errno". *)
Definition json_decode_error (e : string) : bool :=
  String.prefix "Expecting" e || String.prefix "Extra data" e ||
  String.prefix "Unterminated" e || String.prefix "Invalid" e.

(** ** backend_engine/read_ops.py *)

Definition under_two_seconds (e : Elapsed) : bool :=
  match e with LongAgo => false | _ => true end.

Definition under_half_second (e : Elapsed) : bool :=
  match e with UnderHalfSecond => true | _ => false end.

Definition load_products (force : bool) : M bool :=
  let* since := since_last_update in
  if negb force && under_two_seconds since then ret true
  else if under_half_second since then ret true
  else
    try_except
      (file_op >>
       let* loaded_products := gets products_file in
       modify (set_products loaded_products) >>
       ret true)
      (λ _, ret false).

(** The reload that ends [save_products] runs one statement after
    [_last_update_time] was set: it falls inside the half-second guard of
    [load_products] and returns at once, so it is not a step of the model
    (past that guard it would wait for [products_lock], which
    [save_products] still holds). *)
Definition save_products : M bool :=
  try_except
    (let* products_to_save := gets products in
     file_op >>
     modify (set_products_file products_to_save) >>
     ret true)
    (λ _, ret false).

Definition reload_products : M bool := load_products true.

Definition with_stock (s : Z) (p : Product) : Product :=
  mkProduct (p_id p) (p_name p) (p_brand p) s (p_cost p) (p_price p)
    (p_is_active p).

(** [products[key]['stock'] = s] *)
Definition assign_stock (key : string) (s : Z) : M unit :=
  modify (λ w, set_products (alter (with_stock s) key (products w)) w).

Definition update_product_stock (product_id quantity_change : Z)
  : M StockResult :=
  try_except
    (let* loaded := load_products true in
     if negb loaded then ret (StockFailed FailedToLoad)
     else
       let product_id_str := str product_id in
       let* ps := gets products in
       match ps !! product_id_str with
       | None => ret (StockFailed ProductNotFound)
       | Some product =>
           let old_stock := p_stock product in
           let new_stock := old_stock + quantity_change in
           if bool_decide (new_stock < 0)
           then ret (StockFailed (InsufficientStock old_stock))
           else
             assign_stock product_id_str new_stock >>
             let* saved := save_products in
             if saved then ret (StockUpdated old_stock new_stock)
             else
               assign_stock product_id_str old_stock >>
               ret (StockFailed FailedToSave)
       end)
    (λ e, ret (StockFailed (Unexpected e))).

(** ** backend_engine/customer_ops.py: loyalty tiers *)

Inductive Tier := none | bronze | silver | gold | diamond.

Definition get_loyalty_tier (points : Z) : Tier :=
  if bool_decide (points >= 2000) then diamond
  else if bool_decide (points >= 1000) then gold
  else if bool_decide (points >= 500) then silver
  else if bool_decide (points >= 100) then bronze
  else none.

(** ['min_points'] of [get_loyalty_tier_info]: the lower end of each band. *)
Definition min_points (t : Tier) : Z :=
  match t with
  | none => 0 | bronze => 100 | silver => 500 | gold => 1000 | diamond => 2000
  end.

(** The order none < bronze < silver < gold < diamond. *)
Definition tier_rank (t : Tier) : nat :=
  match t with
  | none => 0 | bronze => 1 | silver => 2 | gold => 3 | diamond => 4
  end%nat.

(** ** backend_engine/customer_ops.py: wallet and ledger *)

Definition get_customer_wallet (customer_id : Z) : M (option Wallet) :=
  try_except
    (file_op >>
     let* wallets := gets wallets_file in
     ret (wallets !! str customer_id))
    (λ _, ret None).

Definition get_wallet_balance (customer_id : Z) : M Z :=
  let* wallet := get_customer_wallet customer_id in
  match wallet with
  | Some wl => ret (wl_balance wl)
  | None => ret 0
  end.

(** [balance_after] is [None] when the caller passes Python's [None]:
    [float(None)] raises inside the [try], after the file was read.  The
    read has an [except] of its own: a file that [json.load] cannot parse
    counts as an empty dict, and the write that follows replaces it. *)
Definition log_customer_transaction (customer_id : Z) (transaction_type : string)
    (amount : Z) (description : string) (balance_after : option Z) : M bool :=
  try_except
    (let* transactions :=
       try_except (file_op >> gets customer_tx_file)
         (λ e, if json_decode_error e then ret ∅ else raise e) in
     let customer_id_str := str customer_id in
     let history := default [] (transactions !! customer_id_str) in
     match balance_after with
     | None =>
         raise "float() argument must be a string or a real number, not 'NoneType'"
     | Some balance =>
         let* now := gets clock in
         let transaction :=
           mkCustomerTx (Z.of_nat (length history) + 1) transaction_type amount
             description balance now in
         file_op >>
         modify (set_customer_tx_file
                   (<[customer_id_str := history ++ [transaction]]> transactions)) >>
         ret true
     end)
    (λ _, ret false).

Definition with_balance (b : Z) (wl : Wallet) : Wallet :=
  mkWallet (wl_card_holder wl) (wl_card_number wl) b.

Definition update_wallet_balance (customer_id amount : Z) : M (option Z) :=
  try_except
    (file_op >>
     let* wallets := gets wallets_file in
     match wallets !! str customer_id with
     | Some wallet =>
         let new_balance := wl_balance wallet + amount in
         file_op >>
         modify (set_wallets_file
                   (<[str customer_id := with_balance new_balance wallet]> wallets)) >>
         let transaction_type :=
           if bool_decide (amount > 0) then "add" else "withdraw" in
         let description :=
           if bool_decide (amount > 0) then "Money added to wallet"
           else "Money withdrawn from wallet" in
         log_customer_transaction customer_id transaction_type (Z.abs amount)
           description (Some new_balance) >>
         ret (Some new_balance)
     | None => ret None
     end)
    (λ _, ret None).

(** Returns the points earned, [None] for [{'success': False, ..}]. *)
Definition update_customer_purchase (customer_id amount : Z) : M (option Z) :=
  try_except
    (file_op >>
     let* customers := gets customers_file in
     match customers !! str customer_id with
     | Some customer =>
         let* now := gets clock in
         let points_earned := amount / 100 in
         let customer' :=
           mkCustomer (c_name customer) (c_total_spent customer + amount)
             (c_purchase_count customer + 1) (c_points customer + points_earned)
             (Some now) in
         file_op >>
         modify (set_customers_file (<[str customer_id := customer']> customers)) >>
         ret (Some points_earned)
     | None => ret None
     end)
    (λ _, ret None).

(** ** backend_engine/admin_ops.py *)

Definition default_admin_wallet (now : Z) : AdminWallet :=
  mkAdminWallet 50000 0 0 now.

Definition init_admin_wallet : M unit :=
  let* file := gets admin_wallet_file in
  match file with
  | Some _ => ret tt
  | None =>
      let* now := gets clock in
      file_op >>
      modify (set_admin_wallet_file (Some (default_admin_wallet now)))
  end.

Definition read_admin_wallet : M AdminWallet :=
  file_op >>
  let* file := gets admin_wallet_file in
  match file with
  | Some wallet => ret wallet
  | None => raise "No such file or directory: admin_wallet.json"
  end.

(** The fallback dict of the [except] branch has no ['last_updated']. *)
Definition get_admin_wallet : M AdminWallet :=
  init_admin_wallet >>
  try_except read_admin_wallet (λ _, ret (mkAdminWallet 50000 0 0 0)).

Definition update_admin_wallet (amount : Z) (transaction_type : string)
  : M (option AdminWallet) :=
  init_admin_wallet >>
  try_except
    (let* wallet := read_admin_wallet in
     let wallet1 :=
       if String.eqb transaction_type "revenue" then
         mkAdminWallet (aw_balance wallet + amount)
           (aw_total_revenue wallet + amount)
           (aw_total_transactions wallet) (aw_last_updated wallet)
       else if String.eqb transaction_type "expense" then
         mkAdminWallet (aw_balance wallet - amount) (aw_total_revenue wallet)
           (aw_total_transactions wallet) (aw_last_updated wallet)
       else wallet in
     let* now := gets clock in
     let wallet2 :=
       mkAdminWallet (aw_balance wallet1) (aw_total_revenue wallet1)
         (aw_total_transactions wallet1 + 1) now in
     file_op >>
     modify (set_admin_wallet_file (Some wallet2)) >>
     ret (Some wallet2))
    (λ _, ret None).

Definition add_revenue_to_admin (amount : Z) : M (option AdminWallet) :=
  update_admin_wallet amount "revenue".

Definition deduct_admin_balance (amount : Z) : M (option AdminWallet) :=
  update_admin_wallet amount "expense".

Definition log_sale (customer_id product_id : Z) (product_name : string)
    (quantity unit_price total_price timestamp : Z) : M bool :=
  try_except
    (file_op >>
     let* sales := gets sales_file in
     let sale_record :=
       mkSale (Z.of_nat (length sales) + 1) customer_id product_id product_name
         quantity unit_price total_price timestamp in
     file_op >>
     modify (set_sales_file (sales ++ [sale_record])) >>
     ret true)
    (λ _, ret false).

Definition log_transaction (customer_id amount : Z)
    (transaction_type description : string) : M bool :=
  try_except
    (file_op >>
     let* transactions := gets transactions_file in
     let* now := gets clock in
     let transaction :=
       mkLedgerTx (Z.of_nat (length transactions) + 1) customer_id amount
         transaction_type description now in
     file_op >>
     modify (set_transactions_file (transactions ++ [transaction])) >>
     ret true)
    (λ _, ret false).

(** ** backend_engine/write_ops.py *)

Definition datefunction : M Z := gets clock.

(** The receipt that was written stands for the file name returned. *)
Definition save_purchase_invoice (customer_name : string) (items : list Item)
    (total timestamp : Z) : M (option PurchaseInvoice) :=
  let invoice := mkPurchaseInvoice customer_name items total timestamp in
  try_except
    (file_op >>
     modify (λ w, set_purchase_invoices (purchase_invoices w ++ [invoice]) w) >>
     ret (Some invoice))
    (λ _, ret None).

(** The rows of a restock invoice: [(product_id, amount, item_cost)]. *)
Fixpoint restock_lines (ps : gmap string Product) (session_items : list (Z * Z * Z))
    (grand_total : Z) (lines : list RestockLine)
  : M (Z * list RestockLine) :=
  match session_items with
  | [] => ret (grand_total, lines)
  | (product_id, amount, item_cost) :: rest =>
      match ps !! str product_id with
      | None => raise (key_error (str product_id))
      | Some p =>
          restock_lines ps rest (grand_total + item_cost)
            (lines ++ [mkRestockLine (p_name p) (p_brand p) amount (p_cost p)
                         item_cost])
      end
  end.

Definition generate_restock_invoice (session_items : list (Z * Z * Z))
    (vendor_name : string) (total_cost : Z) : M (option RestockInvoice) :=
  let* timestamp := datefunction in
  let* ps := gets products in
  let* body := restock_lines ps session_items 0 [] in
  let invoice := mkRestockInvoice vendor_name body.2 body.1 timestamp in
  try_except
    (file_op >>
     modify (λ w, set_restock_invoices (restock_invoices w ++ [invoice]) w) >>
     ret (Some invoice))
    (λ _, ret None).

(** ** app.py: the purchase route *)

Definition ensure_products_reload : M bool := load_products true.

(** The parsed [product_<id>] / [qty_<id>] form fields whose value is a
    string of digits; the handlers keep those with a positive quantity. *)
Definition collect_items (form : list (Z * Z)) : list (Z * Z) :=
  filter (λ field, 0 < field.2) form.

(** "FIRST: Check stock availability for all items": the loop returns the
    product that falls short, or the running [total] and [items]. *)
Fixpoint check_stock (ps : gmap string Product) (purchased_items : list (Z * Z))
    (total : Z) (items : list Item) : (string * Z) + (Z * list Item) :=
  match purchased_items with
  | [] => inr (total, items)
  | (product_id, qty) :: rest =>
      match ps !! str product_id with
      | Some p =>
          let free := qty / 3 in
          let required := qty + free in
          if bool_decide (required > p_stock p)
          then inl (p_name p, p_stock p)
          else
            let price := p_cost p * 2 * qty in
            check_stock ps rest (total + price)
              (items ++ [mkItem (p_name p) qty free price])
      | None => check_stock ps rest total items
      end
  end.

(** "SECOND: Update stock for all items": [true] when the loop ran to its
    end, [false] when it flashed an error and returned the redirect.  The
    [stock_updates] list the source appends to is never read. *)
Fixpoint update_stock_for_items (purchased_items : list (Z * Z)) : M bool :=
  match purchased_items with
  | [] => ret true
  | (product_id, qty) :: rest =>
      let* ps := gets products in
      match ps !! str product_id with
      | None => raise (key_error (str product_id))
      | Some p =>
          let free := qty / 3 in
          let required := qty + free in
          let* stock_result := update_product_stock product_id (- required) in
          match stock_result with
          | StockFailed error =>
              flash (ErrorUpdatingStock (p_name p) error) >> ret false
          | StockUpdated _ _ => update_stock_for_items rest
          end
      end
  end.

Definition log_sales (customer_id : Z) (purchased_items : list (Z * Z))
    (timestamp : Z) : M unit :=
  for_each purchased_items (λ line,
    let* ps := gets products in
    match ps !! str line.1 with
    | Some p =>
        log_sale customer_id line.1 (p_name p) line.2 (p_cost p * 2)
          (p_cost p * 2 * line.2) timestamp >>
        ret tt
    | None => ret tt
    end).

Definition purchase_description (purchased_items : list (Z * Z)) : string :=
  "Purchase: " +:+ pretty (length purchased_items) +:+ " items".

(** The body of the [try] of [purchase]: [Some r] when it returned the
    response [r], [None] when control falls through to the page rendering. *)
Definition purchase_try (customer_id : Z) (verify_name : string)
    (purchased_items : list (Z * Z)) (wallet_balance : Z)
  : M (option Response) :=
  let* ps := gets products in
  match check_stock ps purchased_items 0 [] with
  | inl (name, available) =>
      flash (NotEnoughStock name available) >>
      ret (Some (Redirect "purchase"))
  | inr (total, items) =>
      if bool_decide (total > wallet_balance) then
        flash (InsufficientWalletBalance total wallet_balance) >>
        ret (Some (Redirect "purchase"))
      else
        let* updated := update_stock_for_items purchased_items in
        if negb updated then ret (Some (Redirect "purchase"))
        else
          let* timestamp := datefunction in
          let* filename :=
            save_purchase_invoice verify_name items total timestamp in
          match filename with
          | Some _ =>
              let* new_balance := update_wallet_balance customer_id (- total) in
              update_customer_purchase customer_id total >>
              log_customer_transaction customer_id "purchase" total
                (purchase_description purchased_items) new_balance >>
              log_sales customer_id purchased_items timestamp >>
              log_transaction customer_id total "revenue"
                (purchase_description purchased_items) >>
              add_revenue_to_admin total >>
              let* balance_now := get_wallet_balance customer_id in
              modify (set_session_invoice
                        (Some (mkInvoiceData verify_name timestamp items total
                                 balance_now))) >>
              flash PurchaseCompleted >>
              ret (Some (Redirect "invoice"))
          | None =>
              flash ErrorGeneratingInvoice >> ret None
          end
  end.

(** [purchase] for a POST of a logged-in customer whose identity and card
    checks have passed; [form] holds the parsed [product_<id>] fields. *)
Definition purchase (customer_id : Z) (verify_name : string)
    (form : list (Z * Z)) : M Response :=
  let* wallet_balance := get_wallet_balance customer_id in
  get_customer_wallet customer_id >>
  let purchased_items := collect_items form in
  match purchased_items with
  | [] => flash NoProductsSelected >> ret (Redirect "purchase")
  | _ =>
      ensure_products_reload >>
      let* returned :=
        try_except
          (purchase_try customer_id verify_name purchased_items wallet_balance)
          (λ e, flash (ErrorDuringPurchase e) >> ret None) in
      match returned with
      | Some response => ret response
      | None => ensure_products_reload >> ret (Render "purchase.html")
      end
  end.

(** ** app.py: the restock route *)

Record StockUpdate := mkStockUpdate {
  su_product_id : Z;
  su_amount : Z;
  su_cost : Z;
  su_product_name : string
}.

(** "Calculate total cost first": the id that is not in the catalog, or
    [total_cost] and [stock_updates]. *)
Fixpoint restock_costs (ps : gmap string Product) (restock_items : list (Z * Z))
    (total_cost : Z) (stock_updates : list StockUpdate)
  : Z + (Z * list StockUpdate) :=
  match restock_items with
  | [] => inr (total_cost, stock_updates)
  | (product_id, amount) :: rest =>
      match ps !! str product_id with
      | Some p =>
          let cost := amount * p_cost p in
          restock_costs ps rest (total_cost + cost)
            (stock_updates ++ [mkStockUpdate product_id amount cost (p_name p)])
      | None => inl product_id
      end
  end.

(** "Update stock for all items" *)
Fixpoint restock_stock (stock_updates : list StockUpdate) : M bool :=
  match stock_updates with
  | [] => ret true
  | update :: rest =>
      let* stock_result :=
        update_product_stock (su_product_id update) (su_amount update) in
      match stock_result with
      | StockFailed error =>
          flash (ErrorRestocking (su_product_name update) error) >> ret false
      | StockUpdated _ _ => restock_stock rest
      end
  end.

Definition restock_try (vendor_name : string) (restock_items : list (Z * Z))
    (admin_wallet : AdminWallet) : M (option Response) :=
  let* ps := gets products in
  match restock_costs ps restock_items 0 [] with
  | inl product_id =>
      flash (RestockProductNotFound product_id) >>
      ret (Some (Redirect "admin_restock"))
  | inr (total_cost, stock_updates) =>
      if bool_decide (total_cost > aw_balance admin_wallet) then
        flash (InsufficientAdminBalance total_cost (aw_balance admin_wallet)) >>
        ret (Some (Redirect "admin_restock"))
      else
        let* updated := restock_stock stock_updates in
        if negb updated then ret (Some (Redirect "admin_restock"))
        else
          let* admin_wallet_update := deduct_admin_balance total_cost in
          match admin_wallet_update with
          | Some _ => flash (RestockCompleted total_cost)
          | None => flash RestockWalletNotUpdated
          end >>
          match stock_updates with
          | [] => ret tt
          | _ =>
              let session_items :=
                map (λ u, (su_product_id u, su_amount u, su_cost u))
                  stock_updates in
              generate_restock_invoice session_items vendor_name total_cost >>
              ret tt
          end >>
          load_products true >>
          ret (Some (Redirect "admin_restock"))
  end.

(** [admin_restock] for a POST of a logged-in admin; an empty
    [vendor_name] stands for a missing one. *)
Definition admin_restock (vendor_name : string) (form : list (Z * Z))
  : M Response :=
  let* admin_wallet := get_admin_wallet in
  if bool_decide (vendor_name = "") then
    flash NoVendorName >> ret (Redirect "admin_restock")
  else
    let restock_items := collect_items form in
    match restock_items with
    | [] => flash NoRestockItems >> ret (Redirect "admin_restock")
    | _ =>
        let* returned :=
          try_except (restock_try vendor_name restock_items admin_wallet)
            (λ e, flash (ErrorDuringRestocking e) >> ret None) in
        match returned with
        | Some response => ret response
        | None => load_products false >> ret (Render "admin_restock.html")
        end
    end.

(** ** app.py: the wallet route *)

Inductive WalletFlash := MoneyAdded (amount : Z) | MoneyWithdrawn (amount : Z)
                       | InsufficientForWithdrawal.

(** The POST branch of [wallet]: the message flashed, if any. *)
Definition wallet_post (customer_id : Z) (action : string) (amount : Z)
  : M (option WalletFlash) :=
  if String.eqb action "add" then
    update_wallet_balance customer_id amount >> ret (Some (MoneyAdded amount))
  else if String.eqb action "withdraw" then
    let* current_balance := get_wallet_balance customer_id in
    if bool_decide (amount > current_balance)
    then ret (Some InsufficientForWithdrawal)
    else
      update_wallet_balance customer_id (- amount) >>
      ret (Some (MoneyWithdrawn amount))
  else ret None.

(** ** A sample world *)

Definition sample_products : gmap string Product :=
  <[ "1" := mkProduct 1 "Vitamin C Serum" "Garnier" 265 100 200 true ]>
  (<[ "2" := mkProduct 2 "Skin Cleanser" "Cetaphil" 272 280 560 true ]> ∅).

Definition sample_world : World :=
  mkWorld sample_products sample_products
    {[ "7" := mkCustomer "Asha" 0 0 0 None ]}
    {[ "7" := mkWallet "Asha" "4242" 5000 ]}
    ∅ (Some (mkAdminWallet 50000 0 0 0)) [] [] [] [] [] None 20251120 [] [].

(** The sample world a day later. *)
Definition sample_world_next_day : World :=
  mkWorld sample_products sample_products
    {[ "7" := mkCustomer "Asha" 0 0 0 None ]}
    {[ "7" := mkWallet "Asha" "4242" 5000 ]}
    ∅ (Some (mkAdminWallet 50000 0 0 20251120)) [] [] [] [] [] None 20251121
    [] [].

(** ** Notions used in the statements *)

(** The in-memory catalog mirrors products.json. *)
Definition synced (w : World) : Prop := products_file w = products w.

(** No product of the catalog has a negative stock. *)
Definition stock_nonneg (ps : gmap string Product) : Prop :=
  ∀ key p, ps !! key = Some p → 0 ≤ p_stock p.

(** The stock invariant of the store: it holds of the dict in memory and of
    the file it is loaded from. *)
Definition stock_invariant (w : World) : Prop :=
  stock_nonneg (products w) ∧ stock_nonneg (products_file w).

(** The next file operation raises. *)
Definition next_file_op_fails (w : World) : Prop :=
  ∃ e rest, faults w = Some e :: rest.

(** What [admin_wallet.json] holds once [init_admin_wallet] has run. *)
Definition admin_wallet_before (w : World) : AdminWallet :=
  default (default_admin_wallet (clock w)) (admin_wallet_file w).

(** The messages flashed between two worlds. *)
Definition new_flashes (w w' : World) : list Flash :=
  drop (length (flashed w)) (flashed w').

(** The ledger of one customer. *)
Definition ledger_of (customer_id : Z) (w : World) : list CustomerTx :=
  default [] (customer_tx_file w !! str customer_id).

(** The balance [get_wallet_balance] reports when the file can be read. *)
Definition balance_of (customer_id : Z) (w : World) : Z :=
  match wallets_file w !! str customer_id with
  | Some wl => wl_balance wl
  | None => 0
  end.

(** [keeps view m]: running [m] leaves [view] of the world as it was. *)
Definition keeps {V A} (view : World → V) (m : M A) : Prop :=
  ∀ w, view (m w).2 = view w.

(** [preserves I m]: running [m] in a world where [I] holds leads to a world
    where [I] holds. *)
Definition preserves {A} (I : World → Prop) (m : M A) : Prop :=
  ∀ w, I w → I (m w).2.

(** ** Sequences of requests *)

Inductive Operation :=
| PurchaseOp (customer_id : Z) (verify_name : string) (form : list (Z * Z))
| RestockOp (vendor_name : string) (form : list (Z * Z)).

Definition run_operation (op : Operation) : M Response :=
  match op with
  | PurchaseOp customer_id verify_name form =>
      purchase customer_id verify_name form
  | RestockOp vendor_name form => admin_restock vendor_name form
  end.

(** The world after the requests were served one after the other. *)
Fixpoint run_operations (ops : list Operation) (w : World) : World :=
  match ops with
  | [] => w
  | op :: rest => run_operations rest (run_operation op w).2
  end.

(** The request flashed its success message. *)
Definition reported_success (op : Operation) (w : World) : Prop :=
  match op with
  | PurchaseOp _ _ _ =>
      PurchaseCompleted ∈ new_flashes w (run_operation op w).2
  | RestockOp _ _ =>
      ∃ total_cost,
        RestockCompleted total_cost ∈ new_flashes w (run_operation op w).2
  end.

(** Every request of the sequence reported success. *)
Fixpoint all_reported_success (ops : list Operation) (w : World) : Prop :=
  match ops with
  | [] => True
  | op :: rest =>
      reported_success op w ∧
      all_reported_success rest (run_operation op w).2
  end.

(** ** The promotion as the specification words it

    "quantity qty purchased grants free = qty // 3 bonus units; required =
    qty + free units must be available in stock; line_price = unit_cost x 2
    x qty".  These definitions follow that sentence; the theorems compare
    them with what [check_stock] computes. *)

Definition free_units (qty : Z) : Z := qty / 3.

Definition required_units (qty : Z) : Z := qty + free_units qty.

Definition line_price (unit_cost qty : Z) : Z := unit_cost * 2 * qty.

(** The lines of a purchase that name a catalog product, with that product. *)
Definition catalog_lines (ps : gmap string Product)
    (purchased_items : list (Z * Z)) : list (Product * Z) :=
  omap (λ line, p ← ps !! str line.1; Some (p, line.2)) purchased_items.

Definition priced_item (line : Product * Z) : Item :=
  mkItem (p_name line.1) line.2 (free_units line.2)
    (line_price (p_cost line.1) line.2).

(** [total = 0], then [total += price] for one item after the other. *)
Definition sum_of_prices (items : list Item) : Z :=
  foldl (λ total item, total + it_price item) 0 items.

(** The catalog after the required units of every line were taken away. *)
Definition deduct_line (ps : gmap string Product) (line : Z * Z)
  : gmap string Product :=
  alter (λ p, with_stock (p_stock p - required_units line.2) p) (str line.1) ps.

Definition deduct_lines (ps : gmap string Product)
    (purchased_items : list (Z * Z)) : gmap string Product :=
  foldl deduct_line ps purchased_items.

(** The cost of a restock batch: the sum of quantity x cost over its
    lines, added up from 0 in the order of the lines. *)
Definition restock_total (ps : gmap string Product)
    (restock_items : list (Z * Z)) : Z :=
  foldl (λ total_cost line,
           match ps !! str line.1 with
           | Some p => total_cost + line.2 * p_cost p
           | None => total_cost
           end) 0 restock_items.

(** The first steps of [purchase], up to the reload that precedes the
    checks; it returns the wallet balance the checks compare with. *)
Definition purchase_prelude (customer_id : Z) : M Z :=
  let* wallet_balance := get_wallet_balance customer_id in
  get_customer_wallet customer_id >>
  ensure_products_reload >>
  ret wallet_balance.

(** [flashes_only P m]: whatever [m] flashes satisfies [P], and it only
    appends to the messages flashed so far. *)
Definition flashes_only {A} (P : Flash → Prop) (m : M A) : Prop :=
  ∀ w, ∃ fs, flashed (m w).2 = flashed w ++ fs ∧ Forall P fs.

(** A message other than the success message of a restock. *)
Definition not_restock_completed (f : Flash) : Prop :=
  ∀ total_cost, f ≠ RestockCompleted total_cost.

(** One reading of [time.time() - _last_update_time] was consumed. *)
Definition tick (w : World) : World := set_timing (tail (timing w)) w.

(** The catalog [ps] is in memory and in products.json. *)
Definition commit (ps : gmap string Product) (w : World) : World :=
  set_products_file ps (set_products ps w).

(** No file operation to come is doomed. *)
Definition no_faults (w : World) : Prop := faults w = [].

(** [smooth m]: in a world without faults [m] returns normally and leaves
    a world without faults. *)
Definition smooth {A} (m : M A) : Prop :=
  ∀ w, no_faults w → (∃ a, (m w).1 = Ret a) ∧ no_faults (m w).2.

(** ** backend_engine/read_ops.py: catalog management *)

(** The [product_data] of [add_product], with the keys the model of a
    product keeps. *)
Record ProductData := mkProductData {
  pd_name : string;
  pd_brand : string;
  pd_stock : Z;
  pd_cost : Z
}.

(** The [product_data] of [update_product]: a dict that may hold any key
    of a product. *)
Record ProductEdit := mkProductEdit {
  pe_id : option Z;
  pe_name : option string;
  pe_brand : option string;
  pe_stock : option Z;
  pe_cost : option Z;
  pe_price : option Z;
  pe_is_active : option bool
}.

(** The error texts of [add_product], [update_product], [delete_product]. *)
Inductive CatalogError :=
| CatalogProductNotFound       (* 'Product not found' *)
| FailedToSaveProducts         (* 'Failed to save products to database' *)
| CatalogUnexpected (msg : string).   (* str(e) *)

(** The dicts they return. *)
Inductive CatalogResult :=
| ProductAdded (product_id : Z)       (* {'success': True, 'product_id': ..} *)
| CatalogSaved                        (* {'success': True} *)
| CatalogFailed (error : CatalogError).

Section catalog_ids.

(** Python's [int] on a dict key; [None] stands for [ValueError]. *)
Variable int : string → option Z.

(** The loop of [get_next_product_id] over [products.keys()]. *)
Fixpoint max_product_id (keys : list string) (max_id : Z) : Z :=
  match keys with
  | [] => max_id
  | product_id :: rest =>
      match int product_id with
      | Some pid =>
          max_product_id rest (if bool_decide (pid > max_id) then pid else max_id)
      | None => max_product_id rest max_id
      end
  end.

Definition get_next_product_id : M Z :=
  let* ps := gets products in
  if bool_decide (ps = ∅) then ret 1
  else ret (max_product_id (map_to_list ps).*1 0 + 1).

Definition add_product (product_data : ProductData) : M CatalogResult :=
  try_except
    (load_products true >>
     let* product_id := get_next_product_id in
     let product :=
       mkProduct product_id (pd_name product_data) (pd_brand product_data)
         (pd_stock product_data) (pd_cost product_data)
         (pd_cost product_data * 2) true in
     modify (λ w, set_products (<[str product_id := product]> (products w)) w) >>
     let* saved := save_products in
     if saved then ret (ProductAdded product_id)
     else
       modify (λ w, set_products (delete (str product_id) (products w)) w) >>
       ret (CatalogFailed FailedToSaveProducts))
    (λ e, ret (CatalogFailed (CatalogUnexpected e))).

End catalog_ids.

(** [for key, value in product_data.items(): if key in product:
    product[key] = value], then the price rule. *)
Definition apply_edit (product_data : ProductEdit) (product : Product)
  : Product :=
  let cost := default (p_cost product) (pe_cost product_data) in
  mkProduct
    (default (p_id product) (pe_id product_data))
    (default (p_name product) (pe_name product_data))
    (default (p_brand product) (pe_brand product_data))
    (default (p_stock product) (pe_stock product_data))
    cost
    (match pe_cost product_data with
     | Some new_cost => new_cost * 2
     | None => default (p_price product) (pe_price product_data)
     end)
    (default (p_is_active product) (pe_is_active product_data)).

Definition update_product (product_id : Z) (product_data : ProductEdit)
  : M CatalogResult :=
  try_except
    (load_products true >>
     let product_id_str := str product_id in
     let* ps := gets products in
     match ps !! product_id_str with
     | None => ret (CatalogFailed CatalogProductNotFound)
     | Some _ =>
         modify (λ w, set_products
                        (alter (apply_edit product_data) product_id_str
                           (products w)) w) >>
         let* saved := save_products in
         if saved then ret CatalogSaved
         else
           load_products true >>
           ret (CatalogFailed FailedToSaveProducts)
     end)
    (λ e, ret (CatalogFailed (CatalogUnexpected e))).

Definition with_is_active (b : bool) (p : Product) : Product :=
  mkProduct (p_id p) (p_name p) (p_brand p) (p_stock p) (p_cost p) (p_price p)
    b.

Definition delete_product (product_id : Z) : M CatalogResult :=
  try_except
    (load_products true >>
     let product_id_str := str product_id in
     let* ps := gets products in
     match ps !! product_id_str with
     | None => ret (CatalogFailed CatalogProductNotFound)
     | Some _ =>
         modify (λ w, set_products
                        (alter (with_is_active false) product_id_str
                           (products w)) w) >>
         let* saved := save_products in
         if saved then ret CatalogSaved
         else
           load_products true >>
           ret (CatalogFailed FailedToSaveProducts)
     end)
    (λ e, ret (CatalogFailed (CatalogUnexpected e))).

(** ** app.py: the catalog pages of the admin *)

Inductive CatalogFlash :=
| ProductAddedSuccessfully (name : string)
| ErrorAddingProduct (error : CatalogError)
| ProductNotFoundFlash
| ProductUpdatedSuccessfully (name : string)
| ErrorUpdatingProduct (error : CatalogError)
| ProductDeletedSuccessfully (name : string)
| ErrorDeletingProduct (error : CatalogError).

(** The POST branch of [admin_add_product] for a logged-in admin, with the
    [stock] and [cost] fields parsed; it returns the message flashed. *)
Definition admin_add_product (int : string → option Z)
    (product_data : ProductData) : M (Response * CatalogFlash) :=
  let* result := add_product int product_data in
  match result with
  | CatalogFailed error =>
      ret (Render "admin_add_product.html", ErrorAddingProduct error)
  | _ =>
      ret (Redirect "admin_products",
           ProductAddedSuccessfully (pd_name product_data))
  end.

(** The [product_data] built by [admin_edit_product]. *)
Definition edit_form (product_data : ProductData) : ProductEdit :=
  mkProductEdit None (Some (pd_name product_data))
    (Some (pd_brand product_data)) (Some (pd_stock product_data))
    (Some (pd_cost product_data)) None None.

(** The POST branch of [admin_edit_product]. *)
Definition admin_edit_product (product_id : Z) (product_data : ProductData)
  : M (Response * option CatalogFlash) :=
  ensure_products_reload >>
  let* ps := gets products in
  match ps !! str product_id with
  | None => ret (Redirect "admin_products", Some ProductNotFoundFlash)
  | Some _ =>
      let* result := update_product product_id (edit_form product_data) in
      match result with
      | CatalogFailed error =>
          ret (Render "admin_edit_product.html",
               Some (ErrorUpdatingProduct error))
      | _ =>
          ret (Redirect "admin_products",
               Some (ProductUpdatedSuccessfully (pd_name product_data)))
      end
  end.

Definition admin_delete_product (product_id : Z)
  : M (Response * CatalogFlash) :=
  ensure_products_reload >>
  let* ps := gets products in
  match ps !! str product_id with
  | None => ret (Redirect "admin_products", ProductNotFoundFlash)
  | Some product =>
      let* result := delete_product product_id in
      match result with
      | CatalogFailed error =>
          ret (Redirect "admin_products", ErrorDeletingProduct error)
      | _ =>
          ret (Redirect "admin_products",
               ProductDeletedSuccessfully (p_name product))
      end
  end.

(** The products [show_products], [purchase] and [admin_products] list
    once the catalog is in memory. *)
Definition listed_products (ps : gmap string Product) : gmap string Product :=
  filter (λ entry, p_is_active entry.2 = true) ps.

(** ** backend_engine/customer_ops.py: tier details *)

Record TierInfo := mkTierInfo {
  ti_name : string;
  ti_next_tier : option Tier;
  ti_points_needed : Z;
  ti_min_points : Z;
  ti_max_points : option Z        (* [None] for [float('inf')] *)
}.

Definition get_loyalty_tier_info (points : Z) : TierInfo :=
  match get_loyalty_tier points with
  | none => mkTierInfo "No Tier" (Some bronze) 100 0 (Some 99)
  | bronze => mkTierInfo "Bronze Member" (Some silver) (500 - points) 100
                (Some 499)
  | silver => mkTierInfo "Silver Member" (Some gold) (1000 - points) 500
                (Some 999)
  | gold => mkTierInfo "Gold Member" (Some diamond) (2000 - points) 1000
              (Some 1999)
  | diamond => mkTierInfo "Diamond Member" None 0 2000 None
  end.

(** ** backend_engine/customer_ops.py: wallet setup and card check *)

Record WalletData := mkWalletData {
  wd_card_type : string;
  wd_card_number : string;
  wd_card_holder : string;
  wd_expiry_date : string
}.

Fixpoint drop_chars (n : nat) (s : string) : string :=
  match n, s with
  | O, _ => s
  | S n', String _ rest => drop_chars n' rest
  | S _, EmptyString => EmptyString
  end.

(** [s[-4:]] *)
Definition last_four (s : string) : string :=
  drop_chars (String.length s - 4) s.

Definition setup_customer_wallet (customer_id : Z) (wallet_data : WalletData)
  : M bool :=
  try_except
    (file_op >>
     let* wallets := gets wallets_file in
     let wallet :=
       mkWallet (wd_card_holder wallet_data)
         (last_four (wd_card_number wallet_data)) 10000 in
     file_op >>
     modify (set_wallets_file (<[str customer_id := wallet]> wallets)) >>
     ret true)
    (λ _, ret false).

Inductive CardCheck :=
| CardVerified (wallet : Wallet)
| WalletNotFound                 (* 'Wallet not found' *)
| CardVerificationFailed         (* 'Card verification failed. ..' *)
| CardCheckError (msg : string).

(** [lower] is Python's [str.lower]. *)
Definition verify_card_information (lower : string → string)
    (customer_id : Z) (card_holder card_last_four : string) : M CardCheck :=
  try_except
    (file_op >>
     let* wallets := gets wallets_file in
     match wallets !! str customer_id with
     | None => ret WalletNotFound
     | Some wallet =>
         if bool_decide (lower (wl_card_holder wallet) ≠ lower card_holder)
            || bool_decide (wl_card_number wallet ≠ card_last_four)
         then ret CardVerificationFailed
         else ret (CardVerified wallet)
     end)
    (λ e, ret (CardCheckError e)).

(** ** app.py: the wallet setup page *)

Inductive SetupFlash :=
| FillAllWalletFields
| WalletSetupSuccessful
| ErrorSettingUpWallet.

(** The POST branch of [setup_wallet] for a logged-in customer; a missing
    form field reads as the empty string. *)
Definition setup_wallet (customer_id : Z)
    (card_type card_holder card_number expiry_date : string)
  : M (Response * SetupFlash) :=
  if bool_decide (card_type = "") || bool_decide (card_holder = "")
     || bool_decide (card_number = "") || bool_decide (expiry_date = "")
  then ret (Redirect "setup_wallet", FillAllWalletFields)
  else
    let wallet_data :=
      mkWalletData card_type card_number card_holder expiry_date in
    let* created := setup_customer_wallet customer_id wallet_data in
    if created then ret (Redirect "customer_dashboard", WalletSetupSuccessful)
    else ret (Render "setup_wallet.html", ErrorSettingUpWallet).

(** ** backend_engine/customer_ops.py: transaction history *)

(** [customer_tx.sort(key=timestamp, reverse=True)]: a stable sort, newest
    first; entries of the same instant keep their order. *)
Fixpoint insert_newest_first (tx : CustomerTx) (sorted : list CustomerTx)
  : list CustomerTx :=
  match sorted with
  | [] => [tx]
  | other :: rest =>
      if bool_decide (ctx_timestamp tx < ctx_timestamp other)
      then other :: insert_newest_first tx rest
      else tx :: other :: rest
  end.

Definition sort_newest_first (l : list CustomerTx) : list CustomerTx :=
  foldr insert_newest_first [] l.

Definition get_customer_transactions (customer_id : Z) (limit : nat)
  : M (list CustomerTx) :=
  try_except
    (file_op >>
     let* transactions := gets customer_tx_file in
     let customer_tx := default [] (transactions !! str customer_id) in
     ret (take limit (sort_newest_first customer_tx)))
    (λ _, ret []).

(** The statistics that are sums and counts; the two entries computed from
    calendar dates ([last_transaction], [transaction_count_30d]) are not
    part of the model. *)
Record TxStats := mkTxStats {
  ts_total_transactions : Z;
  ts_total_added : Z;
  ts_total_spent : Z
}.

(** The loop of [get_transaction_stats]. *)
Fixpoint stats_loop (transactions : list CustomerTx) (total_added total_spent : Z)
  : Z * Z :=
  match transactions with
  | [] => (total_added, total_spent)
  | tx :: rest =>
      if String.eqb (ctx_type tx) "add"
      then stats_loop rest (total_added + ctx_amount tx) total_spent
      else if String.eqb (ctx_type tx) "purchase"
              || String.eqb (ctx_type tx) "withdraw"
      then stats_loop rest total_added (total_spent + Z.abs (ctx_amount tx))
      else stats_loop rest total_added total_spent
  end.

Definition get_transaction_stats (customer_id : Z) : M TxStats :=
  let* transactions := get_customer_transactions customer_id 100 in
  let totals := stats_loop transactions 0 0 in
  ret (mkTxStats (Z.of_nat (length transactions)) totals.1 totals.2).

(** ** Requests of every kind *)

Inductive Request :=
| ShopRequest (op : Operation)
| WalletRequest (customer_id : Z) (action : string) (amount : Z)
| SetupWalletRequest (customer_id : Z)
    (card_type card_holder card_number expiry_date : string)
| AddProductRequest (product_data : ProductData)
| EditProductRequest (product_id : Z) (product_data : ProductData)
| DeleteProductRequest (product_id : Z).

Definition serve (int : string → option Z) (request : Request) : M unit :=
  match request with
  | ShopRequest op => run_operation op >> ret tt
  | WalletRequest customer_id action amount =>
      wallet_post customer_id action amount >> ret tt
  | SetupWalletRequest customer_id card_type card_holder card_number
      expiry_date =>
      setup_wallet customer_id card_type card_holder card_number expiry_date >>
      ret tt
  | AddProductRequest product_data =>
      admin_add_product int product_data >> ret tt
  | EditProductRequest product_id product_data =>
      admin_edit_product product_id product_data >> ret tt
  | DeleteProductRequest product_id =>
      admin_delete_product product_id >> ret tt
  end.

(** The world after the requests were served one after the other. *)
Fixpoint serve_all (int : string → option Z) (requests : list Request)
    (w : World) : World :=
  match requests with
  | [] => w
  | request :: rest => serve_all int rest (serve int request w).2
  end.

(** ** A reading of decimal literals

    One function that agrees with [int] on the keys [str] produces. *)

(** The value of a character between "0" (code 48) and "9" (code 57). *)
Definition digit_of (c : Ascii.ascii) : option N :=
  let code := Ascii.N_of_ascii c in
  if bool_decide (48 ≤ code ≤ 57)%N then Some (code - 48)%N else None.

Fixpoint decimal_digits (s : string) (acc : N) : option N :=
  match s with
  | EmptyString => Some acc
  | String c rest =>
      match digit_of c with
      | Some d => decimal_digits rest (acc * 10 + d)%N
      | None => None
      end
  end.

Definition decimal_nat (s : string) : option N :=
  match s with
  | EmptyString => None
  | _ => decimal_digits s 0
  end.

Definition decimal_int (s : string) : option Z :=
  match s with
  | String c rest =>
      if bool_decide (Ascii.N_of_ascii c = 45%N)    (* "-" *)
      then (λ n, - Z.of_N n) <$> decimal_nat rest
      else Z.of_N <$> decimal_nat s
  | EmptyString => None
  end.

(** ** Invariants of the store *)

(** The selling price of every product is twice its cost. *)
Definition price_rule (ps : gmap string Product) : Prop :=
  ∀ key p, ps !! key = Some p → p_price p = p_cost p * 2.

Definition pricing_invariant (w : World) : Prop :=
  price_rule (products w) ∧ price_rule (products_file w).

(** No wallet is overdrawn. *)
Definition wallets_nonneg (w : World) : Prop :=
  ∀ key wallet, wallets_file w !! key = Some wallet → 0 ≤ wl_balance wallet.

(** Every customer holds at most one point per 100 spent. *)
Definition points_bounded (w : World) : Prop :=
  ∀ key c, customers_file w !! key = Some c →
           100 * c_points c ≤ c_total_spent c.

(** No product has a negative cost. *)
Definition costs_nonneg (ps : gmap string Product) : Prop :=
  ∀ key p, ps !! key = Some p → 0 ≤ p_cost p.

Definition costs_invariant (w : World) : Prop :=
  costs_nonneg (products w) ∧ costs_nonneg (products_file w).

(** The three logs of [w] are still there, as they were, at the start of
    the logs of [w']. *)
Definition logs_extended (w w' : World) : Prop :=
  (∀ key, default [] (customer_tx_file w !! key)
          `prefix_of` default [] (customer_tx_file w' !! key)) ∧
  sales_file w `prefix_of` sales_file w' ∧
  transactions_file w `prefix_of` transactions_file w'.

(** No read to come finds a file that [json.load] cannot parse. *)
Definition parsable_files (w : World) : Prop :=
  Forall (λ fate, ∀ e, fate = Some e → json_decode_error e = false)
    (faults w).

(** A catalog request of the admin whose stock field is not negative. *)
Definition stock_input_nonneg (request : Request) : Prop :=
  match request with
  | AddProductRequest product_data
  | EditProductRequest _ product_data => 0 ≤ pd_stock product_data
  | _ => True
  end.

(** A catalog request of the admin whose cost field is not negative. *)
Definition cost_input_nonneg (request : Request) : Prop :=
  match request with
  | AddProductRequest product_data
  | EditProductRequest _ product_data => 0 ≤ pd_cost product_data
  | _ => True
  end.

(** A request that is not a deposit of a negative amount. *)
Definition honest_deposit (request : Request) : Prop :=
  match request with
  | WalletRequest _ action amount => action = "add" → 0 ≤ amount
  | _ => True
  end.

(** The catalog after a restock batch was added. *)
Definition restock_line (ps : gmap string Product) (line : Z * Z)
  : gmap string Product :=
  alter (λ p, with_stock (p_stock p + line.2) p) (str line.1) ps.

Definition restock_lines_applied (ps : gmap string Product)
    (restock_items : list (Z * Z)) : gmap string Product :=
  foldl restock_line ps restock_items.



(** Every customer record of [w] is still in [w'], with at least the
    points, the spending and the purchases it had. *)
Definition customers_grow (w w' : World) : Prop :=
  ∀ key c, customers_file w !! key = Some c →
    ∃ c', customers_file w' !! key = Some c' ∧
          c_points c ≤ c_points c' ∧
          c_total_spent c ≤ c_total_spent c' ∧
          c_purchase_count c ≤ c_purchase_count c'.

(** ** backend_engine/customer_ops.py: accounts

    A record of customers.json has two parts: the one the purchase flow
    reads and writes ([Customer], in [customers_file]) and the credentials
    ([Account]).  The credentials of all customers are the map the
    functions below take and give back; it has the keys of
    [customers_file], and both are read and written together, by the same
    file operation. *)

Record Account := mkAccount {
  a_email : string;
  a_phone : string;
  a_password : string       (* the hash *)
}.

Inductive RegisterResult :=
| Registered (customer_id : Z)
| EmailAlreadyRegistered        (* 'Email already registered' *)
| RegisterError (msg : string).

Inductive LoginResult :=
| LoggedIn (key : string) (account : Account)
| InvalidEmailOrPassword        (* 'Invalid email or password' *)
| LoginError (msg : string).

Inductive DeleteResult :=
| AccountDeleted (wallet_balance : Z)
| CustomerNotFound              (* 'Customer not found' *)
| IncorrectPassword             (* 'Incorrect password. ..' *)
| DeleteError (msg : string).

Inductive IdentityCheck :=
| IdentityVerified
| IdentityCustomerNotFound
| IdentityVerificationFailed
| IdentityError (msg : string).

Section accounts.

(** Python's [str.lower], [hashlib.sha256(..).hexdigest()] and [int]. *)
Variable lower : string → string.
Variable hash_password : string → string.
Variable int : string → option Z.

(** [max(int(cid) for cid in customers.keys())]: [None] when [int] raises
    on some key.  The dict is not empty where this is called. *)
Definition max_customer_id (keys : list string) : option Z :=
  match mapM int keys with
  | Some (n :: ns) => Some (foldr Z.max n ns)
  | _ => None
  end.

(** The bare [except] turns every failure into the id 1. *)
Definition get_next_customer_id : M Z :=
  try_except
    (file_op >>
     let* customers := gets customers_file in
     if bool_decide (customers = ∅) then ret 1
     else
       match max_customer_id (map_to_list customers).*1 with
       | Some max_id => ret (max_id + 1)
       | None => raise "invalid literal for int() with base 10"
       end)
    (λ _, ret 1).

(** [wallet_data] is [Some] when [setup_wallet] is set and the card fields
    were given. *)
Definition register_customer (accounts : gmap string Account)
    (name email phone password : string) (wallet_data : option WalletData)
  : M (RegisterResult * gmap string Account) :=
  try_except
    (file_op >>
     let* customers := gets customers_file in
     if bool_decide
          (map_Exists (λ _ account, lower (a_email account) = lower email)
             accounts)
     then ret (EmailAlreadyRegistered, accounts)
     else
       let* customer_id := get_next_customer_id in
       let customer := mkCustomer name 0 0 0 None in
       let account := mkAccount (lower email) phone (hash_password password) in
       file_op >>
       modify (set_customers_file (<[str customer_id := customer]> customers)) >>
       match wallet_data with
       | Some data => setup_customer_wallet customer_id data >> ret tt
       | None => ret tt
       end >>
       ret (Registered customer_id, <[str customer_id := account]> accounts))
    (λ e, ret (RegisterError e, accounts)).

(** The loop returns the first record that matches; the records are gone
    through in the order of [map_to_list], which matters only when several
    match. *)
Definition login_customer (accounts : gmap string Account)
    (email password : string) : M LoginResult :=
  try_except
    (file_op >>
     let hashed_password := hash_password password in
     match
       list_find (λ entry : string * Account,
                    lower (a_email entry.2) = lower email ∧
                    a_password entry.2 = hashed_password)
         (map_to_list accounts)
     with
     | Some (_, (key, account)) => ret (LoggedIn key account)
     | None => ret InvalidEmailOrPassword
     end)
    (λ e, ret (LoginError e)).

Definition verify_customer_identity (accounts : gmap string Account)
    (customer_id : Z) (name email phone : string) : M IdentityCheck :=
  try_except
    (file_op >>
     let* customers := gets customers_file in
     match customers !! str customer_id, accounts !! str customer_id with
     | Some customer, Some account =>
         if bool_decide (lower (c_name customer) ≠ lower name)
            || bool_decide (lower (a_email account) ≠ lower email)
            || bool_decide (a_phone account ≠ phone)
         then ret IdentityVerificationFailed
         else ret IdentityVerified
     | _, _ => ret IdentityCustomerNotFound
     end)
    (λ e, ret (IdentityError e)).

Definition remove_customer_wallet (customer_id : Z) : M bool :=
  try_except
    (file_op >>
     let* wallets := gets wallets_file in
     match wallets !! str customer_id with
     | Some _ =>
         file_op >>
         modify (set_wallets_file (delete (str customer_id) wallets))
     | None => ret tt
     end >>
     ret true)
    (λ _, ret false).

Definition delete_customer_account (accounts : gmap string Account)
    (customer_id : Z) (confirm_password : string)
  : M (DeleteResult * gmap string Account) :=
  try_except
    (file_op >>
     let* customers := gets customers_file in
     match customers !! str customer_id, accounts !! str customer_id with
     | Some _, Some account =>
         if bool_decide (a_password account ≠ hash_password confirm_password)
         then ret (IncorrectPassword, accounts)
         else
           let* wallet_balance := get_wallet_balance customer_id in
           file_op >>
           modify (set_customers_file (delete (str customer_id) customers)) >>
           remove_customer_wallet customer_id >>
           ret (AccountDeleted wallet_balance,
                delete (str customer_id) accounts)
     | _, _ => ret (CustomerNotFound, accounts)
     end)
    (λ e, ret (DeleteError e, accounts)).

End accounts.

(** No two accounts have the same e-mail address, whatever the case of
    its letters. *)
Definition emails_unique (lower : string → string)
    (accounts : gmap string Account) : Prop :=
  ∀ key1 key2 account1 account2,
    accounts !! key1 = Some account1 →
    accounts !! key2 = Some account2 →
    lower (a_email account1) = lower (a_email account2) →
    key1 = key2.

(** ** Amounts in floating point

    Python's [float] is the binary64 format of IEEE 754 with rounding to
    nearest, ties to even, which is [spec_float] at precision 53.  The
    definitions of this module are the arithmetic of the statements they
    name, for amounts that need not be whole numbers. *)

Module binary64.

Definition float : Type := spec_float.

Definition prec : Z := 53.
Definition emax : Z := 1024.

Definition add : float → float → float := SFadd prec emax.
Definition sub : float → float → float := SFsub prec emax.
Definition mul : float → float → float := SFmul prec emax.
Definition div : float → float → float := SFdiv prec emax.
Definition neg : float → float := SFopp.

(** [x > y], which is [False] as soon as one side is nan *)
Definition gt (x y : float) : bool := SFltb y x.

(** [float(n)] for an int [n] *)
Definition of_int (n : Z) : float := binary_normalize prec emax n 0 false.

Definition nan : float := S754_nan.

(** [n 2^k] *)
Definition shl (n : positive) (k : nat) : positive := Nat.iter k xO n.

(** The places the mantissa of the whole number [n], below 2^53, is
    shifted by to fill the 53 bits. *)
Definition shift_of (n : positive) : nat :=
  Z.to_nat (53 - Z.pos (digits2_pos n)).

(** The float that holds the whole number [n], below 2^53, with the
    sign [s]. *)
Definition canon (s : bool) (n : positive) : float :=
  let d := Z.pos (digits2_pos n) in
  S754_finite s (shl n (Z.to_nat (53 - d))) (d - 53).

(** [2^1100 x] for a finite [x], a whole number since no binary64 has an
    exponent below -1074: two finite floats are the same real number when
    their scaled values are equal. *)
Definition scaled (x : float) : Z :=
  match x with
  | S754_finite s m e => cond_Zopp s (Z.pos m) * 2 ^ (e + 1100)
  | _ => 0
  end.

(** app.py, [admin_restock]: [total_cost = 0], then for every line
    [cost = amount * products[id]["cost"]] and [total_cost += cost]; a line
    is given with the cost of its product. *)
Definition restock_total (lines : list (Z * float)) : float :=
  foldl (λ total_cost line, add total_cost (mul (of_int line.1) line.2))
    (of_int 0) lines.

(** admin_ops.py, [update_admin_wallet]: what becomes of
    [wallet['balance']]. *)
Definition update_admin_wallet (balance amount : float)
    (transaction_type : string) : float :=
  if String.eqb transaction_type "revenue" then add balance amount
  else if String.eqb transaction_type "expense" then sub balance amount
  else balance.

(** app.py, [admin_restock]: the balance of the admin wallet after a batch,
    [None] when the batch is refused for costing more than the balance. *)
Definition admin_restock (balance : float) (lines : list (Z * float))
  : option float :=
  let total_cost := restock_total lines in
  if gt total_cost balance then None
  else Some (update_admin_wallet balance total_cost "expense").

(** The lines of a restock batch that name a product of the catalog, each
    with the cost of its product as the float it is. *)
Definition restock_lines (ps : gmap string Product)
    (restock_items : list (Z * Z)) : list (Z * float) :=
  omap (λ line, p ← ps !! str line.1; Some (line.2, of_int (p_cost p)))
    restock_items.

(** customer_ops.py, [update_wallet_balance]: [wallet['balance'] += amount] *)
Definition update_wallet_balance (balance amount : float) : float :=
  add balance amount.

(** app.py, [purchase]: [total = 0], then for every line
    [price = p["cost"] * 2 * qty] and [total += price]; a line is given
    with the cost of its product. *)
Definition purchase_total (lines : list (float * Z)) : float :=
  foldl (λ total line,
           add total (mul (mul line.1 (of_int 2)) (of_int line.2)))
    (of_int 0) lines.

(** app.py, [purchase]: the wallet balance after a purchase whose stock
    check passes, [None] when it is refused for costing more than the
    balance. *)
Definition purchase (wallet_balance : float) (lines : list (float * Z))
  : option float :=
  let total := purchase_total lines in
  if gt total wallet_balance then None
  else Some (update_wallet_balance wallet_balance (neg total)).

(** The lines of a purchase that name a product of the catalog, each with
    the cost of its product as the float it is. *)
Definition purchase_lines (ps : gmap string Product)
    (purchased_items : list (Z * Z)) : list (float * Z) :=
  omap (λ line, p ← ps !! str line.1; Some (of_int (p_cost p), line.2))
    purchased_items.

(** app.py, [wallet], the 'withdraw' action: the balance stored, [None]
    when the withdrawal is refused. *)
Definition withdraw (current_balance amount : float) : option float :=
  if gt amount current_balance then None
  else Some (update_wallet_balance current_balance (neg amount)).

End binary64.

(** Costs that floating point holds and doubles exactly. *)
Definition whole_costs (ps : gmap string Product) : Prop :=
  ∀ key p, ps !! key = Some p → 0 ≤ p_cost p < 2 ^ 52.

(** Quantities of a form as [collect_items] keeps them, small enough to be
    floats. *)
Definition whole_quantities (items : list (Z * Z)) : Prop :=
  Forall (λ line, 0 < line.2 < 2 ^ 53) items.
(** ** Reasoning about the monad *)

Lemma bind_ret {A B} (m : M A) (k : A → M B) w a w' :
  m w = (Ret a, w') → bind m k w = k a w'.
Proof. intros E. unfold bind. now rewrite E. Qed.

Lemma bind_raise {A B} (m : M A) (k : A → M B) w e w' :
  m w = (Raise e, w') → bind m k w = (Raise e, w').
Proof. intros E. unfold bind. now rewrite E. Qed.

Lemma try_ret {A} (m : M A) h w a w' :
  m w = (Ret a, w') → try_except m h w = (Ret a, w').
Proof. intros E. unfold try_except. now rewrite E. Qed.

Lemma try_raise {A} (m : M A) h w e w' :
  m w = (Raise e, w') → try_except m h w = h e w'.
Proof. intros E. unfold try_except. now rewrite E. Qed.

Lemma keeps_ret {V A} (view : World → V) (a : A) : keeps view (ret a).
Proof. now intros w. Qed.

Lemma keeps_raise {V A} (view : World → V) e : keeps view (@raise A e).
Proof. now intros w. Qed.

Lemma keeps_gets {V A} (view : World → V) (f : World → A) : keeps view (gets f).
Proof. now intros w. Qed.

Lemma keeps_bind {V A B} (view : World → V) (m : M A) (k : A → M B) :
  keeps view m → (∀ a, keeps view (k a)) → keeps view (bind m k).
Proof.
  intros Hm Hk w. unfold bind. specialize (Hm w).
  destruct (m w) as [[a|e] w1]; simpl in *; [|done].
  now rewrite Hk.
Qed.

Lemma keeps_try {V A} (view : World → V) (m : M A) h :
  keeps view m → (∀ e, keeps view (h e)) → keeps view (try_except m h).
Proof.
  intros Hm Hh w. unfold try_except. specialize (Hm w).
  destruct (m w) as [[a|e] w1]; simpl in *; [done|].
  now rewrite Hh.
Qed.

Lemma keeps_for_each {V A} (view : World → V) (l : list A) body :
  (∀ x, keeps view (body x)) → keeps view (for_each l body).
Proof.
  intros Hb. induction l as [|x l IH]; simpl.
  - apply keeps_ret.
  - apply keeps_bind; auto.
Qed.

(** A step that only consumes the environment's queues, appends a flash or
    sets one component keeps every other one: the goal computes. *)
Ltac keeps_prim :=
  let w := fresh "w" in
  intros w;
  first
    [ reflexivity
    | unfold file_op; destruct (faults w) as [|[?|] ?]; reflexivity
    | unfold since_last_update; destruct (timing w); reflexivity ].

Lemma keeps_update_stock_loop {V} (view : World → V) l :
  (∀ f, keeps view (flash f)) →
  (∀ product_id delta, keeps view (update_product_stock product_id delta)) →
  keeps view (update_stock_for_items l).
Proof.
  intros Hf Hu. induction l as [|[product_id qty] l IH]; simpl.
  - apply keeps_ret.
  - apply keeps_bind; [apply keeps_gets|intros ps].
    destruct (ps !! str product_id); [|apply keeps_raise].
    apply keeps_bind; [apply Hu|intros [? ?|?]]; [apply IH|].
    apply keeps_bind; [apply Hf|intros; apply keeps_ret].
Qed.

Lemma keeps_restock_stock {V} (view : World → V) l :
  (∀ f, keeps view (flash f)) →
  (∀ product_id delta, keeps view (update_product_stock product_id delta)) →
  keeps view (restock_stock l).
Proof.
  intros Hf Hu. induction l as [|update l IH]; simpl.
  - apply keeps_ret.
  - apply keeps_bind; [apply Hu|intros [? ?|?]]; [apply IH|].
    apply keeps_bind; [apply Hf|intros; apply keeps_ret].
Qed.

Lemma keeps_restock_lines {V} (view : World → V) ps l total lines :
  keeps view (restock_lines ps l total lines).
Proof.
  revert total lines.
  induction l as [|[[product_id amount] item_cost] l IH]; intros; simpl.
  - apply keeps_ret.
  - destruct (ps !! str product_id); [apply IH|apply keeps_raise].
Qed.

(** Unfold one source function, down towards the primitive steps. *)
Ltac open_source m :=
  lazymatch m with
  | load_products _ => unfold load_products
  | reload_products => unfold reload_products
  | ensure_products_reload => unfold ensure_products_reload
  | save_products => unfold save_products
  | update_product_stock _ _ => unfold update_product_stock
  | get_customer_wallet _ => unfold get_customer_wallet
  | get_wallet_balance _ => unfold get_wallet_balance
  | log_customer_transaction _ _ _ _ _ => unfold log_customer_transaction
  | update_wallet_balance _ _ => unfold update_wallet_balance
  | update_customer_purchase _ _ => unfold update_customer_purchase
  | init_admin_wallet => unfold init_admin_wallet
  | read_admin_wallet => unfold read_admin_wallet
  | get_admin_wallet => unfold get_admin_wallet
  | update_admin_wallet _ _ => unfold update_admin_wallet
  | add_revenue_to_admin _ => unfold add_revenue_to_admin
  | deduct_admin_balance _ => unfold deduct_admin_balance
  | log_sale _ _ _ _ _ _ _ => unfold log_sale
  | log_sales _ _ _ => unfold log_sales
  | log_transaction _ _ _ _ => unfold log_transaction
  | datefunction => unfold datefunction
  | save_purchase_invoice _ _ _ _ => unfold save_purchase_invoice
  | generate_restock_invoice _ _ _ => unfold generate_restock_invoice
  | assign_stock _ _ => unfold assign_stock
  end.

Ltac keeps_step :=
  match goal with
  | |- keeps _ (bind _ _) => apply keeps_bind; [|intros ?]
  | |- keeps _ (try_except _ _) => apply keeps_try; [|intros ?]
  | |- keeps _ (for_each _ _) => apply keeps_for_each; intros ?
  | |- keeps _ (ret _) => apply keeps_ret
  | |- keeps _ (raise _) => apply keeps_raise
  | |- keeps _ (gets _) => apply keeps_gets
  | |- keeps _ (restock_lines _ _ _ _) => apply keeps_restock_lines
  | |- keeps _ (update_stock_for_items _) =>
      apply keeps_update_stock_loop; intros
  | |- keeps _ (restock_stock _) => apply keeps_restock_stock; intros
  | |- keeps _ (match ?x with _ => _ end) => destruct x
  | |- keeps _ ?m => open_source m
  | |- keeps _ _ => keeps_prim
  end.

Ltac keeps_auto := cbv zeta; repeat (keeps_step; cbv zeta).

(** Run a small function symbolically: split on the fate the queues hold
    for each file operation it performs. *)
Ltac run_env_step :=
  match goal with
  | E : faults ?w = _ |- context [faults ?w] => rewrite E
  | E : faults ?w = _, H : context [match faults ?w with _ => _ end] |- _ =>
      rewrite E in H
  | E : admin_wallet_file ?w = _ |- context [admin_wallet_file ?w] =>
      rewrite E
  | E : admin_wallet_file ?w = _,
    H : context [match admin_wallet_file ?w with _ => _ end] |- _ =>
      rewrite E in H
  | |- context [match faults ?w with _ => _ end] =>
      let E := fresh "Ef" in destruct (faults w) as [|[?|] ?] eqn:E
  | H : context [match faults ?w with _ => _ end] |- _ =>
      let E := fresh "Ef" in destruct (faults w) as [|[?|] ?] eqn:E
  | |- context [match ?l with [] => _ | _ :: _ => _ end] =>
      is_var l; destruct l as [|[?|] ?]
  | H : context [match ?l with [] => _ | _ :: _ => _ end] |- _ =>
      is_var l; destruct l as [|[?|] ?]
  end.

Ltac run_env := cbn in *; repeat (run_env_step; cbn in *).

(** ** The catalog store *)

Lemma load_products_returns force w :
  ∃ loaded, (load_products force w).1 = Ret loaded.
Proof.
  unfold load_products, bind, try_except, since_last_update, file_op, gets,
    modify, ret.
  destruct force, (timing w) as [|[| |] rest]; simpl; eauto;
    destruct (faults w) as [|[e|] more]; simpl; eauto.
Qed.

(** A reload either leaves the dict in memory alone or replaces it by the
    content of the file; the file is only read. *)
Lemma load_products_catalog force w :
  products_file (load_products force w).2 = products_file w ∧
  (products (load_products force w).2 = products w ∨
   (load_products force w).1 = Ret true ∧
   products (load_products force w).2 = products_file w).
Proof.
  unfold load_products, bind, try_except, since_last_update, file_op, gets,
    modify, ret.
  destruct force, (timing w) as [|[| |] rest]; simpl; eauto;
    destruct (faults w) as [|[e|] more]; simpl; eauto.
Qed.

Lemma load_products_synced force w :
  synced w → products (load_products force w).2 = products w ∧
             products_file (load_products force w).2 = products_file w.
Proof.
  intros Hs. destruct (load_products_catalog force w) as [Hf [Hp|[_ Hp]]];
    split; auto. now rewrite Hp.
Qed.

Lemma with_stock_stock s p : p_stock (with_stock s p) = s.
Proof. reflexivity. Qed.

Lemma with_stock_same p : with_stock (p_stock p) p = p.
Proof. now destruct p. Qed.

Lemma with_stock_twice s t p : with_stock s (with_stock t p) = with_stock s p.
Proof. reflexivity. Qed.

(** Putting the old stock back undoes an assignment. *)
Lemma alter_stock_undo (ps : gmap string Product) key p s :
  ps !! key = Some p →
  alter (with_stock (p_stock p)) key (alter (with_stock s) key ps) = ps.
Proof.
  intros Hp. apply map_eq. intros k.
  destruct (decide (key = k)) as [<-|Hne].
  - rewrite !lookup_alter_eq, Hp. now destruct p.
  - now rewrite !lookup_alter_ne.
Qed.

Lemma save_products_cases w :
  (¬ next_file_op_fails w →
     (save_products w).1 = Ret true ∧
     products (save_products w).2 = products w ∧
     products_file (save_products w).2 = products w) ∧
  (next_file_op_fails w →
     (save_products w).1 = Ret false ∧
     products (save_products w).2 = products w ∧
     products_file (save_products w).2 = products_file w).
Proof.
  unfold next_file_op_fails, save_products, try_except, bind, gets, file_op,
    modify, ret.
  destruct (faults w) as [|[e|] rest]; simpl; split; intros H; auto.
  - now destruct H as (? & ? & ?).
  - destruct H. eauto.
  - now destruct H as (? & ? & ?).
Qed.

Lemma update_product_stock_cases (product_id delta : Z) (w : World) :
  let w1 := (load_products true w).2 in
  let key := str product_id in
  let result := (update_product_stock product_id delta w).1 in
  let w' := (update_product_stock product_id delta w).2 in
  ((load_products true w).1 = Ret false →
     result = Ret (StockFailed FailedToLoad) ∧ w' = w1) ∧
  ((load_products true w).1 = Ret true →
     (products w1 !! key = None →
        result = Ret (StockFailed ProductNotFound) ∧ w' = w1) ∧
     (∀ p, products w1 !! key = Some p →
        (p_stock p + delta < 0 →
           result = Ret (StockFailed (InsufficientStock (p_stock p))) ∧
           w' = w1) ∧
        (0 ≤ p_stock p + delta → ¬ next_file_op_fails w1 →
           result = Ret (StockUpdated (p_stock p) (p_stock p + delta)) ∧
           products w' =
             alter (with_stock (p_stock p + delta)) key (products w1) ∧
           products_file w' = products w') ∧
        (0 ≤ p_stock p + delta → next_file_op_fails w1 →
           result = Ret (StockFailed FailedToSave) ∧
           products w' = products w1 ∧
           products_file w' = products_file w1))).
Proof.
  cbv zeta.
  destruct (update_product_stock product_id delta w) as [result w'] eqn:EU.
  destruct (load_products true w) as [[loaded|e] w1] eqn:EL; simpl.
  2: { destruct (load_products_returns true w) as [l Hl].
       rewrite EL in Hl. discriminate. }
  unfold update_product_stock, try_except in EU.
  rewrite (bind_ret _ _ _ _ _ EL) in EU.
  destruct loaded; simpl in EU; (split; [intros [=]|intros [=]]).
  2: { now inversion EU. }
  unfold bind at 1 in EU. simpl in EU.
  split.
  - intros Hnone. rewrite Hnone in EU. now inversion EU.
  - intros p Hp. rewrite Hp in EU. cbv zeta in EU.
    split; [|split].
    + intros Hneg. rewrite bool_decide_eq_true_2 in EU by lia.
      now inversion EU.
    + intros Hok Hsave. rewrite bool_decide_eq_false_2 in EU by lia.
      unfold bind at 1 in EU. simpl in EU. unfold bind at 1 in EU.
      set (w2 := set_products _ w1) in EU.
      destruct (save_products_cases w2) as [[H1 [H2 H3]] _]; [exact Hsave|].
      destruct (save_products w2) as [r w3]. simpl in *. subst r.
      inversion EU; subst. split; [done|]. split; congruence.
    + intros Hok Hsave. rewrite bool_decide_eq_false_2 in EU by lia.
      unfold bind at 1 in EU. simpl in EU. unfold bind at 1 in EU.
      set (w2 := set_products _ w1) in EU.
      destruct (save_products_cases w2) as [_ [H1 [H2 H3]]]; [exact Hsave|].
      destruct (save_products w2) as [r w3]. simpl in *. subst r.
      inversion EU; subst. simpl. split; [done|].
      rewrite H2, H3. split; [|done]. now apply alter_stock_undo.
Qed.

(** C6 as stated does not hold when the forced reload fails: product 1 is
    in the catalog with stock 265 and 265 - 8 is not negative, yet the call
    returns the failure 'Failed to load products'; nothing is written. *)
Lemma update_product_stock_load_failure :
  let w := set_faults [Some "Expecting value: line 1 column 1 (char 0)"]
             sample_world in
  products w !! str 1
    = Some (mkProduct 1 "Vitamin C Serum" "Garnier" 265 100 200 true) ∧
  0 ≤ 265 + -8 ∧
  update_product_stock 1 (-8) w
    = (Ret (StockFailed FailedToLoad), sample_world).
Proof. vm_compute. repeat split; intros H; discriminate H. Qed.

(** C6, amended.  A call of [update_product_stock] (the spec's
    mutate_stock) whose forced reload reports failure returns the failure
    'Failed to load products' and changes nothing.  Otherwise, on the
    catalog as the reload leaves it: an unknown product gives the failure
    'Product not found'; a change that would make the stock negative gives
    the failure 'Insufficient stock' and changes nothing; any other change
    is written with new stock old_stock + delta and success is reported,
    unless writing products.json raises, in which case the stock in memory
    is put back to old_stock and failure is reported. *)
Theorem update_product_stock_contract (product_id delta : Z) (w : World) :
  let w1 := (load_products true w).2 in
  let key := str product_id in
  let result := (update_product_stock product_id delta w).1 in
  let w' := (update_product_stock product_id delta w).2 in
  ((load_products true w).1 = Ret false →
     result = Ret (StockFailed FailedToLoad) ∧ w' = w1) ∧
  ((load_products true w).1 = Ret true →
     (products w1 !! key = None →
        result = Ret (StockFailed ProductNotFound) ∧ w' = w1) ∧
     (∀ p, products w1 !! key = Some p →
        (p_stock p + delta < 0 →
           result = Ret (StockFailed (InsufficientStock (p_stock p))) ∧
           w' = w1) ∧
        (0 ≤ p_stock p + delta → ¬ next_file_op_fails w1 →
           result = Ret (StockUpdated (p_stock p) (p_stock p + delta)) ∧
           products w' =
             alter (with_stock (p_stock p + delta)) key (products w1) ∧
           products_file w' = products w') ∧
        (0 ≤ p_stock p + delta → next_file_op_fails w1 →
           result = Ret (StockFailed FailedToSave) ∧
           products w' = products w1 ∧
           products_file w' = products_file w1))).
Proof. apply update_product_stock_cases. Qed.

Lemma update_product_stock_contract_witness :
  (update_product_stock 1 (-8) sample_world).1 = Ret (StockUpdated 265 257) ∧
  (update_product_stock 1 (-300) sample_world).1
    = Ret (StockFailed (InsufficientStock 265)) ∧
  (update_product_stock 9 1 sample_world).1
    = Ret (StockFailed ProductNotFound) ∧
  (update_product_stock 1 (-8) (set_faults [None; Some "disk full"] sample_world)).1
    = Ret (StockFailed FailedToSave) ∧
  products
    (update_product_stock 1 (-8)
       (set_faults [None; Some "disk full"] sample_world)).2
    = sample_products.
Proof.
  pose (p := mkProduct 1 "Vitamin C Serum" "Garnier" 265 100 200 true).
  pose (faulty := set_faults [None; Some "disk full"] sample_world).
  destruct (update_product_stock_contract 1 (-8) sample_world) as [_ H1].
  destruct (H1 eq_refl) as [_ H1p].
  destruct (H1p p eq_refl) as (_ & Hok & _).
  destruct Hok as (R1 & _ & _);
    [vm_compute; discriminate | intros (e & rest & [=]) |].
  destruct (update_product_stock_contract 1 (-300) sample_world) as [_ H2].
  destruct (H2 eq_refl) as [_ H2p].
  destruct (H2p p eq_refl) as (Hshort & _ & _).
  destruct Hshort as (R2 & _); [reflexivity|].
  destruct (update_product_stock_contract 9 1 sample_world) as [_ H3].
  destruct (H3 eq_refl) as [Hunknown _].
  destruct Hunknown as (R3 & _); [reflexivity|].
  destruct (update_product_stock_contract 1 (-8) faulty) as [_ H4].
  destruct (H4 eq_refl) as [_ H4p].
  destruct (H4p p eq_refl) as (_ & _ & Hfail).
  destruct Hfail as (R4 & M4 & _);
    [vm_compute; discriminate | exists "disk full", []; reflexivity |].
  repeat split; assumption.
Defined.

(** ** Loyalty tiers *)

Lemma get_loyalty_tier_bands points :
  (points < 100 → get_loyalty_tier points = none) ∧
  (100 ≤ points < 500 → get_loyalty_tier points = bronze) ∧
  (500 ≤ points < 1000 → get_loyalty_tier points = silver) ∧
  (1000 ≤ points < 2000 → get_loyalty_tier points = gold) ∧
  (2000 ≤ points → get_loyalty_tier points = diamond).
Proof.
  unfold get_loyalty_tier.
  repeat split; intros H; repeat case_bool_decide; solve [reflexivity | lia].
Qed.

(** The lower end of the band a tier stands for, as
    [get_loyalty_tier_info] tabulates it, is reached by the points. *)
Lemma get_loyalty_tier_min_points points :
  0 ≤ points → min_points (get_loyalty_tier points) ≤ points.
Proof.
  intros H. unfold get_loyalty_tier. repeat case_bool_decide; simpl; lia.
Qed.

(** C7. The loyalty tier is a function of the points alone, with
    tier(0) = none, tier(100) = bronze, tier(500) = silver,
    tier(1000) = gold, tier(2000) = diamond, the bands 0-99, 100-499,
    500-999, 1000-1999 and 2000 upwards, and it never decreases as the
    points grow. *)
Theorem get_loyalty_tier_monotone_bands :
  (get_loyalty_tier 0 = none ∧ get_loyalty_tier 100 = bronze ∧
   get_loyalty_tier 500 = silver ∧ get_loyalty_tier 1000 = gold ∧
   get_loyalty_tier 2000 = diamond) ∧
  (∀ points,
     (0 ≤ points ≤ 99 → get_loyalty_tier points = none) ∧
     (100 ≤ points ≤ 499 → get_loyalty_tier points = bronze) ∧
     (500 ≤ points ≤ 999 → get_loyalty_tier points = silver) ∧
     (1000 ≤ points ≤ 1999 → get_loyalty_tier points = gold) ∧
     (2000 ≤ points → get_loyalty_tier points = diamond)) ∧
  (∀ p q, p ≤ q →
     (tier_rank (get_loyalty_tier p) ≤ tier_rank (get_loyalty_tier q))%nat).
Proof.
  split; [repeat split; reflexivity|]. split.
  - intros points. destruct (get_loyalty_tier_bands points) as (?&?&?&?&?).
    repeat split; intros; auto with lia.
  - intros p q Hpq. unfold get_loyalty_tier.
    repeat case_bool_decide; simpl; lia.
Qed.

(** ** The admin wallet *)

(** What a call of [update_admin_wallet] that returns the wallet has done:
    [b] is the wallet the file held when the update read it. *)
Lemma update_admin_wallet_returns amount ty w aw' w' :
  update_admin_wallet amount ty w = (Ret (Some aw'), w') →
  let b := admin_wallet_before w in
  admin_wallet_file w' = Some aw' ∧
  aw_total_transactions aw' = aw_total_transactions b + 1 ∧
  aw_last_updated aw' = clock w ∧
  (ty = "revenue" →
     aw_balance aw' = aw_balance b + amount ∧
     aw_total_revenue aw' = aw_total_revenue b + amount) ∧
  (ty = "expense" →
     aw_balance aw' = aw_balance b - amount ∧
     aw_total_revenue aw' = aw_total_revenue b) ∧
  (ty ≠ "revenue" → ty ≠ "expense" →
     aw_balance aw' = aw_balance b ∧
     aw_total_revenue aw' = aw_total_revenue b).
Proof.
  intros H. cbv zeta.
  unfold update_admin_wallet, init_admin_wallet, read_admin_wallet,
    admin_wallet_before, try_except, bind, gets, modify, file_op, ret, raise
    in *.
  destruct (String.eqb_spec ty "revenue") as [->|Hr];
    [|destruct (String.eqb_spec ty "expense") as [->|He]];
    destruct (admin_wallet_file w) as [b|] eqn:Eb; run_env; simplify_eq;
    simpl; repeat split; try done.
Qed.


(** C10. A call of [update_admin_wallet] whose transaction type is neither
    'revenue' nor 'expense' and that returns the wallet leaves balance and
    total_revenue as they were, adds 1 to total_transactions and rewrites
    last_updated with the current time. *)
Theorem update_admin_wallet_other_type amount ty w aw' w' :
  ty ≠ "revenue" → ty ≠ "expense" →
  update_admin_wallet amount ty w = (Ret (Some aw'), w') →
  admin_wallet_file w' = Some aw' ∧
  aw_balance aw' = aw_balance (admin_wallet_before w) ∧
  aw_total_revenue aw' = aw_total_revenue (admin_wallet_before w) ∧
  aw_total_transactions aw' =
    aw_total_transactions (admin_wallet_before w) + 1 ∧
  aw_last_updated aw' = clock w.
Proof.
  intros Hr He Hu.
  destruct (update_admin_wallet_returns _ _ _ _ _ Hu)
    as (Hfile & Htx & Hlu & _ & _ & Hother).
  destruct (Hother Hr He) as [Hb Hrev]. auto.
Qed.

Lemma update_admin_wallet_other_type_witness :
  let w := sample_world_next_day in
  ∃ aw' w', update_admin_wallet 300 "refund" w = (Ret (Some aw'), w') ∧
    aw_balance aw' = 50000 ∧ aw_total_revenue aw' = 0 ∧
    aw_total_transactions aw' = 1 ∧ aw_last_updated aw' = 20251121.
Proof.
  cbv zeta.
  destruct (update_admin_wallet 300 "refund" sample_world_next_day)
    as [[[aw'|]|e] w'] eqn:E; try (vm_compute in E; discriminate).
  exists aw', w'. split; [reflexivity|].
  destruct (update_admin_wallet_other_type 300 "refund" sample_world_next_day aw' w')
    as (_ & Hb & Hr & Ht & Hl); [discriminate|discriminate|exact E|].
  rewrite Hb, Hr, Ht, Hl. vm_compute. repeat split; reflexivity.
Defined.

(** ** Invariants *)

Lemma preserves_ret {A} I (a : A) : preserves I (ret a).
Proof. now intros w. Qed.

Lemma preserves_raise {A} I e : preserves I (@raise A e).
Proof. now intros w. Qed.

Lemma preserves_bind {A B} I (m : M A) (k : A → M B) :
  preserves I m → (∀ a, preserves I (k a)) → preserves I (bind m k).
Proof.
  intros Hm Hk w Hw. unfold bind. specialize (Hm w Hw).
  destruct (m w) as [[a|e] w1]; simpl in *; [|done].
  now apply Hk.
Qed.

Lemma preserves_try {A} I (m : M A) h :
  preserves I m → (∀ e, preserves I (h e)) → preserves I (try_except m h).
Proof.
  intros Hm Hh w Hw. unfold try_except. specialize (Hm w Hw).
  destruct (m w) as [[a|e] w1]; simpl in *; [done|].
  now apply Hh.
Qed.

(** A step that touches neither the dict in memory nor products.json
    preserves the stock invariant. *)
Lemma preserves_stock_of_keeps {A} (m : M A) :
  keeps products m → keeps products_file m → preserves stock_invariant m.
Proof.
  intros Hp Hf w [H1 H2]. unfold stock_invariant. now rewrite Hp, Hf.
Qed.

Lemma load_products_stock force : preserves stock_invariant (load_products force).
Proof.
  intros w [Hm Hf]. unfold stock_invariant.
  destruct (load_products_catalog force w) as [Ef [Ep|[_ Ep]]];
    rewrite Ef, Ep; auto.
Qed.

Lemma stock_nonneg_alter ps key s :
  stock_nonneg ps → 0 ≤ s → stock_nonneg (alter (with_stock s) key ps).
Proof.
  intros Hps Hs k p. destruct (decide (key = k)) as [<-|Hne].
  - rewrite lookup_alter_eq. destruct (ps !! key); simpl; [|done].
    now intros [= <-].
  - rewrite lookup_alter_ne by done. apply Hps.
Qed.

(** What a call of [update_product_stock] has done, read off its result:
    either it reports success and the new, non-negative stock is in memory
    and in the file, or it reports failure and the catalog is as the reload
    left it. *)
Lemma update_product_stock_inv product_id delta w result w' :
  update_product_stock product_id delta w = (result, w') →
  let w1 := (load_products true w).2 in
  (∃ p, result = Ret (StockUpdated (p_stock p) (p_stock p + delta)) ∧
        products w1 !! str product_id = Some p ∧
        0 ≤ p_stock p + delta ∧
        products w' =
          alter (with_stock (p_stock p + delta)) (str product_id) (products w1) ∧
        products_file w' = products w') ∨
  (∃ error, result = Ret (StockFailed error) ∧
            products w' = products w1 ∧ products_file w' = products_file w1).
Proof.
  intros EU. cbv zeta.
  pose proof (update_product_stock_cases product_id delta w) as H.
  cbv zeta in H. rewrite EU in H. simpl in H. destruct H as [Hfail Hload].
  destruct (load_products_returns true w) as [[|] Hl].
  - destruct (Hload Hl) as [Hnone Hsome].
    destruct (products (load_products true w).2 !! str product_id)
      as [p|] eqn:Ep.
    + destruct (Hsome p eq_refl) as (Hneg & Hok & Hsave).
      destruct (Z_lt_le_dec (p_stock p + delta) 0) as [Hlt|Hle].
      * right. destruct (Hneg Hlt) as [-> ->]. eauto.
      * destruct (faults (load_products true w).2) as [|[e|] rest] eqn:Ef.
        -- left. exists p. destruct Hok as (-> & ? & ?); auto.
           intros (? & ? & Hx). rewrite Ef in Hx. discriminate.
        -- right. destruct Hsave as (-> & ? & ?); eauto.
           exists e, rest. done.
        -- left. exists p. destruct Hok as (-> & ? & ?); auto.
           intros (? & ? & Hx). rewrite Ef in Hx. discriminate.
    + right. destruct (Hnone eq_refl) as [-> ->]. eauto.
  - right. destruct (Hfail Hl) as [-> ->]. eauto.
Qed.

Lemma update_product_stock_stock product_id delta :
  preserves stock_invariant (update_product_stock product_id delta).
Proof.
  intros w Hw.
  destruct (update_product_stock product_id delta w) as [result w'] eqn:EU.
  pose proof (load_products_stock true w Hw) as [H1 H2].
  destruct (update_product_stock_inv _ _ _ _ _ EU)
    as [(p & _ & _ & Hge & Hp & Hf)|(error & _ & Hp & Hf)];
    simpl; unfold stock_invariant; rewrite ?Hf, Hp; auto.
  split; apply stock_nonneg_alter; auto.
Qed.

Lemma update_stock_for_items_stock l :
  preserves stock_invariant (update_stock_for_items l).
Proof.
  induction l as [|[product_id qty] l IH]; simpl.
  - apply preserves_ret.
  - apply preserves_bind; [now intros w|intros ps].
    destruct (ps !! str product_id); [|apply preserves_raise].
    apply preserves_bind; [apply update_product_stock_stock|].
    intros [? ?|?]; [apply IH|].
    apply preserves_stock_of_keeps; keeps_auto.
Qed.

Lemma restock_stock_stock l : preserves stock_invariant (restock_stock l).
Proof.
  induction l as [|update l IH]; simpl.
  - apply preserves_ret.
  - apply preserves_bind; [apply update_product_stock_stock|].
    intros [? ?|?]; [apply IH|].
    apply preserves_stock_of_keeps; keeps_auto.
Qed.

(** Split a flow into its steps; the steps that leave the catalog alone
    are closed by computation. *)
Ltac stock_step :=
  match goal with
  | |- preserves _ (bind _ _) => apply preserves_bind; [|intros ?]
  | |- preserves _ (try_except _ _) => apply preserves_try; [|intros ?]
  | |- preserves _ (ret _) => apply preserves_ret
  | |- preserves _ (update_stock_for_items _) =>
      apply update_stock_for_items_stock
  | |- preserves _ (restock_stock _) => apply restock_stock_stock
  | |- preserves _ (load_products _) => apply load_products_stock
  | |- preserves _ ensure_products_reload => apply load_products_stock
  | |- preserves _ (match ?x with _ => _ end) => destruct x
  | |- preserves stock_invariant _ =>
      solve [apply preserves_stock_of_keeps; keeps_auto]
  end.

Lemma purchase_stock customer_id verify_name form :
  preserves stock_invariant (purchase customer_id verify_name form).
Proof.
  unfold purchase, purchase_try. cbv zeta. repeat stock_step.
Qed.

Lemma admin_restock_stock vendor_name form :
  preserves stock_invariant (admin_restock vendor_name form).
Proof.
  unfold admin_restock, restock_try. cbv zeta. repeat stock_step.
Qed.

Lemma run_operation_stock op : preserves stock_invariant (run_operation op).
Proof.
  destruct op; [apply purchase_stock|apply admin_restock_stock].
Qed.

Lemma run_operations_stock ops w :
  stock_invariant w → stock_invariant (run_operations ops w).
Proof.
  revert w. induction ops as [|op ops IH]; intros w Hw; simpl; [done|].
  apply IH. now apply run_operation_stock.
Qed.

(** C1. Starting from a catalog without negative stock, after any
    sequence of purchase and restock requests that each reported success
    no product has a negative stock, in memory or in products.json: the
    two flows change stock through [update_product_stock] only, which
    refuses a change that would make old_stock + delta negative. *)
Theorem stock_never_negative ops w :
  stock_invariant w →
  all_reported_success ops w →
  ∀ key p,
    (products (run_operations ops w) !! key = Some p → 0 ≤ p_stock p) ∧
    (products_file (run_operations ops w) !! key = Some p → 0 ≤ p_stock p).
Proof.
  intros Hw _ key p.
  destruct (run_operations_stock ops w Hw) as [Hm Hf].
  split; [apply Hm|apply Hf].
Qed.

Lemma stock_never_negative_witness :
  let ops := [PurchaseOp 7 "Asha" [(1, 6)]; RestockOp "Acme" [(1, 10); (2, 3)]] in
  stock_invariant sample_world ∧
  all_reported_success ops sample_world ∧
  (p_stock <$> products_file (run_operations ops sample_world) !! "1") = Some 267 ∧
  ∀ p, products_file (run_operations ops sample_world) !! "1" = Some p →
       0 ≤ p_stock p.
Proof.
  cbv zeta.
  assert (Hinv : stock_invariant sample_world).
  { split; intros key p; simpl; unfold sample_products;
      intros H; apply lookup_insert_Some in H as [[_ <-]|[_ H]];
      try (simpl; lia);
      apply lookup_insert_Some in H as [[_ <-]|[_ H]]; try (simpl; lia);
      now rewrite lookup_empty in H. }
  assert (Hok : all_reported_success
            [PurchaseOp 7 "Asha" [(1, 6)]; RestockOp "Acme" [(1, 10); (2, 3)]]
            sample_world).
  { split; [vm_compute; constructor|].
    split; [exists 1840; vm_compute; constructor|exact I]. }
  split; [exact Hinv|]. split; [exact Hok|]. split; [vm_compute; reflexivity|].
  intros p Hp.
  exact (proj2 (stock_never_negative _ _ Hinv Hok "1" p) Hp).
Defined.

(** ** Pricing of a purchase *)

(** The running total of a loop that started from [total]. *)
Lemma sum_of_prices_from total items :
  foldl (λ total item, total + it_price item) total items
  = total + sum_of_prices items.
Proof.
  unfold sum_of_prices. revert total.
  induction items as [|item items IH]; intros total; simpl; [lia|].
  rewrite (IH (total + it_price item)), (IH (0 + it_price item)). lia.
Qed.

Lemma sum_of_prices_cons item items :
  sum_of_prices (item :: items) = it_price item + sum_of_prices items.
Proof.
  unfold sum_of_prices at 1. simpl. rewrite sum_of_prices_from. lia.
Qed.

Lemma sum_of_prices_app l1 l2 :
  sum_of_prices (l1 ++ l2) = sum_of_prices l1 + sum_of_prices l2.
Proof.
  induction l1 as [|x l1 IH]; [reflexivity|].
  rewrite <- app_comm_cons, !sum_of_prices_cons, IH. lia.
Qed.

Lemma catalog_lines_cons ps product_id qty l :
  catalog_lines ps ((product_id, qty) :: l)
  = match ps !! str product_id with
    | Some p => (p, qty) :: catalog_lines ps l
    | None => catalog_lines ps l
    end.
Proof. unfold catalog_lines. simpl. now destruct (ps !! str product_id). Qed.

(** The loop of [check_stock], with its accumulators. *)
Lemma check_stock_acc ps l total items :
  match check_stock ps l total items with
  | inr (total', items') =>
      items' = items ++ (priced_item <$> catalog_lines ps l) ∧
      total' = total + sum_of_prices (priced_item <$> catalog_lines ps l) ∧
      Forall (λ line, required_units line.2 ≤ p_stock line.1)
        (catalog_lines ps l)
  | inl (name, available) =>
      ∃ line, line ∈ catalog_lines ps l ∧
              p_stock line.1 < required_units line.2 ∧
              name = p_name line.1 ∧ available = p_stock line.1
  end.
Proof.
  revert total items.
  induction l as [|[product_id qty] l IH]; intros total items.
  - simpl. rewrite app_nil_r. repeat split; [unfold sum_of_prices; simpl; lia|constructor].
  - rewrite catalog_lines_cons. simpl.
    destruct (ps !! str product_id) as [p|] eqn:Ep; [|apply IH].
    case_bool_decide as Hshort.
    + exists (p, qty). split; [left|]. unfold required_units, free_units.
      simpl. repeat split; lia.
    + specialize (IH (total + p_cost p * 2 * qty)
                    (items ++ [mkItem (p_name p) qty (qty / 3)
                                 (p_cost p * 2 * qty)])).
      destruct (check_stock ps l _ _) as [[name available]|[total' items']].
      * destruct IH as (line & Hin & Hrest). exists line.
        split; [right; exact Hin|exact Hrest].
      * destruct IH as (-> & -> & Hall). rewrite <- app_assoc.
        split; [reflexivity|]. split.
        -- rewrite fmap_cons, sum_of_prices_cons. simpl. unfold line_price. lia.
        -- constructor; [|exact Hall].
           unfold required_units, free_units. simpl. lia.
Qed.

(** A line that falls short makes the check fail, wherever it stands. *)
Lemma check_stock_short ps l total items product_id qty p :
  (product_id, qty) ∈ l →
  ps !! str product_id = Some p →
  qty + qty / 3 > p_stock p →
  ∃ name available, check_stock ps l total items = inl (name, available).
Proof.
  intros Hin Hp Hshort.
  pose proof (check_stock_acc ps l total items) as H.
  destruct (check_stock ps l total items) as [[name available]|[t its]];
    [eauto|].
  destruct H as (_ & _ & Hall). exfalso.
  rewrite Forall_forall in Hall.
  specialize (Hall (p, qty)). unfold required_units, free_units in Hall.
  simpl in Hall. cut (qty + qty / 3 ≤ p_stock p); [lia|].
  apply Hall. unfold catalog_lines. apply list_elem_of_omap.
  exists (product_id, qty). split; [done|]. simpl. now rewrite Hp.
Qed.

(** A line whose product is not in the catalog is passed over. *)
Lemma check_stock_unknown ps l1 l2 product_id qty total items :
  ps !! str product_id = None →
  check_stock ps (l1 ++ (product_id, qty) :: l2) total items
  = check_stock ps (l1 ++ l2) total items.
Proof.
  intros Hnone. revert total items.
  induction l1 as [|[pid q] l1 IH]; intros total items; simpl.
  - now rewrite Hnone.
  - destruct (ps !! str pid); [|apply IH].
    case_bool_decide; [done|apply IH].
Qed.


(** ** The purchase route, step by step *)

Lemma get_customer_wallet_returns customer_id w :
  ∃ wallet, (get_customer_wallet customer_id w).1 = Ret wallet.
Proof.
  unfold get_customer_wallet, try_except, bind, file_op, gets, ret.
  destruct (faults w) as [|[e|] rest]; simpl; eauto.
Qed.

Lemma get_wallet_balance_returns customer_id w :
  ∃ balance, (get_wallet_balance customer_id w).1 = Ret balance.
Proof.
  unfold get_wallet_balance, bind.
  destruct (get_customer_wallet_returns customer_id w) as [wallet H].
  destruct (get_customer_wallet customer_id w) as [r w1]. simpl in H.
  subst r. destruct wallet; simpl; eauto.
Qed.

Lemma purchase_prelude_returns customer_id w :
  ∃ balance, (purchase_prelude customer_id w).1 = Ret balance.
Proof.
  unfold purchase_prelude, bind.
  destruct (get_wallet_balance_returns customer_id w) as [b Hb].
  destruct (get_wallet_balance customer_id w) as [r w1]. simpl in Hb. subst r.
  destruct (get_customer_wallet_returns customer_id w1) as [wl Hw].
  destruct (get_customer_wallet customer_id w1) as [r w2]. simpl in Hw. subst r.
  destruct (load_products_returns true w2) as [l Hl].
  unfold ensure_products_reload.
  destruct (load_products true w2) as [r w3]. simpl in Hl. subst r.
  simpl. eauto.
Qed.

(** [purchase] is its prelude followed by the [try] block and, when that
    falls through, the rendering of the page. *)
Lemma purchase_unfold customer_id verify_name form w :
  collect_items form ≠ [] →
  purchase customer_id verify_name form w
  = bind (purchase_prelude customer_id)
      (λ wallet_balance,
         let* returned :=
           try_except
             (purchase_try customer_id verify_name (collect_items form)
                wallet_balance)
             (λ e, flash (ErrorDuringPurchase e) >> ret None) in
         match returned with
         | Some response => ret response
         | None => ensure_products_reload >> ret (Render "purchase.html")
         end) w.
Proof.
  intros Hne. unfold purchase, purchase_prelude, bind.
  destruct (get_wallet_balance customer_id w) as [[b|e] w1]; [|done].
  destruct (get_customer_wallet customer_id w1) as [[wl|e] w2]; [|done].
  destruct (collect_items form) as [|line items]; [done|].
  destruct (ensure_products_reload w2) as [[l|e] w3]; [|done].
  reflexivity.
Qed.

Lemma purchase_prelude_keeps :
  ∀ customer_id,
    keeps products_file (purchase_prelude customer_id) ∧
    keeps customers_file (purchase_prelude customer_id) ∧
    keeps wallets_file (purchase_prelude customer_id) ∧
    keeps customer_tx_file (purchase_prelude customer_id) ∧
    keeps admin_wallet_file (purchase_prelude customer_id) ∧
    keeps sales_file (purchase_prelude customer_id) ∧
    keeps transactions_file (purchase_prelude customer_id) ∧
    keeps purchase_invoices (purchase_prelude customer_id) ∧
    keeps flashed (purchase_prelude customer_id).
Proof.
  intros customer_id. unfold purchase_prelude. repeat split; keeps_auto.
Qed.

Lemma new_flashes_app w w' fs :
  flashed w' = flashed w ++ fs → new_flashes w w' = fs.
Proof. unfold new_flashes. intros ->. now rewrite drop_app_length. Qed.

Lemma purchase_try_short customer_id verify_name items balance w name available :
  check_stock (products w) items 0 [] = inl (name, available) →
  purchase_try customer_id verify_name items balance w
  = (Ret (Some (Redirect "purchase")),
     set_flashed (flashed w ++ [NotEnoughStock name available]) w).
Proof.
  intros Hc. unfold purchase_try, bind. simpl. now rewrite Hc.
Qed.

Lemma purchase_short customer_id verify_name form w balance w1 name available :
  collect_items form ≠ [] →
  purchase_prelude customer_id w = (Ret balance, w1) →
  check_stock (products w1) (collect_items form) 0 [] = inl (name, available) →
  purchase customer_id verify_name form w
  = (Ret (Redirect "purchase"),
     set_flashed (flashed w1 ++ [NotEnoughStock name available]) w1).
Proof.
  intros Hne Hpre Hc. rewrite (purchase_unfold _ _ _ _ Hne).
  rewrite (bind_ret _ _ _ _ _ Hpre).
  rewrite (bind_ret _ _ _ _ _
             (try_ret _ _ _ _ _
                (purchase_try_short customer_id verify_name _ balance _ _ _ Hc))).
  reflexivity.
Qed.

(** C4. When some line of a purchase needs more units (qty + qty // 3)
    than the stock its product has when the checks start, the whole
    purchase is rejected with the 'Not enough stock' message and nothing
    is written: products.json, the wallets, the ledgers and the receipts
    are as before, and the catalog in memory is the one the checks read. *)
Theorem purchase_rejects_short_line customer_id verify_name form w
    product_id qty p :
  let w1 := (purchase_prelude customer_id w).2 in
  let w' := (purchase customer_id verify_name form w).2 in
  (product_id, qty) ∈ collect_items form →
  products w1 !! str product_id = Some p →
  qty + qty / 3 > p_stock p →
  (purchase customer_id verify_name form w).1 = Ret (Redirect "purchase") ∧
  (∃ name available, new_flashes w w' = [NotEnoughStock name available]) ∧
  products w' = products w1 ∧
  products_file w' = products_file w ∧
  wallets_file w' = wallets_file w ∧
  customers_file w' = customers_file w ∧
  customer_tx_file w' = customer_tx_file w ∧
  admin_wallet_file w' = admin_wallet_file w ∧
  sales_file w' = sales_file w ∧
  transactions_file w' = transactions_file w ∧
  purchase_invoices w' = purchase_invoices w.
Proof.
  cbv zeta. intros Hin Hp Hshort.
  assert (Hne : collect_items form ≠ []).
  { intros E. rewrite E in Hin. now apply not_elem_of_nil in Hin. }
  destruct (purchase_prelude_keeps customer_id)
    as (K1 & K2 & K3 & K4 & K5 & K6 & K7 & K8 & K9).
  specialize (K1 w). specialize (K2 w). specialize (K3 w). specialize (K4 w).
  specialize (K5 w). specialize (K6 w). specialize (K7 w). specialize (K8 w).
  specialize (K9 w).
  destruct (purchase_prelude_returns customer_id w) as [b Hb].
  destruct (purchase_prelude customer_id w) as [r w1] eqn:Hpre.
  simpl in *. subst r.
  destruct (check_stock_short (products w1) (collect_items form) 0 []
              product_id qty p Hin Hp Hshort) as (name & available & Hc).
  rewrite (purchase_short _ verify_name _ _ _ _ _ _ Hne Hpre Hc). simpl.
  repeat split; try assumption.
  exists name, available. apply new_flashes_app. simpl. now rewrite K9.
Qed.

Lemma purchase_rejects_short_line_witness :
  (purchase 7 "Asha" [(2, 3); (1, 240)] sample_world).1
    = Ret (Redirect "purchase") ∧
  products_file (purchase 7 "Asha" [(2, 3); (1, 240)] sample_world).2
    = sample_products ∧
  products (purchase 7 "Asha" [(2, 3); (1, 240)] sample_world).2
    = sample_products.
Proof.
  pose (p := mkProduct 1 "Vitamin C Serum" "Garnier" 265 100 200 true).
  destruct (purchase_rejects_short_line 7 "Asha" [(2, 3); (1, 240)]
              sample_world 1 240 p) as (R & _ & Hm & Hf & _).
  - right. left.
  - reflexivity.
  - vm_compute. reflexivity.
  - split; [exact R|]. split; [exact Hf|]. rewrite Hm. reflexivity.
Defined.

(** ** Which messages a flow can flash *)

Lemma flashes_only_keeps {A} P (m : M A) : keeps flashed m → flashes_only P m.
Proof. intros K w. exists []. rewrite K, app_nil_r. auto. Qed.

Lemma flashes_only_flash P f : P f → flashes_only P (flash f).
Proof. intros Hf w. exists [f]. simpl. auto. Qed.

Lemma flashes_only_bind {A B} P (m : M A) (k : A → M B) :
  flashes_only P m → (∀ a, flashes_only P (k a)) → flashes_only P (bind m k).
Proof.
  intros Hm Hk w. unfold bind. destruct (Hm w) as (f1 & E1 & P1).
  destruct (m w) as [[a|e] w1]; simpl in *; [|eauto].
  destruct (Hk a w1) as (f2 & E2 & P2). exists (f1 ++ f2).
  rewrite E2, E1, app_assoc. split; [done|]. now apply Forall_app.
Qed.

Lemma flashes_only_try {A} P (m : M A) h :
  flashes_only P m → (∀ e, flashes_only P (h e)) →
  flashes_only P (try_except m h).
Proof.
  intros Hm Hh w. unfold try_except. destruct (Hm w) as (f1 & E1 & P1).
  destruct (m w) as [[a|e] w1]; simpl in *; [eauto|].
  destruct (Hh e w1) as (f2 & E2 & P2). exists (f1 ++ f2).
  rewrite E2, E1, app_assoc. split; [done|]. now apply Forall_app.
Qed.

Lemma flashes_only_update_stock_loop P l :
  (∀ name error, P (ErrorUpdatingStock name error)) →
  flashes_only P (update_stock_for_items l).
Proof.
  intros HP. induction l as [|[product_id qty] l IH]; simpl.
  - apply flashes_only_keeps, keeps_ret.
  - apply flashes_only_bind; [apply flashes_only_keeps, keeps_gets|intros ps].
    destruct (ps !! str product_id);
      [|apply flashes_only_keeps, keeps_raise].
    apply flashes_only_bind; [apply flashes_only_keeps; keeps_auto|].
    intros [? ?|?]; [apply IH|].
    apply flashes_only_bind; [now apply flashes_only_flash|].
    intros _. apply flashes_only_keeps, keeps_ret.
Qed.

Lemma flashes_only_restock_stock P l :
  (∀ name error, P (ErrorRestocking name error)) →
  flashes_only P (restock_stock l).
Proof.
  intros HP. induction l as [|update l IH]; simpl.
  - apply flashes_only_keeps, keeps_ret.
  - apply flashes_only_bind; [apply flashes_only_keeps; keeps_auto|].
    intros [? ?|?]; [apply IH|].
    apply flashes_only_bind; [now apply flashes_only_flash|].
    intros _. apply flashes_only_keeps, keeps_ret.
Qed.

(** Split a flow into its steps: a [flash] is checked against [P], the
    steps that do not flash are closed by computation. *)
Ltac flashes_step :=
  match goal with
  | |- flashes_only _ (bind _ _) => apply flashes_only_bind; [|intros ?]
  | |- flashes_only _ (try_except _ _) => apply flashes_only_try; [|intros ?]
  | |- flashes_only _ (flash _) => apply flashes_only_flash; try (hnf; done)
  | |- flashes_only _ (update_stock_for_items _) =>
      apply flashes_only_update_stock_loop; try (hnf; done)
  | |- flashes_only _ (restock_stock _) =>
      apply flashes_only_restock_stock; try (hnf; done)
  | |- flashes_only _ (match ?x with _ => _ end) => destruct x
  | |- flashes_only _ _ => solve [apply flashes_only_keeps; keeps_auto]
  end.

Ltac flashes_auto := cbv zeta; repeat (flashes_step; cbv zeta).

(** ** The deduction loop of a purchase *)

Lemma deduct_line_alter (ps : gmap string Product) product_id qty p :
  ps !! str product_id = Some p →
  alter (with_stock (p_stock p + - (qty + qty / 3))) (str product_id) ps
  = deduct_line ps (product_id, qty).
Proof.
  intros Hp. unfold deduct_line, required_units, free_units. simpl.
  apply map_eq. intros k. destruct (decide (str product_id = k)) as [<-|Hne].
  - rewrite !lookup_alter_eq, Hp. reflexivity.
  - now rewrite !lookup_alter_ne.
Qed.

(** When the loop runs to its end, nothing was flashed and, if memory
    mirrored the file before, every line's required units were taken
    from the stock, in memory and in products.json. *)
Lemma update_stock_for_items_done l w w' :
  update_stock_for_items l w = (Ret true, w') →
  flashed w' = flashed w ∧
  (synced w → synced w' ∧ products w' = deduct_lines (products w) l).
Proof.
  revert w. induction l as [|[product_id qty] l IH]; intros w E; simpl in E.
  - inversion E; subst. auto.
  - unfold bind at 1 in E. simpl in E.
    destruct (products w !! str product_id) as [p0|] eqn:Ep0; [|discriminate].
    unfold bind at 1 in E.
    destruct (update_product_stock product_id (- (qty + qty / 3)) w)
      as [r w1] eqn:EU.
    assert (Kf : flashed w1 = flashed w).
    { change w1 with (r, w1).2. rewrite <- EU.
      generalize w. change (keeps flashed
        (update_product_stock product_id (- (qty + qty / 3)))). keeps_auto. }
    destruct (update_product_stock_inv _ _ _ _ _ EU)
      as [(p & -> & Hp & Hge & Hm & Hf)|(error & -> & _)].
    + destruct (IH _ E) as [IHf IHs]. split; [congruence|].
      intros Hs. destruct (load_products_synced true w Hs) as [L1 L2].
      rewrite L1 in Hp, Hm.
      assert (Hs1 : synced w1) by exact Hf.
      destruct (IHs Hs1) as [Hs' Hp']. split; [done|].
      rewrite Hp', Hm. simpl. now rewrite (deduct_line_alter _ _ _ _ Hp).
    + unfold bind in E. simpl in E. discriminate.
Qed.

(** From the run [E : m w = (r, w1)], the fact that [m] kept [view]. *)
Ltac kept_as view E H :=
  match type of E with
  | ?m ?w = (_, ?w1) =>
      assert (H : view w1 = view w) by
        (let K := fresh in
         assert (K : keeps view m) by keeps_auto;
         specialize (K w); now rewrite E in K)
  end.

Tactic Notation "kept" constr(view) "in" hyp(E) "as" ident(H) :=
  kept_as view E H.

(** The files a purchase can settle in, kept by a run. *)
Ltac kept_files E H1 H2 H3 H4 H5 H6 :=
  kept wallets_file in E as H1; kept customers_file in E as H2;
  kept customer_tx_file in E as H3; kept admin_wallet_file in E as H4;
  kept sales_file in E as H5; kept transactions_file in E as H6.

Lemma save_purchase_invoice_inv name items total timestamp w r w' :
  save_purchase_invoice name items total timestamp w = (r, w') →
  (∃ invoice, r = Ret (Some invoice)) ∨
  (r = Ret None ∧ purchase_invoices w' = purchase_invoices w).
Proof.
  unfold save_purchase_invoice, try_except, bind, file_op, modify, ret.
  destruct (faults w) as [|[e|] rest]; simpl; intros H; simplify_eq; eauto.
Qed.

Lemma Forall_not_elem_of {A} (x : A) (l : list A) :
  Forall (λ y, y ≠ x) l → x ∉ l.
Proof. rewrite Forall_forall. intros H Hin. now apply (H x Hin). Qed.

(** The [try] block of [purchase]: either it never flashes 'Error
    generating invoice!', or it ends on that message after the deduction
    loop ran to its end and nothing else was written. *)
Lemma purchase_try_invoice_error customer_id verify_name items balance w r w' :
  purchase_try customer_id verify_name items balance w = (r, w') →
  (∃ fs, flashed w' = flashed w ++ fs ∧ ErrorGeneratingInvoice ∉ fs) ∨
  (r = Ret None ∧
   flashed w' = flashed w ++ [ErrorGeneratingInvoice] ∧
   wallets_file w' = wallets_file w ∧
   customers_file w' = customers_file w ∧
   customer_tx_file w' = customer_tx_file w ∧
   admin_wallet_file w' = admin_wallet_file w ∧
   sales_file w' = sales_file w ∧
   transactions_file w' = transactions_file w ∧
   purchase_invoices w' = purchase_invoices w ∧
   (synced w → synced w' ∧ products w' = deduct_lines (products w) items)).
Proof.
  intros E. unfold purchase_try in E. unfold bind at 1 in E. simpl in E.
  destruct (check_stock (products w) items 0 []) as [[name avail]|[total its]].
  { left. inversion E; subst. simpl. eexists. split; [done|].
    apply Forall_not_elem_of. repeat constructor. done. }
  case_bool_decide.
  { left. inversion E; subst. simpl. eexists. split; [done|].
    apply Forall_not_elem_of. repeat constructor. done. }
  unfold bind at 1 in E.
  destruct (update_stock_for_items items w) as [[[|]|e] w1] eqn:EL;
    simpl in E.
  - destruct (update_stock_for_items_done _ _ _ EL) as [F1 S1].
    kept_files EL A1 A2 A3 A4 A5 A6. kept purchase_invoices in EL as A7.
    unfold bind at 1 in E. simpl in E. unfold bind at 1 in E.
    destruct (save_purchase_invoice verify_name its total (clock w1) w1)
      as [r2 w2] eqn:ES.
    kept_files ES B1 B2 B3 B4 B5 B6. kept flashed in ES as B7.
    kept products in ES as B8. kept products_file in ES as B9.
    destruct (save_purchase_invoice_inv _ _ _ _ _ _ _ ES)
      as [[invoice ->]|[-> KI]].
    + left.
      match type of E with
      | ?m w2 = _ =>
          assert (Q : flashes_only (λ f, f ≠ ErrorGeneratingInvoice) m)
            by flashes_auto
      end.
      destruct (Q w2) as (fs & Efs & Pfs). rewrite E in Efs. simpl in Efs.
      exists fs. split; [congruence|]. now apply Forall_not_elem_of.
    + right. unfold bind, flash, modify, ret in E. simpl in E.
      inversion E; subst. simpl.
      repeat split; try congruence.
      * unfold synced. simpl. rewrite B9, B8. now apply S1.
      * rewrite B8. now apply S1.
  - left. inversion E; subst.
    destruct (flashes_only_update_stock_loop
                (λ f, f ≠ ErrorGeneratingInvoice) items
                ltac:(done) w) as (fs & Efs & Pfs).
    rewrite EL in Efs. exists fs. split; [done|].
    now apply Forall_not_elem_of.
  - left. inversion E; subst.
    destruct (flashes_only_update_stock_loop
                (λ f, f ≠ ErrorGeneratingInvoice) items
                ltac:(done) w) as (fs & Efs & Pfs).
    rewrite EL in Efs. exists fs. split; [done|].
    now apply Forall_not_elem_of.
Qed.

Lemma purchase_prelude_synced customer_id w :
  synced w → products (purchase_prelude customer_id w).2 = products w.
Proof.
  intros Hs. unfold purchase_prelude, bind.
  destruct (get_wallet_balance customer_id w) as [[b|e] w1] eqn:E1.
  2: { kept products in E1 as K. exact K. }
  kept products in E1 as K1. kept products_file in E1 as F1.
  destruct (get_customer_wallet customer_id w1) as [[wl|e] w2] eqn:E2.
  2: { kept products in E2 as K. simpl. congruence. }
  kept products in E2 as K2. kept products_file in E2 as F2.
  assert (Hs2 : synced w2) by (unfold synced in *; congruence).
  destruct (load_products_synced true w2 Hs2) as [L1 L2].
  unfold ensure_products_reload.
  destruct (load_products true w2) as [[l|e] w3]; simpl in *; congruence.
Qed.

Lemma purchase_no_items customer_id verify_name form :
  collect_items form = [] →
  flashes_only (λ f, f ≠ ErrorGeneratingInvoice)
    (purchase customer_id verify_name form).
Proof.
  intros H. unfold purchase. rewrite H. flashes_auto.
Qed.

(** C9. A purchase that ends on 'Error generating invoice!' (the receipt
    could not be written) has, by then, taken the required units of every
    line from the stock, in memory and in products.json, and has done
    nothing else: the customer's wallet is not debited, no entry is added
    to the customer ledger, the sales log or the global transaction log,
    the admin wallet is not credited and the customer record is
    untouched. *)
Theorem purchase_invoice_failure customer_id verify_name form w :
  let w' := (purchase customer_id verify_name form w).2 in
  synced w →
  ErrorGeneratingInvoice ∈ new_flashes w w' →
  products_file w' = deduct_lines (products_file w) (collect_items form) ∧
  products w' = products_file w' ∧
  wallets_file w' = wallets_file w ∧
  customer_tx_file w' = customer_tx_file w ∧
  sales_file w' = sales_file w ∧
  transactions_file w' = transactions_file w ∧
  admin_wallet_file w' = admin_wallet_file w ∧
  customers_file w' = customers_file w ∧
  purchase_invoices w' = purchase_invoices w.
Proof.
  cbv zeta. intros Hs Hflash.
  destruct (decide (collect_items form = [])) as [Hnil|Hne].
  { exfalso.
    destruct (purchase_no_items customer_id verify_name form Hnil w)
      as (fs & Efs & Pfs).
    rewrite (new_flashes_app _ _ _ Efs) in Hflash.
    now apply (Forall_not_elem_of _ _ Pfs). }
  destruct (purchase customer_id verify_name form w) as [rr w'] eqn:EQ.
  simpl in *. rewrite (purchase_unfold _ _ _ _ Hne) in EQ.
  destruct (purchase_prelude_keeps customer_id)
    as (K1 & K2 & K3 & K4 & K5 & K6 & K7 & K8 & K9).
  specialize (K1 w). specialize (K2 w). specialize (K3 w). specialize (K4 w).
  specialize (K5 w). specialize (K6 w). specialize (K7 w). specialize (K8 w).
  specialize (K9 w).
  pose proof (purchase_prelude_synced customer_id w Hs) as KP.
  destruct (purchase_prelude_returns customer_id w) as [b Hb].
  destruct (purchase_prelude customer_id w) as [r w1] eqn:Hpre.
  simpl in *. subst r.
  assert (Hs1 : synced w1) by (unfold synced in *; congruence).
  rewrite (bind_ret _ _ _ _ _ Hpre) in EQ.
  unfold bind at 1, try_except in EQ.
  destruct (purchase_try customer_id verify_name (collect_items form) b w1)
    as [r wt] eqn:ET.
  destruct (purchase_try_invoice_error _ _ _ _ _ _ _ ET)
    as [(fs & Efs & Hfs)|(-> & F & A1 & A2 & A3 & A4 & A5 & A6 & A7 & S)].
  - exfalso. rewrite K9 in Efs.
    destruct r as [[resp|]|e]; simpl in EQ.
    + inversion EQ; subst.
      rewrite (new_flashes_app _ _ _ Efs) in Hflash. done.
    + unfold bind in EQ.
      destruct (ensure_products_reload wt) as [[l|e] w3] eqn:EL;
        kept flashed in EL as KL; inversion EQ; subst;
        rewrite Efs in KL; rewrite (new_flashes_app _ _ _ KL) in Hflash; done.
    + unfold flash, modify, bind, ret in EQ.
      destruct (ensure_products_reload
                  (set_flashed (flashed wt ++ [ErrorDuringPurchase e]) wt))
        as [[l|e'] w3] eqn:EL;
        kept flashed in EL as KL; inversion EQ; subst;
        simpl in KL; rewrite Efs, <- app_assoc in KL;
        rewrite (new_flashes_app _ _ _ KL) in Hflash;
        apply elem_of_app in Hflash as [Hin|Hin]; try done;
        apply list_elem_of_singleton in Hin; discriminate.
  - destruct (S Hs1) as [St Pt]. simpl in EQ. unfold bind in EQ.
    destruct (load_products_synced true wt St) as [L1 L2].
    unfold ensure_products_reload in EQ.
    destruct (load_products true wt) as [[l|e] w3] eqn:EL;
      kept_files EL B1 B2 B3 B4 B5 B6; kept purchase_invoices in EL as B7;
      inversion EQ; subst; simpl in *;
      unfold synced in *; repeat split; congruence.
Qed.

Lemma purchase_invoice_failure_witness :
  let w := set_faults [None; None; None; None; None; Some "No space left on device"]
             sample_world in
  let w' := (purchase 7 "Asha" [(1, 6)] w).2 in
  synced w ∧
  ErrorGeneratingInvoice ∈ new_flashes w w' ∧
  (p_stock <$> products_file w' !! "1") = Some 257 ∧
  (wl_balance <$> wallets_file w' !! "7") = Some 5000 ∧
  customer_tx_file w' = ∅.
Proof.
  cbv zeta.
  pose (w := set_faults
               [None; None; None; None; None; Some "No space left on device"]
               sample_world).
  assert (Hs : synced w) by reflexivity.
  assert (Hf : ErrorGeneratingInvoice
                 ∈ new_flashes w (purchase 7 "Asha" [(1, 6)] w).2)
    by (vm_compute; constructor).
  destruct (purchase_invoice_failure 7 "Asha" [(1, 6)] w Hs Hf)
    as (Hfile & _ & Hwallet & Htx & _).
  fold w. rewrite Hfile, Hwallet, Htx.
  repeat split; try assumption; vm_compute; reflexivity.
Defined.

(** ** The restock route *)

(** The running total of a loop that started from [total_cost]. *)
Lemma restock_total_from ps total_cost l :
  foldl (λ total_cost line,
           match ps !! str line.1 with
           | Some p => total_cost + line.2 * p_cost p
           | None => total_cost
           end) total_cost l
  = total_cost + restock_total ps l.
Proof.
  unfold restock_total. revert total_cost.
  induction l as [|[product_id amount] l IH]; intros total_cost; simpl; [lia|].
  destruct (ps !! str product_id) as [p|]; [|apply IH].
  rewrite (IH (total_cost + amount * p_cost p)), (IH (0 + amount * p_cost p)).
  lia.
Qed.

Lemma restock_total_known ps product_id amount l p :
  ps !! str product_id = Some p →
  restock_total ps ((product_id, amount) :: l)
  = amount * p_cost p + restock_total ps l.
Proof.
  intros Hp. unfold restock_total at 1. simpl. rewrite Hp.
  rewrite restock_total_from. lia.
Qed.

(** The loop of [restock_costs], with its accumulators. *)
Lemma restock_costs_acc ps l total updates total' updates' :
  restock_costs ps l total updates = inr (total', updates') →
  total' = total + restock_total ps l ∧
  Forall (λ line, is_Some (ps !! str line.1)) l.
Proof.
  revert total updates.
  induction l as [|[product_id amount] l IH]; intros total updates E;
    simpl in E.
  - inversion E; subst. unfold restock_total. simpl. split; [lia|constructor].
  - destruct (ps !! str product_id) as [p|] eqn:Ep; [|discriminate].
    destruct (IH _ _ E) as [-> Hall].
    rewrite (restock_total_known _ _ _ _ _ Ep).
    split; [lia|]. constructor; [|exact Hall]. simpl. rewrite Ep. eauto.
Qed.

Lemma restock_stock_done l w w' :
  restock_stock l w = (Ret true, w') → flashed w' = flashed w.
Proof.
  revert w. induction l as [|update l IH]; intros w E; simpl in E.
  - now inversion E.
  - unfold bind at 1 in E.
    destruct (update_product_stock (su_product_id update) (su_amount update) w)
      as [[[old new|error]|e] w1] eqn:EU; [| |discriminate].
    + kept flashed in EU as K. rewrite <- K. now apply IH.
    + unfold bind, flash, modify, ret in E. simpl in E. discriminate.
Qed.

Lemma get_admin_wallet_inv w r w1 :
  get_admin_wallet w = (r, w1) →
  (∃ e, r = Raise e) ∨
  (∃ admin_wallet, r = Ret admin_wallet ∧
     admin_wallet_file w1 = Some (admin_wallet_before w)).
Proof.
  unfold get_admin_wallet, init_admin_wallet, read_admin_wallet,
    admin_wallet_before, try_except, bind, gets, modify, file_op, ret, raise.
  intros H.
  destruct (admin_wallet_file w) as [b|] eqn:Eb; run_env; simplify_eq;
    simpl; rewrite ?Eb; eauto.
Qed.


(** The [try] block of [admin_restock]: either it never flashes the success
    message, or it flashed it once, right after the admin wallet was
    debited by the cost of the batch. *)
Lemma restock_try_completed vendor_name items admin_wallet w r w' :
  restock_try vendor_name items admin_wallet w = (r, w') →
  (∃ fs, flashed w' = flashed w ++ fs ∧ Forall not_restock_completed fs) ∨
  (∃ aw',
     let total_cost := restock_total (products w) items in
     Forall (λ line, is_Some (products w !! str line.1)) items ∧
     flashed w' = flashed w ++ [RestockCompleted total_cost] ∧
     admin_wallet_file w' = Some aw' ∧
     aw_balance aw' = aw_balance (admin_wallet_before w) - total_cost ∧
     aw_total_transactions aw' =
       aw_total_transactions (admin_wallet_before w) + 1 ∧
     aw_total_revenue aw' = aw_total_revenue (admin_wallet_before w)).
Proof.
  intros E. unfold restock_try in E. unfold bind at 1 in E. simpl in E.
  destruct (restock_costs (products w) items 0 [])
    as [product_id|[total updates]] eqn:EC.
  { left. inversion E; subst. simpl. eexists. split; [done|].
    repeat constructor. intros t. discriminate. }
  case_bool_decide.
  { left. inversion E; subst. simpl. eexists. split; [done|].
    repeat constructor. intros t. discriminate. }
  destruct (restock_costs_acc _ _ _ _ _ _ EC) as [Htotal Hknown].
  rewrite Z.add_0_l in Htotal. subst total.
  assert (QL : flashes_only not_restock_completed (restock_stock updates))
    by flashes_auto.
  unfold bind at 1 in E.
  destruct (restock_stock updates w) as [[[|]|e] w1] eqn:EL; simpl in E.
  - pose proof (restock_stock_done _ _ _ EL) as F1.
    kept admin_wallet_file in EL as A1. kept clock in EL as C1.
    unfold bind at 1 in E.
    destruct (deduct_admin_balance (restock_total (products w) items) w1)
      as [r2 w2] eqn:ED.
    kept flashed in ED as F2.
    destruct r2 as [[aw'|]|e].
    + right. exists aw'. cbv zeta. split; [exact Hknown|].
      unfold deduct_admin_balance in ED.
      destruct (update_admin_wallet_returns _ _ _ _ _ ED)
        as (Hfile & Htx & _ & _ & Hexp & _).
      destruct (Hexp eq_refl) as [Hbal Hrev].
      assert (Hb : admin_wallet_before w1 = admin_wallet_before w)
        by (unfold admin_wallet_before; now rewrite A1, C1).
      rewrite Hb in *.
      unfold bind at 1, flash, modify in E. simpl in E.
      unfold bind at 1 in E.
      match type of E with
      | (let (_, _) := ?m ?w3 in _) = _ =>
          destruct (m w3) as [r4 w4] eqn:EI
      end.
      kept flashed in EI as F4. kept admin_wallet_file in EI as A4.
      simpl in F4, A4.
      assert (flashed w' = flashed w4 ∧ admin_wallet_file w' = admin_wallet_file w4)
        as [F5 A5].
      { destruct r4 as [[]|e]; [|now inversion E].
        unfold bind at 1 in E.
        destruct (load_products true w4) as [r5 w5] eqn:E5.
        kept flashed in E5 as F5. kept admin_wallet_file in E5 as A5.
        destruct r5; inversion E; subst; auto. }
      repeat split; congruence.
    + left.
      match type of E with
      | ?m w2 = _ =>
          assert (Q : flashes_only not_restock_completed m) by flashes_auto
      end.
      destruct (Q w2) as (fs & Efs & Pfs). rewrite E in Efs. simpl in Efs.
      exists fs. split; [congruence|done].
    + left. inversion E; subst. exists []. rewrite app_nil_r.
      split; [congruence|constructor].
  - left. inversion E; subst. destruct (QL w) as (fs & Efs & Pfs).
    rewrite EL in Efs. eauto.
  - left. inversion E; subst. destruct (QL w) as (fs & Efs & Pfs).
    rewrite EL in Efs. eauto.
Qed.

(** How [admin_restock] ends once its [try] block is left in world [wt]
    with outcome [r]: the admin wallet is not touched again, and the only
    message that can follow is 'Error during restocking'. *)
Lemma admin_restock_finish (r : Outcome (option Response)) wt rr w' :
  (let (o, w2) :=
     match r with
     | Ret a => (Ret a, wt)
     | Raise e => (flash (ErrorDuringRestocking e) >> ret None) wt
     end in
   match o with
   | Ret returned =>
       match returned with
       | Some response => ret response
       | None => load_products false >> ret (Render "admin_restock.html")
       end w2
   | Raise e => (Raise e, w2)
   end) = (rr, w') →
  admin_wallet_file w' = admin_wallet_file wt ∧
  ∃ fs, flashed w' = flashed wt ++ fs ∧ Forall not_restock_completed fs.
Proof.
  intros E. destruct r as [[resp|]|e]; simpl in E.
  - inversion E; subst. split; [done|]. exists []. now rewrite app_nil_r.
  - unfold bind in E.
    destruct (load_products false wt) as [r1 w1] eqn:EL.
    kept admin_wallet_file in EL as A. kept flashed in EL as F.
    assert (w' = w1) as -> by (destruct r1; now inversion E).
    split; [done|]. exists []. now rewrite app_nil_r.
  - unfold bind, flash, modify, ret in E. simpl in E.
    destruct (load_products false
                (set_flashed (flashed wt ++ [ErrorDuringRestocking e]) wt))
      as [r1 w1] eqn:EL.
    kept admin_wallet_file in EL as A. kept flashed in EL as F.
    simpl in A, F.
    assert (w' = w1) as -> by (destruct r1; now inversion E).
    split; [done|]. exists [ErrorDuringRestocking e]. split; [done|].
    repeat constructor. intros t. discriminate.
Qed.

(** C5 as stated does not hold of costs with a fraction.  A product that
    costs 0.1 (the float nearest to it) is restocked with 3 units from an
    admin wallet that holds 50000.0.  The batch is not refused; the total
    the route adds up is 0.30000000000000004 and the subtraction is rounded
    in turn, so that the balance goes down by an amount that is not
    3 x cost. *)
Lemma restock_debit_is_rounded :
  let cost := binary64.div (binary64.of_int 1) (binary64.of_int 10) in
  let balance := binary64.of_int 50000 in
  ∃ balance',
    binary64.admin_restock balance [(3, cost)] = Some balance' ∧
    binary64.scaled balance - binary64.scaled balance'
    ≠ 3 * binary64.scaled cost.
Proof.
  eexists. split; [vm_compute; reflexivity|].
  apply Z.eqb_neq. vm_compute. reflexivity.
Qed.

(** C5, amended: amounts are whole numbers.  A restock batch that reported
    success ('Restocking completed successfully!') has debited the admin
    wallet by exactly the sum over its lines of quantity x cost, has added
    exactly 1 to total_transactions whatever the number of lines, and has
    left total_revenue as it was; every line named a catalog product. *)
Theorem restock_debits_admin_wallet vendor_name form w total_cost :
  let w' := (admin_restock vendor_name form w).2 in
  RestockCompleted total_cost ∈ new_flashes w w' →
  total_cost = restock_total (products w) (collect_items form) ∧
  Forall (λ line, is_Some (products w !! str line.1)) (collect_items form) ∧
  ∃ aw', admin_wallet_file w' = Some aw' ∧
         aw_balance aw' = aw_balance (admin_wallet_before w) - total_cost ∧
         aw_total_transactions aw' =
           aw_total_transactions (admin_wallet_before w) + 1 ∧
         aw_total_revenue aw' = aw_total_revenue (admin_wallet_before w).
Proof.
  cbv zeta. intros Hflash.
  destruct (admin_restock vendor_name form w) as [rr w'] eqn:EQ.
  simpl in Hflash. unfold admin_restock in EQ. unfold bind at 1 in EQ.
  destruct (get_admin_wallet w) as [r0 w1] eqn:EG.
  kept flashed in EG as F0. kept products in EG as P0. kept clock in EG as C0.
  destruct (get_admin_wallet_inv _ _ _ EG) as [[e ->]|(aw & -> & A0)].
  { exfalso. inversion EQ; subst. unfold new_flashes in Hflash.
    rewrite F0, drop_all in Hflash. now apply not_elem_of_nil in Hflash. }
  assert (Hb : admin_wallet_before w1 = admin_wallet_before w)
    by (unfold admin_wallet_before at 1; now rewrite A0).
  case_bool_decide.
  { exfalso. unfold bind, flash, modify, ret in EQ. simpl in EQ.
    inversion EQ; subst. unfold new_flashes in Hflash. simpl in Hflash.
    rewrite F0, drop_app_length in Hflash.
    apply list_elem_of_singleton in Hflash. discriminate. }
  destruct (collect_items form) as [|line items] eqn:Eitems.
  { exfalso. unfold bind, flash, modify, ret in EQ. simpl in EQ.
    inversion EQ; subst. unfold new_flashes in Hflash. simpl in Hflash.
    rewrite F0, drop_app_length in Hflash.
    apply list_elem_of_singleton in Hflash. discriminate. }
  unfold bind at 1, try_except in EQ.
  destruct (restock_try vendor_name (line :: items) aw w1) as [r wt] eqn:ET.
  destruct (admin_restock_finish _ _ _ _ EQ) as (A2 & fs2 & F2 & Q2).
  destruct (restock_try_completed _ _ _ _ _ _ ET)
    as [(fs & Efs & Pfs)|(aw' & Hknown & F1 & A1 & Hbal & Htx & Hrev)].
  - exfalso. unfold new_flashes in Hflash.
    rewrite F2, Efs, F0, <- app_assoc, drop_app_length in Hflash.
    apply elem_of_app in Hflash as [Hin|Hin].
    + rewrite Forall_forall in Pfs. now apply (Pfs _ Hin total_cost).
    + rewrite Forall_forall in Q2. now apply (Q2 _ Hin total_cost).
  - rewrite P0 in Hknown, F1, Hbal. rewrite Hb in Hbal, Htx, Hrev.
    unfold new_flashes in Hflash.
    rewrite F2, F1, F0, <- app_assoc, drop_app_length in Hflash.
    apply elem_of_cons in Hflash as [Heq|Hin].
    + assert (Ht : total_cost = restock_total (products w) (line :: items))
        by congruence.
      clear Heq. split; [exact Ht|]. split; [exact Hknown|].
      exists aw'. simpl. repeat split; congruence.
    + exfalso. rewrite Forall_forall in Q2. now apply (Q2 _ Hin total_cost).
Qed.

Lemma restock_debits_admin_wallet_witness :
  let w' := (admin_restock "Acme" [(1, 10); (2, 3)] sample_world).2 in
  RestockCompleted 1840 ∈ new_flashes sample_world w' ∧
  restock_total sample_products [(1, 10); (2, 3)] = 10 * 100 + 3 * 280 ∧
  ∃ aw', admin_wallet_file w' = Some aw' ∧ aw_balance aw' = 48160 ∧
         aw_total_transactions aw' = 1 ∧ aw_total_revenue aw' = 0.
Proof.
  cbv zeta.
  assert (Hf : RestockCompleted 1840
                 ∈ new_flashes sample_world
                     (admin_restock "Acme" [(1, 10); (2, 3)] sample_world).2)
    by (vm_compute; constructor).
  destruct (restock_debits_admin_wallet "Acme" [(1, 10); (2, 3)]
              sample_world 1840 Hf)
    as (Ht & _ & aw' & Hfile & Hbal & Htx & Hrev).
  split; [exact Hf|]. split; [vm_compute; reflexivity|].
  exists aw'. split; [exact Hfile|].
  rewrite Hbal, Htx, Hrev. vm_compute. repeat split; reflexivity.
Defined.

(** ** Runs without file faults *)

Lemma file_op_ok w : faults w = [] → file_op w = (Ret tt, w).
Proof. intros H. unfold file_op. now rewrite H. Qed.

Lemma load_products_ok force w :
  synced w → faults w = [] → load_products force w = (Ret true, tick w).
Proof.
  destruct w as [ps pf ? ? ? ? ? ? ? ? ? ? ? tm fs]. unfold synced. simpl.
  intros -> ->.
  unfold load_products, tick, bind, try_except, since_last_update, file_op,
    gets, modify, ret.
  destruct force, tm as [|[| |] rest]; reflexivity.
Qed.

Lemma get_customer_wallet_ok customer_id w :
  faults w = [] →
  get_customer_wallet customer_id w
  = (Ret (wallets_file w !! str customer_id), w).
Proof.
  intros H. unfold get_customer_wallet, try_except, bind, file_op, gets, ret.
  now rewrite H.
Qed.

Lemma get_wallet_balance_ok customer_id w :
  faults w = [] →
  get_wallet_balance customer_id w = (Ret (balance_of customer_id w), w).
Proof.
  intros H. unfold get_wallet_balance, balance_of.
  rewrite (bind_ret _ _ _ _ _ (get_customer_wallet_ok customer_id w H)).
  now destruct (wallets_file w !! str customer_id).
Qed.

Lemma purchase_prelude_ok customer_id w :
  synced w → faults w = [] →
  purchase_prelude customer_id w = (Ret (balance_of customer_id w), tick w).
Proof.
  intros Hs Hf. unfold purchase_prelude.
  rewrite (bind_ret _ _ _ _ _ (get_wallet_balance_ok customer_id w Hf)).
  rewrite (bind_ret _ _ _ _ _ (get_customer_wallet_ok customer_id w Hf)).
  unfold ensure_products_reload.
  now rewrite (bind_ret _ _ _ _ _ (load_products_ok true w Hs Hf)).
Qed.

Lemma save_products_ok w :
  faults w = [] →
  save_products w = (Ret true, set_products_file (products w) w).
Proof.
  intros H. unfold save_products, try_except, bind, gets, file_op, modify, ret.
  simpl. now rewrite H.
Qed.

(** Without file faults, a stock change that keeps the stock non-negative
    is applied in memory and written to products.json. *)
Lemma update_product_stock_ok product_id delta w p :
  synced w → faults w = [] →
  products w !! str product_id = Some p →
  0 ≤ p_stock p + delta →
  update_product_stock product_id delta w
  = (Ret (StockUpdated (p_stock p) (p_stock p + delta)),
     commit (alter (with_stock (p_stock p + delta)) (str product_id)
               (products w)) (tick w)).
Proof.
  intros Hs Hf Hp Hge. unfold update_product_stock.
  apply try_ret.
  rewrite (bind_ret _ _ _ _ _ (load_products_ok true w Hs Hf)). simpl.
  unfold bind at 1. simpl. rewrite Hp. cbv zeta.
  rewrite bool_decide_eq_false_2 by lia.
  unfold bind at 1, assign_stock, modify. simpl.
  erewrite bind_ret by (apply save_products_ok; exact Hf).
  reflexivity.
Qed.

Lemma str_inj a b : str a = str b → a = b.
Proof. unfold str. apply pretty_Z_inj. Qed.

(** The stock of a line's product after the deductions, when no two lines
    name the same product. *)
Lemma deduct_lines_lookup_other ps l key :
  key ∉ (str <$> l.*1) → deduct_lines ps l !! key = ps !! key.
Proof.
  revert ps. induction l as [|[pid q] l IH]; intros ps Hnot; simpl; [done|].
  rewrite fmap_cons in Hnot. simpl in Hnot.
  apply not_elem_of_cons in Hnot as [Hne Hnot].
  unfold deduct_lines in IH. rewrite IH by done.
  unfold deduct_line. simpl. now rewrite lookup_alter_ne.
Qed.

Lemma deduct_lines_lookup ps l product_id qty p :
  NoDup l.*1 → (product_id, qty) ∈ l → ps !! str product_id = Some p →
  deduct_lines ps l !! str product_id
  = Some (with_stock (p_stock p - required_units qty) p).
Proof.
  revert ps. induction l as [|[pid q] l IH]; intros ps Hnd Hin Hp.
  - now apply not_elem_of_nil in Hin.
  - simpl in Hnd. apply NoDup_cons in Hnd as [Hfresh Hnd].
    apply elem_of_cons in Hin as [[= <- <-]|Hin].
    + unfold deduct_lines. simpl.
      change (foldl deduct_line ?a l) with (deduct_lines a l).
      rewrite deduct_lines_lookup_other.
      * unfold deduct_line. simpl. now rewrite lookup_alter_eq, Hp.
      * intros Hk. apply list_elem_of_fmap in Hk as (x & Hx & Hxin).
        apply str_inj in Hx. now subst.
    + unfold deduct_lines. simpl.
      change (foldl deduct_line ?a l) with (deduct_lines a l).
      apply IH; [done|done|].
      unfold deduct_line. simpl. rewrite lookup_alter_ne; [done|].
      intros Hk. apply str_inj in Hk. subst pid. apply Hfresh.
      apply list_elem_of_fmap. exists (product_id, qty). done.
Qed.

(** The deduction loop works through a prefix [l1] of lines that name
    distinct catalog products with enough stock: each is deducted and
    saved, and the loop goes on with the rest of the list. *)
Lemma update_stock_loop_prefix l1 rest w :
  synced w → faults w = [] → NoDup l1.*1 →
  (∀ pid qty, (pid, qty) ∈ l1 →
     ∃ p, products w !! str pid = Some p ∧ qty + qty / 3 ≤ p_stock p) →
  ∃ w', update_stock_for_items (l1 ++ rest) w
        = update_stock_for_items rest w' ∧
        synced w' ∧ faults w' = [] ∧ flashed w' = flashed w ∧
        products w' = deduct_lines (products w) l1 ∧
        wallets_file w' = wallets_file w ∧
        customer_tx_file w' = customer_tx_file w ∧
        purchase_invoices w' = purchase_invoices w ∧
        clock w' = clock w.
Proof.
  revert w. induction l1 as [|[pid qty] l1 IH]; intros w Hs Hf Hnd Hok.
  - exists w. simpl. repeat split; done.
  - simpl in Hnd. apply NoDup_cons in Hnd as [Hfresh Hnd].
    destruct (Hok pid qty) as (p & Hp & Hle); [left|].
    assert (Hge : 0 ≤ p_stock p + - (qty + qty / 3)) by lia.
    pose proof (update_product_stock_ok pid _ w p Hs Hf Hp Hge) as EU.
    rewrite (deduct_line_alter _ _ _ _ Hp) in EU.
    set (w1 := commit (deduct_line (products w) (pid, qty)) (tick w)) in EU.
    destruct (IH w1) as (w' & E' & Hs' & Hf' & Hfl' & Hp' & K1 & K2 & K3 & K4);
      try done.
    + intros pid' qty' Hin. destruct (Hok pid' qty') as (p' & Hp'' & Hle');
        [now right|].
      exists p'. split; [|done]. simpl. unfold deduct_line. simpl.
      rewrite lookup_alter_ne; [done|].
      intros Hk. apply str_inj in Hk. subst pid'. apply Hfresh.
      apply list_elem_of_fmap. exists (pid, qty'). done.
    + exists w'. split; [|done].
      simpl. unfold bind at 1. simpl. rewrite Hp.
      rewrite (bind_ret _ _ _ _ _ EU). exact E'.
Qed.

(** The deduction loop on a list whose first unknown product comes after
    the lines [l1]: the lines of [l1] are deducted and saved one by one,
    then the lookup of the unknown product raises [KeyError]. *)
Lemma update_stock_loop_unknown l1 u q l2 w :
  synced w → faults w = [] → NoDup l1.*1 →
  (∀ pid qty, (pid, qty) ∈ l1 →
     ∃ p, products w !! str pid = Some p ∧ qty + qty / 3 ≤ p_stock p) →
  products w !! str u = None →
  ∃ w', update_stock_for_items (l1 ++ (u, q) :: l2) w
        = (Raise (key_error (str u)), w') ∧
        synced w' ∧ faults w' = [] ∧ flashed w' = flashed w ∧
        products w' = deduct_lines (products w) l1.
Proof.
  intros Hs Hf Hnd Hok Hu.
  destruct (update_stock_loop_prefix l1 ((u, q) :: l2) w Hs Hf Hnd Hok)
    as (w' & E & Hs' & Hf' & Hfl & Hp & _).
  exists w'. split; [|done]. rewrite E. simpl. unfold bind, gets. simpl.
  rewrite Hp, deduct_lines_lookup_other, Hu; [done|].
  intros Hin. apply list_elem_of_fmap in Hin as (pid & Hk & Hin).
  apply str_inj in Hk. subst pid.
  apply list_elem_of_fmap in Hin as ([pid qty] & Hpid & Hin).
  simpl in Hpid. subst pid.
  destruct (Hok u qty Hin) as (p & Hp' & _). congruence.
Qed.

(** C8 as stated does not hold of every such purchase: the checks come
    first.  Customer 7 (wallet 5000) orders 30 units of product 1 (6000 for
    40 of the 265 units in stock) and one unit of product 99, which is not
    in the catalog: the purchase is turned away on 'Insufficient wallet
    balance', it does not abort on an error, and no stock was deducted. *)
Lemma purchase_unknown_product_turned_away :
  let form := [(1, 30); (99, 1)] in
  let w' := (purchase 7 "Asha" form sample_world).2 in
  collect_items form = [(1, 30)] ++ (99, 1) :: [] ∧
  products sample_world !! str 99 = None ∧
  (p_stock <$> products sample_world !! str 1) = Some 265 ∧
  (purchase 7 "Asha" form sample_world).1 = Ret (Redirect "purchase") ∧
  new_flashes sample_world w' = [InsufficientWalletBalance 6000 5000] ∧
  products_file w' = products_file sample_world ∧
  products w' = products sample_world.
Proof. vm_compute. repeat split; reflexivity. Qed.

(** C8, amended.  A purchase with a line whose product id is not in the
    catalog, standing after lines [l1] of distinct catalog products: the
    unknown line is passed over by the stock check and adds nothing to the
    total, so that, when the stock check and the balance check are passed
    and no file operation fails, the deduction loop takes the required
    units of the lines of [l1] from the stock, saves them, and then stops
    on the [KeyError] of the unknown line.  The purchase ends on 'Error
    during purchase' with those deductions in products.json and nothing
    else written. *)
Theorem purchase_unknown_product customer_id verify_name form w
    l1 u q l2 total items :
  let w' := (purchase customer_id verify_name form w).2 in
  synced w → faults w = [] →
  collect_items form = l1 ++ (u, q) :: l2 →
  products w !! str u = None →
  NoDup l1.*1 →
  (∀ pid qty, (pid, qty) ∈ l1 → is_Some (products w !! str pid)) →
  check_stock (products w) (l1 ++ l2) 0 [] = inr (total, items) →
  total ≤ balance_of customer_id w →
  check_stock (products w) (collect_items form) 0 [] = inr (total, items) ∧
  (purchase customer_id verify_name form w).1 = Ret (Render "purchase.html") ∧
  new_flashes w w' = [ErrorDuringPurchase (key_error (str u))] ∧
  products_file w' = deduct_lines (products w) l1 ∧
  (∀ pid qty p, (pid, qty) ∈ l1 → products w !! str pid = Some p →
     products_file w' !! str pid
     = Some (with_stock (p_stock p - (qty + qty / 3)) p)) ∧
  wallets_file w' = wallets_file w ∧
  customer_tx_file w' = customer_tx_file w ∧
  sales_file w' = sales_file w ∧
  transactions_file w' = transactions_file w ∧
  admin_wallet_file w' = admin_wallet_file w ∧
  purchase_invoices w' = purchase_invoices w.
Proof.
  cbv zeta. intros Hs Hf Hitems Hu Hnd Hknown Hcheck Hbal.
  assert (Hcheck' : check_stock (products w) (collect_items form) 0 []
                    = inr (total, items)).
  { rewrite Hitems, check_stock_unknown; done. }
  assert (Hne : collect_items form ≠ []).
  { rewrite Hitems. now destruct l1. }
  assert (Hok : ∀ pid qty, (pid, qty) ∈ l1 →
            ∃ p, products w !! str pid = Some p ∧ qty + qty / 3 ≤ p_stock p).
  { intros pid qty Hin. destruct (Hknown pid qty Hin) as [p Hp].
    exists p. split; [done|].
    pose proof (check_stock_acc (products w) (l1 ++ l2) 0 []) as Hacc.
    rewrite Hcheck in Hacc. destruct Hacc as (_ & _ & Hall).
    rewrite Forall_forall in Hall. apply (Hall (p, qty)).
    unfold catalog_lines. apply list_elem_of_omap.
    exists (pid, qty). split; [apply elem_of_app; now left|].
    simpl. now rewrite Hp. }
  assert (Hs1 : synced (tick w)) by exact Hs.
  assert (Hf1 : faults (tick w) = []) by exact Hf.
  destruct (update_stock_loop_unknown l1 u q l2 (tick w) Hs1 Hf1 Hnd Hok Hu)
    as (w2 & EL & Hs2 & Hf2 & A8 & Hp2).
  rewrite <- Hitems in EL. simpl in Hp2.
  kept_files EL A1 A2 A3 A4 A5 A6. kept purchase_invoices in EL as A7.
  simpl in *.
  assert (ET : purchase_try customer_id verify_name (collect_items form)
                 (balance_of customer_id w) (tick w)
               = (Raise (key_error (str u)), w2)).
  { unfold purchase_try. unfold bind at 1. simpl. rewrite Hcheck'.
    rewrite bool_decide_eq_false_2 by lia.
    now rewrite (bind_raise _ _ _ _ _ EL). }
  set (w3 := set_flashed
               (flashed w2 ++ [ErrorDuringPurchase (key_error (str u))]) w2).
  assert (EQ : purchase customer_id verify_name form w
               = (Ret (Render "purchase.html"), tick w3)).
  { rewrite (purchase_unfold _ _ _ _ Hne).
    rewrite (bind_ret _ _ _ _ _ (purchase_prelude_ok customer_id w Hs Hf)).
    erewrite bind_ret.
    2: { erewrite try_raise by exact ET. reflexivity. }
    simpl. unfold ensure_products_reload.
    assert (Hs3 : synced w3) by exact Hs2.
    assert (Hf3 : faults w3 = []) by exact Hf2.
    now rewrite (bind_ret _ _ _ _ _ (load_products_ok true w3 Hs3 Hf3)). }
  rewrite EQ. simpl.
  assert (Hfile : products_file w2 = deduct_lines (products w) l1)
    by (rewrite Hs2; exact Hp2).
  repeat split; try congruence.
  - apply new_flashes_app. simpl. now rewrite A8.
  - intros pid qty p Hin Hp. rewrite Hfile.
    now apply deduct_lines_lookup.
Qed.

Lemma purchase_unknown_product_witness :
  let w' := (purchase 7 "Asha" [(1, 6); (99, 1); (2, 3)] sample_world).2 in
  (purchase 7 "Asha" [(1, 6); (99, 1); (2, 3)] sample_world).1
    = Ret (Render "purchase.html") ∧
  new_flashes sample_world w' = [ErrorDuringPurchase "'99'"] ∧
  (p_stock <$> products_file w' !! "1") = Some 257 ∧
  (p_stock <$> products_file w' !! "2") = Some 272 ∧
  (wl_balance <$> wallets_file w' !! "7") = Some 5000.
Proof.
  cbv zeta.
  pose (items := [mkItem "Vitamin C Serum" 6 2 1200;
                  mkItem "Skin Cleanser" 3 1 1680]).
  destruct (purchase_unknown_product 7 "Asha" [(1, 6); (99, 1); (2, 3)]
              sample_world [(1, 6)] 99 1 [(2, 3)] 2880 items)
    as (_ & R & F & Hfile & _ & Hw & _).
  - reflexivity.
  - reflexivity.
  - reflexivity.
  - reflexivity.
  - repeat constructor. intros H. now apply not_elem_of_nil in H.
  - intros pid qty Hin. apply list_elem_of_singleton in Hin.
    injection Hin as -> ->. eexists. reflexivity.
  - vm_compute. reflexivity.
  - vm_compute. discriminate.
  - rewrite Hfile, Hw. repeat split; try assumption; vm_compute; reflexivity.
Defined.

(** ** A completed purchase *)

Lemma preserves_for_each {A} I (l : list A) body :
  (∀ x, preserves I (body x)) → preserves I (for_each l body).
Proof.
  intros Hb. induction l as [|x l IH]; simpl.
  - apply preserves_ret.
  - apply preserves_bind; auto.
Qed.

Lemma file_op_tame : preserves no_faults file_op.
Proof. intros w H. unfold file_op. now rewrite H. Qed.

(** Faults do not appear by themselves. *)
Ltac tame_step :=
  match goal with
  | |- preserves _ (bind _ _) => apply preserves_bind; [|intros ?]
  | |- preserves _ (try_except _ _) => apply preserves_try; [|intros ?]
  | |- preserves _ (for_each _ _) => apply preserves_for_each; intros ?
  | |- preserves _ (ret _) => apply preserves_ret
  | |- preserves _ (raise _) => apply preserves_raise
  | |- preserves no_faults file_op => apply file_op_tame
  | |- preserves _ (match ?x with _ => _ end) => destruct x
  | |- preserves _ ?m => open_source m
  | |- preserves no_faults _ => let w := fresh in let H := fresh in
                                intros w H; exact H
  end.

Ltac tame_auto := cbv zeta; repeat (tame_step; cbv zeta).

Lemma smooth_ret {A} (a : A) : smooth (ret a).
Proof. intros w H. split; [now exists a|exact H]. Qed.

Lemma smooth_gets {A} (f : World → A) : smooth (gets f).
Proof. intros w H. split; [now exists (f w)|exact H]. Qed.

Lemma smooth_file_op : smooth file_op.
Proof.
  intros w H. unfold file_op. rewrite H. split; [now exists tt|exact H].
Qed.

Lemma smooth_bind {A B} (m : M A) (k : A → M B) :
  smooth m → (∀ a, smooth (k a)) → smooth (bind m k).
Proof.
  intros Hm Hk w H. unfold bind. destruct (Hm w H) as [[a Ha] Hf].
  destruct (m w) as [r w1]. simpl in *. subst r. now apply Hk.
Qed.

(** Inside a [try] the body may raise: the handler takes over. *)
Lemma smooth_try {A} (m : M A) h :
  preserves no_faults m → (∀ e, smooth (h e)) → smooth (try_except m h).
Proof.
  intros Hm Hh w H. unfold try_except. specialize (Hm w H).
  destruct (m w) as [[a|e] w1]; simpl in *; [eauto|]. now apply Hh.
Qed.

Lemma smooth_for_each {A} (l : list A) body :
  (∀ x, smooth (body x)) → smooth (for_each l body).
Proof.
  intros Hb. induction l as [|x l IH]; simpl.
  - apply smooth_ret.
  - apply smooth_bind; auto.
Qed.

Ltac smooth_step :=
  match goal with
  | |- smooth (bind _ _) => apply smooth_bind; [|intros ?]
  | |- smooth (try_except _ _) => apply smooth_try; [tame_auto|intros ?]
  | |- smooth (for_each _ _) => apply smooth_for_each; intros ?
  | |- smooth (ret _) => apply smooth_ret
  | |- smooth (gets _) => apply smooth_gets
  | |- smooth file_op => apply smooth_file_op
  | |- smooth (match ?x with _ => _ end) => destruct x
  | |- smooth ?m => open_source m
  | |- smooth _ => let w := fresh in let H := fresh in
                   intros w H; split; [eexists; reflexivity|exact H]
  end.

Ltac smooth_auto := cbv zeta; repeat (smooth_step; cbv zeta).

(** Run the smooth step [m] in the world [w] without faults: [E] names
    the run, [w1] the world it leaves, [Hf1] its absence of faults. *)
Ltac run_smooth m w Hf w1 E Hf1 :=
  let S := fresh "S" in
  let a := fresh "a" in
  let r := fresh "r" in
  let Ea := fresh "Ea" in
  assert (S : smooth m) by smooth_auto;
  destruct (S w Hf) as [[a Ea] Hf1];
  destruct (m w) as [r w1] eqn:E; simpl in Ea, Hf1; subst r; clear S.

Lemma save_purchase_invoice_ok name items total timestamp w :
  faults w = [] →
  save_purchase_invoice name items total timestamp w
  = (Ret (Some (mkPurchaseInvoice name items total timestamp)),
     set_purchase_invoices
       (purchase_invoices w ++ [mkPurchaseInvoice name items total timestamp])
       w).
Proof.
  intros H. unfold save_purchase_invoice, try_except, bind, file_op, modify,
    ret. now rewrite H.
Qed.

Lemma log_customer_transaction_ok customer_id ty amount description balance w :
  faults w = [] →
  ∃ w' entry,
    log_customer_transaction customer_id ty amount description (Some balance) w
    = (Ret true, w') ∧
    faults w' = [] ∧ flashed w' = flashed w ∧
    wallets_file w' = wallets_file w ∧ products_file w' = products_file w ∧
    ledger_of customer_id w' = ledger_of customer_id w ++ [entry] ∧
    ctx_type entry = ty ∧ ctx_amount entry = amount ∧
    ctx_balance_after entry = balance.
Proof.
  intros Hf.
  unfold log_customer_transaction, try_except, bind, file_op, gets, modify,
    ret, ledger_of.
  simpl. rewrite Hf. simpl. rewrite Hf. simpl.
  eexists _, _. split; [reflexivity|]. simpl. rewrite lookup_insert_eq.
  repeat split; done.
Qed.

(** Without file faults, [update_wallet_balance] on an existing wallet
    writes the new balance and appends exactly one ledger entry, whose
    [balance_after] is that balance. *)
Lemma update_wallet_balance_ok customer_id amount w wallet :
  faults w = [] →
  wallets_file w !! str customer_id = Some wallet →
  ∃ w' entry,
    update_wallet_balance customer_id amount w
    = (Ret (Some (wl_balance wallet + amount)), w') ∧
    faults w' = [] ∧ flashed w' = flashed w ∧
    products_file w' = products_file w ∧
    balance_of customer_id w' = wl_balance wallet + amount ∧
    ledger_of customer_id w' = ledger_of customer_id w ++ [entry] ∧
    ctx_balance_after entry = wl_balance wallet + amount ∧
    ctx_amount entry = Z.abs amount ∧
    ctx_type entry = (if bool_decide (amount > 0) then "add" else "withdraw").
Proof.
  intros Hf Hw.
  unfold update_wallet_balance, log_customer_transaction, try_except, bind,
    file_op, gets, modify, ret, balance_of, ledger_of.
  simpl. rewrite Hf, Hw. simpl. rewrite Hf. simpl. rewrite Hf. simpl.
  rewrite Hf. simpl. eexists _, _. split; [reflexivity|]. simpl.
  rewrite !lookup_insert_eq. repeat split; done.
Qed.

(** Without file faults, a purchase of distinct catalog products that
    passes the stock check and that the wallet can pay completes: the
    required units of every line leave the stock, in memory and in
    products.json, the receipt is written, the wallet is debited once by the
    total, and the customer's ledger receives the entry of
    [update_wallet_balance] followed by the 'purchase' entry of
    [purchase]. *)
Lemma purchase_completed_run customer_id verify_name form w wallet
    total items :
  synced w → faults w = [] →
  collect_items form ≠ [] →
  NoDup (collect_items form).*1 →
  (∀ pid qty, (pid, qty) ∈ collect_items form →
     is_Some (products w !! str pid)) →
  check_stock (products w) (collect_items form) 0 [] = inr (total, items) →
  wallets_file w !! str customer_id = Some wallet →
  total ≤ wl_balance wallet →
  let w' := (purchase customer_id verify_name form w).2 in
  (purchase customer_id verify_name form w).1 = Ret (Redirect "invoice") ∧
  new_flashes w w' = [PurchaseCompleted] ∧
  products_file w' = deduct_lines (products w) (collect_items form) ∧
  products w' = deduct_lines (products w) (collect_items form) ∧
  purchase_invoices w'
  = purchase_invoices w ++
    [mkPurchaseInvoice verify_name items total (clock w)] ∧
  balance_of customer_id w' = wl_balance wallet - total ∧
  ∃ e1 e2,
    ledger_of customer_id w' = ledger_of customer_id w ++ [e1; e2] ∧
    ctx_type e1 = (if bool_decide (- total > 0) then "add" else "withdraw") ∧
    ctx_type e2 = "purchase" ∧
    ctx_amount e1 = Z.abs total ∧ ctx_amount e2 = total ∧
    ctx_balance_after e1 = wl_balance wallet - total ∧
    ctx_balance_after e2 = wl_balance wallet - total.
Proof.
  intros Hs Hf Hne Hnd Hknown Hcheck Hw Hle. cbv zeta.
  assert (Hok : ∀ pid qty, (pid, qty) ∈ collect_items form →
            ∃ p, products w !! str pid = Some p ∧ qty + qty / 3 ≤ p_stock p).
  { intros pid qty Hin. destruct (Hknown pid qty Hin) as [p Hp].
    exists p. split; [done|].
    pose proof (check_stock_acc (products w) (collect_items form) 0 [])
      as Hacc.
    rewrite Hcheck in Hacc. destruct Hacc as (_ & _ & Hall).
    rewrite Forall_forall in Hall. apply (Hall (p, qty)).
    unfold catalog_lines. apply list_elem_of_omap.
    exists (pid, qty). split; [done|]. simpl. now rewrite Hp. }
  assert (Hbal : balance_of customer_id w = wl_balance wallet)
    by (unfold balance_of; now rewrite Hw).
  (* the deduction loop *)
  assert (Hs1 : synced (tick w)) by exact Hs.
  assert (Hf1 : faults (tick w) = []) by exact Hf.
  destruct (update_stock_loop_prefix (collect_items form) [] (tick w)
              Hs1 Hf1 Hnd Hok)
    as (w2 & EL & Hs2 & Hf2 & F2 & P2 & W2 & T2 & I2 & C2).
  rewrite app_nil_r in EL. simpl in EL, F2, P2, W2, T2, I2, C2.
  (* the receipt *)
  pose proof (save_purchase_invoice_ok verify_name items total (clock w2) w2
                Hf2) as ES.
  set (w3 := set_purchase_invoices _ w2) in ES.
  assert (Hf3 : faults w3 = []) by exact Hf2.
  assert (Hw3 : wallets_file w3 !! str customer_id = Some wallet)
    by (simpl; now rewrite W2).
  (* the wallet and its ledger entry *)
  destruct (update_wallet_balance_ok customer_id (- total) w3 wallet Hf3 Hw3)
    as (w4 & e1 & E4 & Hf4 & F4 & P4 & B4 & L4 & A1 & A2 & A3).
  rewrite Z.abs_opp in A2.
  kept products in E4 as M4. kept purchase_invoices in E4 as I4.
  (* the customer record *)
  run_smooth (update_customer_purchase customer_id total) w4 Hf4 w5 E5 Hf5.
  kept flashed in E5 as F5. kept customer_tx_file in E5 as T5.
  kept wallets_file in E5 as W5. kept products_file in E5 as P5.
  kept products in E5 as M5. kept purchase_invoices in E5 as I5.
  (* the purchase entry *)
  destruct (log_customer_transaction_ok customer_id "purchase" total
              (purchase_description (collect_items form))
              (wl_balance wallet + - total) w5 Hf5)
    as (w6 & e2 & E6 & Hf6 & F6 & W6 & P6 & L6 & D1 & D2 & D3).
  kept products in E6 as M6. kept purchase_invoices in E6 as I6.
  (* sales, global log, admin wallet *)
  run_smooth (log_sales customer_id (collect_items form) (clock w2)) w6 Hf6
    w7 E7 Hf7.
  kept flashed in E7 as F7. kept customer_tx_file in E7 as T7.
  kept wallets_file in E7 as W7. kept products_file in E7 as P7.
  kept products in E7 as M7. kept purchase_invoices in E7 as I7.
  run_smooth (log_transaction customer_id total "revenue"
                (purchase_description (collect_items form))) w7 Hf7
    w8 E8 Hf8.
  kept flashed in E8 as F8. kept customer_tx_file in E8 as T8.
  kept wallets_file in E8 as W8. kept products_file in E8 as P8.
  kept products in E8 as M8. kept purchase_invoices in E8 as I8.
  run_smooth (add_revenue_to_admin total) w8 Hf8 w9 E9 Hf9.
  kept flashed in E9 as F9. kept customer_tx_file in E9 as T9.
  kept wallets_file in E9 as W9. kept products_file in E9 as P9.
  kept products in E9 as M9. kept purchase_invoices in E9 as I9.
  (* the whole [try] block *)
  set (w10 := set_flashed (flashed w9 ++ [PurchaseCompleted])
                (set_session_invoice
                   (Some (mkInvoiceData verify_name (clock w2) items total
                            (balance_of customer_id w9))) w9)).
  assert (ET : purchase_try customer_id verify_name (collect_items form)
                 (balance_of customer_id w) (tick w)
               = (Ret (Some (Redirect "invoice")), w10)).
  { unfold purchase_try. unfold bind at 1. simpl. rewrite Hcheck.
    rewrite bool_decide_eq_false_2 by lia.
    rewrite (bind_ret _ _ _ _ _ EL). simpl.
    unfold bind at 1, datefunction, gets.
    rewrite (bind_ret _ _ _ _ _ ES).
    rewrite (bind_ret _ _ _ _ _ E4).
    rewrite (bind_ret _ _ _ _ _ E5).
    rewrite (bind_ret _ _ _ _ _ E6).
    rewrite (bind_ret _ _ _ _ _ E7).
    rewrite (bind_ret _ _ _ _ _ E8).
    rewrite (bind_ret _ _ _ _ _ E9).
    rewrite (bind_ret _ _ _ _ _ (get_wallet_balance_ok customer_id w9 Hf9)).
    reflexivity. }
  assert (EQ : purchase customer_id verify_name form w
               = (Ret (Redirect "invoice"), w10)).
  { rewrite (purchase_unfold _ _ _ _ Hne).
    rewrite (bind_ret _ _ _ _ _ (purchase_prelude_ok customer_id w Hs Hf)).
    now rewrite (bind_ret _ _ _ _ _ (try_ret _ _ _ _ _ ET)). }
  rewrite EQ. simpl.
  assert (Lw : ledger_of customer_id w9
               = ledger_of customer_id w ++ [e1; e2]).
  { unfold ledger_of in *. rewrite T9, T8, T7, L6, T5, L4. simpl.
    rewrite T2. now rewrite <- app_assoc. }
  assert (Bw : balance_of customer_id w9 = wl_balance wallet - total).
  { unfold balance_of in *. rewrite W9, W8, W7, W6, W5. exact B4. }
  split; [done|]. split.
  { apply new_flashes_app. simpl.
    rewrite F9, F8, F7, F6, F5, F4. simpl. now rewrite F2. }
  split.
  { rewrite P9, P8, P7, P6, P5, P4. simpl. rewrite Hs2. exact P2. }
  split.
  { rewrite M9, M8, M7, M6, M5, M4. simpl. exact P2. }
  split.
  { rewrite I9, I8, I7, I6, I5, I4. simpl. now rewrite I2, C2. }
  split; [exact Bw|].
  exists e1, e2. repeat split; try done; lia.
Qed.

(** The same with a total that is not negative: the first entry is a
    'withdraw' entry of the total. *)
Lemma purchase_completed_effects customer_id verify_name form w wallet
    total items :
  synced w → faults w = [] →
  collect_items form ≠ [] →
  NoDup (collect_items form).*1 →
  (∀ pid qty, (pid, qty) ∈ collect_items form →
     is_Some (products w !! str pid)) →
  check_stock (products w) (collect_items form) 0 [] = inr (total, items) →
  wallets_file w !! str customer_id = Some wallet →
  0 ≤ total ≤ wl_balance wallet →
  let w' := (purchase customer_id verify_name form w).2 in
  (purchase customer_id verify_name form w).1 = Ret (Redirect "invoice") ∧
  new_flashes w w' = [PurchaseCompleted] ∧
  products_file w' = deduct_lines (products w) (collect_items form) ∧
  balance_of customer_id w' = wl_balance wallet - total ∧
  ∃ e1 e2,
    ledger_of customer_id w' = ledger_of customer_id w ++ [e1; e2] ∧
    ctx_type e1 = "withdraw" ∧ ctx_type e2 = "purchase" ∧
    ctx_amount e1 = total ∧ ctx_amount e2 = total ∧
    ctx_balance_after e1 = wl_balance wallet - total ∧
    ctx_balance_after e2 = wl_balance wallet - total.
Proof.
  intros Hs Hf Hne Hnd Hknown Hcheck Hw [H0 Hle].
  destruct (purchase_completed_run customer_id verify_name form w wallet
              total items Hs Hf Hne Hnd Hknown Hcheck Hw Hle)
    as (R & F & P & _ & _ & B & e1 & e2 & L & T1 & T2 & A1 & A2 & B1 & B2).
  rewrite bool_decide_eq_false_2 in T1 by lia.
  rewrite Z.abs_eq in A1 by lia.
  cbv zeta. repeat split; try done. now exists e1, e2.
Qed.




(** ** Wallet and ledger *)

(** Adding money through the wallet page changes the balance once and
    logs once. *)
Lemma wallet_post_add_logs_once customer_id amount w wallet :
  faults w = [] →
  wallets_file w !! str customer_id = Some wallet →
  let w' := (wallet_post customer_id "add" amount w).2 in
  balance_of customer_id w' = wl_balance wallet + amount ∧
  length (ledger_of customer_id w') = S (length (ledger_of customer_id w)).
Proof.
  intros Hf Hw. cbv zeta. unfold wallet_post. simpl.
  destruct (update_wallet_balance_ok customer_id amount w wallet Hf Hw)
    as (w' & entry & E & _ & _ & _ & Hb & Hl & _).
  rewrite (bind_ret _ _ _ _ _ E). simpl. rewrite Hl, length_app. simpl.
  split; [done|lia].
Qed.

(** C2, at a completed purchase.  Customer 7 (wallet 5000) buys 6 units
    of product 1 (cost 100): the wallet balance changes once, from 5000 to
    3800, and the customer's ledger receives two entries for that change,
    the 'withdraw' entry written by [update_wallet_balance] and the
    'purchase' entry written by [purchase] itself, both with
    balance_after = 3800. *)
Theorem purchase_logs_balance_change_twice :
  let w' := (purchase 7 "Asha" [(1, 6)] sample_world).2 in
  (purchase 7 "Asha" [(1, 6)] sample_world).1 = Ret (Redirect "invoice") ∧
  new_flashes sample_world w' = [PurchaseCompleted] ∧
  balance_of 7 sample_world = 5000 ∧
  balance_of 7 w' = 3800 ∧
  ledger_of 7 sample_world = [] ∧
  ledger_of 7 w' =
    [mkCustomerTx 1 "withdraw" 1200 "Money withdrawn from wallet" 3800 20251120;
     mkCustomerTx 2 "purchase" 1200 "Purchase: 1 items" 3800 20251120].
Proof. vm_compute. repeat split; reflexivity. Qed.

(** The scenario of the specification: stock 265 - 8, wallet 5000 - 1200,
    one sale record, the admin wallet credited with 1200. *)
Example purchase_scenario :
  let w' := (purchase 7 "Asha" [(1, 6)] sample_world).2 in
  check_stock sample_products [(1, 6)] 0 []
    = inr (1200, [mkItem "Vitamin C Serum" 6 2 1200]) ∧
  (p_stock <$> products_file w' !! "1") = Some 257 ∧
  length (sales_file w') = 1%nat ∧
  (aw_balance <$> admin_wallet_file w') = Some 51200 ∧
  (c_points <$> customers_file w' !! "7") = Some 12.
Proof. vm_compute. repeat split; reflexivity. Qed.


(** Two lines that name the same product are checked one after the other
    against the same stock: here each needs 200 of the 265 units, the check
    passes, and the second deduction is refused after the first was
    saved. *)
Example purchase_same_product_twice :
  let w := set_wallets_file {[ "7" := mkWallet "Asha" "4242" 100000 ]}
             sample_world in
  let w' := (purchase 7 "Asha" [(1, 150); (1, 150)] w).2 in
  new_flashes w w'
    = [ErrorUpdatingStock "Vitamin C Serum" (InsufficientStock 65)] ∧
  (p_stock <$> products_file w' !! "1") = Some 65 ∧
  (wl_balance <$> wallets_file w' !! "7") = Some 100000.
Proof. vm_compute. repeat split; reflexivity. Qed.
(** * The rest of the store: catalog management, wallets, loyalty, logs *)

(** ** More steps for the closure tactics *)

Ltac open_source m ::=
  lazymatch m with
  | load_products _ => unfold load_products
  | reload_products => unfold reload_products
  | ensure_products_reload => unfold ensure_products_reload
  | save_products => unfold save_products
  | update_product_stock _ _ => unfold update_product_stock
  | get_customer_wallet _ => unfold get_customer_wallet
  | get_wallet_balance _ => unfold get_wallet_balance
  | log_customer_transaction _ _ _ _ _ => unfold log_customer_transaction
  | update_wallet_balance _ _ => unfold update_wallet_balance
  | update_customer_purchase _ _ => unfold update_customer_purchase
  | init_admin_wallet => unfold init_admin_wallet
  | read_admin_wallet => unfold read_admin_wallet
  | get_admin_wallet => unfold get_admin_wallet
  | update_admin_wallet _ _ => unfold update_admin_wallet
  | add_revenue_to_admin _ => unfold add_revenue_to_admin
  | deduct_admin_balance _ => unfold deduct_admin_balance
  | log_sale _ _ _ _ _ _ _ => unfold log_sale
  | log_sales _ _ _ => unfold log_sales
  | log_transaction _ _ _ _ => unfold log_transaction
  | datefunction => unfold datefunction
  | save_purchase_invoice _ _ _ _ => unfold save_purchase_invoice
  | generate_restock_invoice _ _ _ => unfold generate_restock_invoice
  | assign_stock _ _ => unfold assign_stock
  | purchase _ _ _ => unfold purchase
  | purchase_try _ _ _ _ => unfold purchase_try
  | admin_restock _ _ => unfold admin_restock
  | restock_try _ _ _ => unfold restock_try
  | run_operation _ => unfold run_operation
  | wallet_post _ _ _ => unfold wallet_post
  | get_next_product_id _ => unfold get_next_product_id
  | add_product _ _ => unfold add_product
  | update_product _ _ => unfold update_product
  | delete_product _ => unfold delete_product
  | admin_add_product _ _ => unfold admin_add_product
  | admin_edit_product _ _ => unfold admin_edit_product
  | admin_delete_product _ => unfold admin_delete_product
  | setup_customer_wallet _ _ => unfold setup_customer_wallet
  | setup_wallet _ _ _ _ _ => unfold setup_wallet
  | verify_card_information _ _ _ _ => unfold verify_card_information
  | get_customer_transactions _ _ => unfold get_customer_transactions
  | get_transaction_stats _ => unfold get_transaction_stats
  end.

(** An invariant that reads one view of the world survives every step
    that keeps that view. *)
Lemma preserves_of_keeps {V A} (view : World → V) (I : World → Prop)
    (m : M A) :
  (∀ w w', view w' = view w → I w → I w') → keeps view m → preserves I m.
Proof. intros HI Hk w Hw. apply (HI w); [apply Hk|exact Hw]. Qed.

Lemma preserves_gets {A} I (f : World → A) : preserves I (gets f).
Proof. now intros w. Qed.

Lemma preserves_update_stock_loop I l :
  (∀ f, preserves I (flash f)) →
  (∀ product_id delta, preserves I (update_product_stock product_id delta)) →
  preserves I (update_stock_for_items l).
Proof.
  intros Hf Hu. induction l as [|[product_id qty] l IH]; simpl.
  - apply preserves_ret.
  - apply preserves_bind; [apply preserves_gets|intros ps].
    destruct (ps !! str product_id); [|apply preserves_raise].
    apply preserves_bind; [apply Hu|intros [? ?|?]]; [apply IH|].
    apply preserves_bind; [apply Hf|intros; apply preserves_ret].
Qed.

Lemma preserves_restock_stock I l :
  (∀ f, preserves I (flash f)) →
  (∀ product_id delta, preserves I (update_product_stock product_id delta)) →
  preserves I (restock_stock l).
Proof.
  intros Hf Hu. induction l as [|update l IH]; simpl.
  - apply preserves_ret.
  - apply preserves_bind; [apply Hu|intros [? ?|?]]; [apply IH|].
    apply preserves_bind; [apply Hf|intros; apply preserves_ret].
Qed.

Lemma preserves_restock_lines I ps l total lines :
  preserves I (restock_lines ps l total lines).
Proof.
  revert total lines.
  induction l as [|[[product_id amount] item_cost] l IH]; intros; simpl.
  - apply preserves_ret.
  - destruct (ps !! str product_id); [apply IH|apply preserves_raise].
Qed.

(** Split a flow into its steps.  [special] closes the steps that change
    what the invariant reads, [closing] those that do not. *)
Ltac inv_step special closing :=
  match goal with
  | |- preserves _ (bind _ _) => apply preserves_bind; [|intros ?]
  | |- preserves _ (try_except _ _) => apply preserves_try; [|intros ?]
  | |- preserves _ (for_each _ _) => apply preserves_for_each; intros ?
  | |- preserves _ (ret _) => apply preserves_ret
  | |- preserves _ (raise _) => apply preserves_raise
  | |- preserves _ (gets _) => apply preserves_gets
  | |- preserves _ (restock_lines _ _ _ _) => apply preserves_restock_lines
  | |- preserves _ (match ?x with _ => _ end) => destruct x
  | |- preserves _ _ => special
  | |- preserves _ (update_stock_for_items _) =>
      apply preserves_update_stock_loop; intros
  | |- preserves _ (restock_stock _) => apply preserves_restock_stock; intros
  | |- preserves _ ?m => open_source m
  | |- preserves _ _ => closing
  end.

Ltac inv_auto special closing :=
  cbv zeta; repeat (inv_step special closing; cbv zeta).

Lemma serve_all_preserves int I requests :
  (∀ request, preserves I (serve int request)) →
  ∀ w, I w → I (serve_all int requests w).
Proof.
  intros H. induction requests as [|request requests IH]; intros w Hw; simpl.
  - exact Hw.
  - apply IH, H, Hw.
Qed.

(** ** Reading decimal literals back *)

Lemma digit_of_pretty d :
  (d < 10)%N → digit_of (pretty_N_char d) = Some d.
Proof.
  intros Hd.
  assert (d = 0 ∨ d = 1 ∨ d = 2 ∨ d = 3 ∨ d = 4 ∨ d = 5 ∨ d = 6 ∨ d = 7
          ∨ d = 8 ∨ d = 9)%N as Hcases by lia.
  repeat (destruct Hcases as [->|Hcases]; [reflexivity|]).
  subst d. reflexivity.
Qed.

Lemma decimal_digits_pretty x s :
  decimal_digits (pretty_N_go x s) 0 = decimal_digits s x.
Proof.
  revert s. induction (N.lt_wf_0 x) as [x _ IH]; intros s.
  destruct (decide (x = 0)%N) as [->|Hx].
  - now rewrite pretty_N_go_0.
  - rewrite pretty_N_go_step by lia.
    rewrite IH by (apply N.div_lt; lia). simpl.
    rewrite digit_of_pretty by (apply N.mod_lt; lia).
    f_equal. pose proof (N.div_mod x 10). lia.
Qed.

Lemma pretty_N_go_nonempty x s : s ≠ "" → pretty_N_go x s ≠ "".
Proof.
  revert s. induction (N.lt_wf_0 x) as [x _ IH]; intros s Hs.
  destruct (decide (x = 0)%N) as [->|Hx].
  - now rewrite pretty_N_go_0.
  - rewrite pretty_N_go_step by lia. apply IH; [apply N.div_lt; lia|done].
Qed.

Lemma decimal_nat_pretty (x : N) : decimal_nat (pretty x) = Some x.
Proof.
  unfold pretty, pretty_N. destruct (decide (x = 0)%N) as [->|Hx].
  - reflexivity.
  - assert (Hne : pretty_N_go x "" ≠ "").
    { rewrite pretty_N_go_step by lia. now apply pretty_N_go_nonempty. }
    unfold decimal_nat. destruct (pretty_N_go x "") eqn:E; [done|].
    rewrite <- E. now rewrite decimal_digits_pretty.
Qed.

(** [decimal_int] reads back what [str] writes. *)
Lemma decimal_int_str n : decimal_int (str n) = Some n.
Proof.
  unfold str, pretty, pretty_Z. destruct n as [|p|p].
  - reflexivity.
  - pose proof (decimal_nat_pretty (N.pos p)) as H.
    unfold pretty at 1, pretty_positive.
    unfold decimal_int. destruct (pretty (N.pos p)) as [|c rest] eqn:E.
    + discriminate.
    + case_bool_decide as Hc.
      * unfold decimal_nat, decimal_digits, digit_of in H.
        rewrite Hc in H. discriminate.
      * rewrite H. reflexivity.
  - pose proof (decimal_nat_pretty (N.pos p)) as H.
    change (pretty p) with (pretty (N.pos p)). simpl.
    change ("" +:+ pretty (N.pos p)) with (pretty (N.pos p)).
    rewrite H. reflexivity.
Qed.

(** ** Catalog management *)

Lemma max_product_id_bounds int keys max_id :
  max_id ≤ max_product_id int keys max_id ∧
  ∀ key n, key ∈ keys → int key = Some n →
           n ≤ max_product_id int keys max_id.
Proof.
  revert max_id. induction keys as [|k keys IH]; intros max_id; simpl.
  - split; [lia|]. intros key n Hin. now apply not_elem_of_nil in Hin.
  - destruct (int k) as [pid|] eqn:Ek.
    + destruct (IH (if bool_decide (pid > max_id) then pid else max_id))
        as [Hle Hall].
      split; [case_bool_decide; lia|].
      intros key n Hin Hn. apply elem_of_cons in Hin as [->|Hin].
      * rewrite Ek in Hn. simplify_eq. case_bool_decide; lia.
      * now apply Hall with key.
    + destruct (IH max_id) as [Hle Hall]. split; [done|].
      intros key n Hin Hn. apply elem_of_cons in Hin as [->|Hin].
      * congruence.
      * now apply Hall with key.
Qed.

Lemma get_next_product_id_run int w :
  (∀ n, int (str n) = Some n) →
  ∃ product_id,
    get_next_product_id int w = (Ret product_id, w) ∧
    1 ≤ product_id ∧
    (∀ n p, products w !! str n = Some p → n < product_id) ∧
    products w !! str product_id = None.
Proof.
  intros Hint.
  assert (∃ product_id,
            get_next_product_id int w = (Ret product_id, w) ∧
            1 ≤ product_id ∧
            ∀ n p, products w !! str n = Some p → n < product_id)
    as (pid & E & H1 & Hlt).
  { unfold get_next_product_id, bind, gets, ret. simpl.
    case_bool_decide as He.
    - exists 1. split; [done|]. split; [lia|].
      intros n p Hp. rewrite He in Hp. now rewrite lookup_empty in Hp.
    - destruct (max_product_id_bounds int (map_to_list (products w)).*1 0)
        as [Hle Hall].
      eexists. split; [reflexivity|]. split; [lia|].
      intros n p Hp.
      assert (n ≤ max_product_id int (map_to_list (products w)).*1 0); [|lia].
      apply (Hall (str n)); [|apply Hint].
      apply list_elem_of_fmap. exists (str n, p). split; [done|].
      now apply elem_of_map_to_list. }
  exists pid. repeat split; try done.
  destruct (products w !! str pid) as [p|] eqn:Ep; [|done].
  specialize (Hlt pid p Ep). lia.
Qed.

(** X1. With an [int] that reads back the keys [str] writes, the id
    [get_next_product_id] returns is at least 1, greater than the id of
    every product of the catalog, and its key is not in the catalog. *)
Theorem get_next_product_id_fresh int w :
  (∀ n, int (str n) = Some n) →
  ∃ product_id,
    get_next_product_id int w = (Ret product_id, w) ∧
    1 ≤ product_id ∧
    (∀ n p, products w !! str n = Some p → n < product_id) ∧
    products w !! str product_id = None.
Proof. apply get_next_product_id_run. Qed.

Lemma get_next_product_id_fresh_witness :
  ∃ product_id,
    get_next_product_id decimal_int sample_world
    = (Ret product_id, sample_world) ∧
    1 ≤ product_id ∧
    (∀ n p, products sample_world !! str n = Some p → n < product_id) ∧
    products sample_world !! str product_id = None.
Proof.
  apply (get_next_product_id_fresh decimal_int sample_world decimal_int_str).
Defined.

Lemma load_products_run force w :
  ∃ loaded, load_products force w = (Ret loaded, (load_products force w).2).
Proof.
  destruct (load_products_returns force w) as [loaded H].
  exists loaded. destruct (load_products force w). simpl in *. now subst.
Qed.

(** X2. The contract of [add_product], whichever file operations fail.
    The key of the new product is not in the catalog the reload left in
    memory, so no product is overwritten.  The call reports success, with
    that id, only when the save went through, and then memory and
    products.json both hold the catalog with the new product added (active,
    priced at twice its cost); otherwise it reports that the save failed
    and memory holds the reloaded catalog again. *)
Theorem add_product_contract int product_data w :
  (∀ n, int (str n) = Some n) →
  let w1 := (load_products true w).2 in
  let run := add_product int product_data w in
  ∃ product_id,
    products w1 !! str product_id = None ∧
    ((run.1 = Ret (ProductAdded product_id) ∧
      products run.2
      = <[str product_id :=
            mkProduct product_id (pd_name product_data) (pd_brand product_data)
              (pd_stock product_data) (pd_cost product_data)
              (pd_cost product_data * 2) true]> (products w1) ∧
      products_file run.2 = products run.2) ∨
     (run.1 = Ret (CatalogFailed FailedToSaveProducts) ∧
      products run.2 = products w1)).
Proof.
  intros Hint. cbv zeta.
  destruct (load_products_catalog true w) as [Hfile _].
  destruct (load_products_run true w) as [loaded EL].
  destruct (load_products true w) as [r0 w1] eqn:E0. simpl in *.
  injection EL as ->.
  destruct (get_next_product_id_run int w1 Hint) as (pid & Eid & _ & _ & Hfresh).
  exists pid. split; [exact Hfresh|].
  unfold add_product, try_except.
  rewrite (bind_ret _ _ _ _ _ E0), (bind_ret _ _ _ _ _ Eid).
  unfold bind, modify, save_products, try_except, bind, gets, file_op, ret.
  simpl. destruct (faults w1) as [|[e|] rest]; simpl.
  - left. done.
  - right. split; [done|]. now rewrite delete_insert_id.
  - left. done.
Qed.

Lemma add_product_contract_witness :
  let product_data := mkProductData "Lip Balm" "Nivea" 40 120 in
  let w1 := (load_products true sample_world).2 in
  let run := add_product decimal_int product_data sample_world in
  ∃ product_id,
    products w1 !! str product_id = None ∧
    ((run.1 = Ret (ProductAdded product_id) ∧
      products run.2
      = <[str product_id :=
            mkProduct product_id (pd_name product_data) (pd_brand product_data)
              (pd_stock product_data) (pd_cost product_data)
              (pd_cost product_data * 2) true]> (products w1) ∧
      products_file run.2 = products run.2) ∨
     (run.1 = Ret (CatalogFailed FailedToSaveProducts) ∧
      products run.2 = products w1)).
Proof.
  apply (add_product_contract decimal_int
           (mkProductData "Lip Balm" "Nivea" 40 120) sample_world
           decimal_int_str).
Defined.

Lemma bind_modify {B} (f : World → World) (k : unit → M B) w :
  bind (modify f) k w = k tt (f w).
Proof. reflexivity. Qed.

Lemma bind_gets {A B} (f : World → A) (k : A → M B) w :
  bind (gets f) k w = k (f w) w.
Proof. reflexivity. Qed.

Lemma save_products_run w :
  ∃ saved w',
    save_products w = (Ret saved, w') ∧
    products w' = products w ∧
    products_file w' = (if saved then products w else products_file w) ∧
    (faults w = [] → saved = true ∧ faults w' = []).
Proof.
  unfold save_products, try_except, bind, gets, file_op, modify, ret.
  destruct (faults w) as [|[e|] rest] eqn:Ef; simpl; eexists _, _;
    (split; [reflexivity|]); simpl; repeat split; try done.
Qed.

(** What [update_product] and [delete_product] share: reload, look the
    product up, change it in memory, save, and reload again when the save
    failed. *)
Lemma change_product_contract (change : Product → Product) product_id w
    (run : Outcome CatalogResult * World) :
  run = try_except
          (load_products true >>
           let* ps := gets products in
           match ps !! str product_id with
           | None => ret (CatalogFailed CatalogProductNotFound)
           | Some _ =>
               modify (λ w, set_products
                              (alter change (str product_id) (products w)) w) >>
               let* saved := save_products in
               if saved then ret CatalogSaved
               else
                 load_products true >>
                 ret (CatalogFailed FailedToSaveProducts)
           end)
          (λ e, ret (CatalogFailed (CatalogUnexpected e))) w →
  let w1 := (load_products true w).2 in
  match products w1 !! str product_id with
  | None =>
      run.1 = Ret (CatalogFailed CatalogProductNotFound) ∧
      products run.2 = products w1 ∧
      products_file run.2 = products_file w
  | Some _ =>
      let changed := alter change (str product_id) (products w1) in
      (run.1 = Ret CatalogSaved ∧
       products run.2 = changed ∧ products_file run.2 = changed) ∨
      (run.1 = Ret (CatalogFailed FailedToSaveProducts) ∧
       products_file run.2 = products_file w ∧
       (products run.2 = changed ∨ products run.2 = products_file w))
  end.
Proof.
  intros ->. cbv zeta.
  destruct (load_products_catalog true w) as [Hfile _].
  destruct (load_products_run true w) as [loaded EL].
  destruct (load_products true w) as [r0 w1] eqn:E0. simpl in *.
  injection EL as ->.
  unfold try_except. rewrite (bind_ret _ _ _ _ _ E0), bind_gets.
  destruct (products w1 !! str product_id) as [p|] eqn:Ep; [|done].
  rewrite bind_modify.
  destruct (save_products_run
              (set_products (alter change (str product_id) (products w1)) w1))
    as (saved & w3 & ES & Hm & Hf & _).
  rewrite (bind_ret _ _ _ _ _ ES). simpl in Hm, Hf.
  destruct saved; simpl.
  - left. done.
  - right.
    destruct (load_products_catalog true w3) as [Hfile3 Hmem3].
    destruct (load_products_run true w3) as [l3 E3].
    rewrite (bind_ret _ _ _ _ _ E3). simpl.
    rewrite Hfile3, Hf, Hfile. split; [done|]. split; [done|].
    destruct Hmem3 as [->|[_ ->]]; [left; done|right; congruence].
Qed.

(** X3. The contract of [update_product], whichever file operations
    fail.  For an id the reloaded catalog does not have it answers 'Product
    not found', memory holds the reloaded catalog and nothing is written.
    Otherwise the fields of [product_data] replace those of that product,
    and of no other, the price becoming twice the cost when a cost is
    given; the call reports success only when the save went through, and
    then memory and products.json both hold the edited catalog; when it
    reports the failed save, memory holds either the edit that was not
    saved or what products.json holds. *)
Theorem update_product_contract product_id product_data w :
  let w1 := (load_products true w).2 in
  let run := update_product product_id product_data w in
  match products w1 !! str product_id with
  | None =>
      run.1 = Ret (CatalogFailed CatalogProductNotFound) ∧
      products run.2 = products w1 ∧
      products_file run.2 = products_file w
  | Some _ =>
      let edited :=
        alter (apply_edit product_data) (str product_id) (products w1) in
      (run.1 = Ret CatalogSaved ∧
       products run.2 = edited ∧ products_file run.2 = edited) ∨
      (run.1 = Ret (CatalogFailed FailedToSaveProducts) ∧
       (products run.2 = edited ∨ products run.2 = products_file run.2))
  end.
Proof.
  cbv zeta.
  pose proof (change_product_contract (apply_edit product_data) product_id w
                _ eq_refl) as H.
  cbv zeta in H. fold (update_product product_id product_data w) in H.
  destruct (products (load_products true w).2 !! str product_id);
    [|exact H].
  destruct H as [H|(R & F & M)]; [left; exact H|right].
  split; [exact R|].
  destruct M as [M|M]; [left; exact M|right; now rewrite F].
Qed.

(** X4. The undo of [update_product] after a failed save is a forced
    reload, and a forced reload does nothing during the half second that
    follows the previous one.  When the save fails and the environment
    answers "under half a second" to that reload, the call reports the
    failure while the dict in memory keeps the edit that products.json does
    not have. *)
Theorem update_product_failed_save_keeps_edit product_id product_data w
    p p0 e more rest :
  let w1 := (load_products true w).2 in
  let run := update_product product_id product_data w in
  products w1 !! str product_id = Some p →
  products_file w !! str product_id = Some p0 →
  faults w1 = Some e :: more →
  timing w1 = UnderHalfSecond :: rest →
  run.1 = Ret (CatalogFailed FailedToSaveProducts) ∧
  products run.2 !! str product_id = Some (apply_edit product_data p) ∧
  products_file run.2 !! str product_id = Some p0.
Proof.
  cbv zeta. intros Hp Hp0 Hfaults Htiming.
  destruct (load_products_catalog true w) as [Hfile _].
  destruct (load_products_run true w) as [loaded EL].
  destruct (load_products true w) as [r0 w1] eqn:E0. simpl in *.
  injection EL as ->.
  unfold update_product, try_except.
  rewrite (bind_ret _ _ _ _ _ E0), bind_gets, Hp, bind_modify.
  unfold save_products, load_products, try_except, bind, gets, file_op,
    since_last_update, modify, ret.
  simpl. rewrite Hfaults. simpl. rewrite Htiming. simpl.
  rewrite lookup_alter_eq, Hp, Hfile. done.
Qed.

Lemma update_product_failed_save_keeps_edit_witness :
  let w := set_faults [Some "disk full"]
             (set_timing [UnderHalfSecond; UnderHalfSecond] sample_world) in
  let product_data := edit_form (mkProductData "Serum" "Garnier" 10 150) in
  let run := update_product 1 product_data w in
  run.1 = Ret (CatalogFailed FailedToSaveProducts) ∧
  products run.2 !! str 1
  = Some (apply_edit product_data
            (mkProduct 1 "Vitamin C Serum" "Garnier" 265 100 200 true)) ∧
  products_file run.2 !! str 1
  = Some (mkProduct 1 "Vitamin C Serum" "Garnier" 265 100 200 true).
Proof.
  cbv zeta.
  apply (update_product_failed_save_keeps_edit 1 _ _ _ _ "disk full" [] []);
    reflexivity.
Defined.

(** ** A product that was deleted *)

Lemma delete_product_ok product_id w p :
  synced w → faults w = [] →
  products w !! str product_id = Some p →
  delete_product product_id w
  = (Ret CatalogSaved,
     commit (alter (with_is_active false) (str product_id) (products w))
       (tick w)).
Proof.
  intros Hs Hf Hp. unfold delete_product. apply try_ret.
  rewrite (bind_ret _ _ _ _ _ (load_products_ok true w Hs Hf)), bind_gets.
  simpl. rewrite Hp, bind_modify.
  erewrite bind_ret by (apply save_products_ok; exact Hf).
  reflexivity.
Qed.

(** X5. [delete_product] only marks a product inactive: the pages stop
    listing it, but the purchase flow never reads that mark.  Without file
    faults, once a product was deleted a purchase that names its id still
    completes, takes the units from its stock and debits the wallet. *)
Theorem deleted_product_still_sold customer_id verify_name product_id qty w
    p wallet :
  synced w → faults w = [] →
  products w !! str product_id = Some p →
  0 < qty → qty + qty / 3 ≤ p_stock p →
  wallets_file w !! str customer_id = Some wallet →
  0 ≤ p_cost p * 2 * qty ≤ wl_balance wallet →
  let deleted := delete_product product_id w in
  let sold := purchase customer_id verify_name [(product_id, qty)] deleted.2 in
  deleted.1 = Ret CatalogSaved ∧
  listed_products (products deleted.2) !! str product_id = None ∧
  sold.1 = Ret (Redirect "invoice") ∧
  new_flashes deleted.2 sold.2 = [PurchaseCompleted] ∧
  products_file sold.2 !! str product_id
  = Some (with_stock (p_stock p - (qty + qty / 3)) (with_is_active false p)) ∧
  balance_of customer_id sold.2 = wl_balance wallet - p_cost p * 2 * qty.
Proof.
  intros Hs Hf Hp Hqty Hstock Hw Hpay. cbv zeta.
  rewrite (delete_product_ok product_id w p Hs Hf Hp). simpl.
  set (ps1 := alter (with_is_active false) (str product_id) (products w)).
  set (w1 := commit ps1 (tick w)).
  assert (Hp1 : ps1 !! str product_id = Some (with_is_active false p))
    by (unfold ps1; now rewrite lookup_alter_eq, Hp).
  assert (Hitems : collect_items [(product_id, qty)] = [(product_id, qty)]).
  { unfold collect_items. rewrite filter_cons_True by (simpl; lia). done. }
  split; [done|]. split.
  { apply map_lookup_filter_None. right. intros x Hx. simpl.
    rewrite Hp1 in Hx. simplify_eq. simpl. done. }
  destruct (purchase_completed_effects customer_id verify_name
              [(product_id, qty)] w1 wallet (p_cost p * 2 * qty)
              [mkItem (p_name p) qty (qty / 3) (p_cost p * 2 * qty)])
    as (R & F & P & B & _).
  - reflexivity.
  - exact Hf.
  - now rewrite Hitems.
  - rewrite Hitems. simpl. apply NoDup_singleton.
  - rewrite Hitems. intros pid q Hin.
    apply list_elem_of_singleton in Hin. simplify_eq. simpl. now rewrite Hp1.
  - rewrite Hitems. simpl. rewrite Hp1. simpl.
    rewrite bool_decide_eq_false_2 by lia. done.
  - exact Hw.
  - exact Hpay.
  - split; [exact R|]. split; [exact F|]. split; [|exact B].
    rewrite P, Hitems. simpl. unfold deduct_lines, deduct_line. simpl.
    rewrite lookup_alter_eq, Hp1. done.
Qed.

Lemma deleted_product_still_sold_witness :
  let deleted := delete_product 1 sample_world in
  let sold := purchase 7 "Asha" [(1, 6)] deleted.2 in
  deleted.1 = Ret CatalogSaved ∧
  listed_products (products deleted.2) !! str 1 = None ∧
  sold.1 = Ret (Redirect "invoice") ∧
  new_flashes deleted.2 sold.2 = [PurchaseCompleted] ∧
  products_file sold.2 !! str 1
  = Some (with_stock (265 - (6 + 6 / 3))
            (with_is_active false
               (mkProduct 1 "Vitamin C Serum" "Garnier" 265 100 200 true))) ∧
  balance_of 7 sold.2 = 5000 - 100 * 2 * 6.
Proof.
  apply (deleted_product_still_sold 7 "Asha" 1 6 sample_world
           (mkProduct 1 "Vitamin C Serum" "Garnier" 265 100 200 true)
           (mkWallet "Asha" "4242" 5000));
    first [reflexivity | vm_compute; done | split; vm_compute; done].
Defined.

(** ** Invariants of the catalog under every request *)

(** The catalog steps and a property [Q] that every product has, in memory
    and in products.json. *)
Lemma load_products_all (Q : Product → Prop) force :
  preserves (λ w, map_Forall (λ _, Q) (products w) ∧
                  map_Forall (λ _, Q) (products_file w))
    (load_products force).
Proof.
  intros w [Hm Hf].
  destruct (load_products_catalog force w) as [Ef [Ep|[_ Ep]]];
    rewrite Ef, Ep; auto.
Qed.

Lemma save_products_all (Q : Product → Prop) :
  preserves (λ w, map_Forall (λ _, Q) (products w) ∧
                  map_Forall (λ _, Q) (products_file w))
    save_products.
Proof.
  intros w [Hm Hf].
  destruct (save_products_run w) as (saved & w' & E & Em & Ef & _).
  rewrite E. simpl. rewrite Em, Ef. now destruct saved.
Qed.

Lemma alter_product_all (Q : Product → Prop) f key :
  (∀ p, Q p → Q (f p)) →
  preserves (λ w, map_Forall (λ _, Q) (products w) ∧
                  map_Forall (λ _, Q) (products_file w))
    (modify (λ w, set_products (alter f key (products w)) w)).
Proof.
  intros HQ w [Hm Hf]. simpl. split; [|done].
  intros k p. destruct (decide (key = k)) as [<-|Hne].
  - rewrite lookup_alter_eq. destruct (products w !! key) eqn:E; simpl; [|done].
    intros [= <-]. apply HQ. now apply (Hm key).
  - rewrite lookup_alter_ne by done. apply Hm.
Qed.

Lemma insert_product_all (Q : Product → Prop) key p :
  Q p →
  preserves (λ w, map_Forall (λ _, Q) (products w) ∧
                  map_Forall (λ _, Q) (products_file w))
    (modify (λ w, set_products (<[key := p]> (products w)) w)).
Proof.
  intros HQ w [Hm Hf]. simpl. split; [|done].
  now apply map_Forall_insert_2.
Qed.

Lemma delete_product_all (Q : Product → Prop) key :
  preserves (λ w, map_Forall (λ _, Q) (products w) ∧
                  map_Forall (λ _, Q) (products_file w))
    (modify (λ w, set_products (delete key (products w)) w)).
Proof.
  intros w [Hm Hf]. simpl. split; [|done]. now apply map_Forall_delete.
Qed.

Lemma catalog_all_view (Q : Product → Prop) w w' :
  (products w', products_file w') = (products w, products_file w) →
  map_Forall (λ _, Q) (products w) ∧ map_Forall (λ _, Q) (products_file w) →
  map_Forall (λ _, Q) (products w') ∧ map_Forall (λ _, Q) (products_file w').
Proof. intros [= -> ->]. done. Qed.

(** The steps of a flow that touch the catalog, for a property [Q] whose
    side conditions [side] proves. *)
Ltac catalog_special Q side :=
  first
    [ apply (load_products_all Q)
    | apply (save_products_all Q)
    | apply (alter_product_all Q); side
    | apply (insert_product_all Q); side
    | apply (delete_product_all Q) ].

Ltac catalog_closing Q :=
  solve [ apply (preserves_of_keeps (λ w, (products w, products_file w)));
          [apply (catalog_all_view Q)|keeps_auto] ].

Lemma serve_pricing int request :
  preserves pricing_invariant (serve int request).
Proof.
  pose (Q := λ p, p_price p = p_cost p * 2).
  change (preserves (λ w, map_Forall (λ _, Q) (products w) ∧
                          map_Forall (λ _, Q) (products_file w))
            (serve int request)).
  destruct request; unfold serve;
    inv_auto ltac:(catalog_special Q ltac:(first [done | now intros []]))
             ltac:(catalog_closing Q).
Qed.

(** X6. The selling price stays twice the cost.  If that holds of every
    product in memory and in products.json, it still holds after any
    sequence of purchases, restocks, wallet requests and catalog edits of
    the admin, whatever the file system does; so the price the pages show
    is the amount per unit a purchase charges. *)
Theorem price_stays_twice_cost int requests w :
  pricing_invariant w →
  pricing_invariant (serve_all int requests w) ∧
  ∀ key p qty,
    products (serve_all int requests w) !! key = Some p →
    line_price (p_cost p) qty = p_price p * qty.
Proof.
  intros Hw.
  assert (H : pricing_invariant (serve_all int requests w))
    by (apply serve_all_preserves; [apply serve_pricing|exact Hw]).
  split; [exact H|].
  intros key p qty Hp. destruct H as [Hm _]. unfold line_price.
  now rewrite (Hm key p Hp).
Qed.

Lemma sample_world_pricing : pricing_invariant sample_world.
Proof.
  assert (H : map_Forall (λ _ p, p_price p = p_cost p * 2) sample_products).
  { unfold sample_products.
    repeat (apply map_Forall_insert_2; [reflexivity|]). apply map_Forall_empty. }
  split; exact H.
Qed.

Lemma price_stays_twice_cost_witness :
  let requests :=
    [EditProductRequest 1 (mkProductData "Serum" "Garnier" 10 150);
     AddProductRequest (mkProductData "Lip Balm" "Nivea" 40 120);
     ShopRequest (PurchaseOp 7 "Asha" [(1, 6)])] in
  pricing_invariant sample_world ∧
  pricing_invariant (serve_all decimal_int requests sample_world) ∧
  ∀ key p qty,
    products (serve_all decimal_int requests sample_world) !! key = Some p →
    line_price (p_cost p) qty = p_price p * qty.
Proof.
  split; [exact sample_world_pricing|].
  apply (price_stays_twice_cost decimal_int _ sample_world sample_world_pricing).
Defined.

Lemma serve_stock int request :
  stock_input_nonneg request → preserves stock_invariant (serve int request).
Proof.
  intros Hsane.
  pose (Q := λ p, 0 ≤ p_stock p).
  destruct request as [op| | | | |]; unfold serve.
  1: { apply preserves_bind; [apply run_operation_stock|].
       intros; apply preserves_ret. }
  all: change (preserves (λ w, map_Forall (λ _, Q) (products w) ∧
                               map_Forall (λ _, Q) (products_file w)) ?m)
         with (preserves stock_invariant m);
       simpl in Hsane;
       inv_auto ltac:(catalog_special Q
                        ltac:(first [done | now intros [] | now simpl]))
                ltac:(catalog_closing Q).
Qed.

Lemma Forall_serve_all int (ok : Request → Prop) I requests :
  (∀ request, ok request → preserves I (serve int request)) →
  Forall ok requests → ∀ w, I w → I (serve_all int requests w).
Proof.
  intros H Hall. induction Hall as [|request requests Hok _ IH];
    intros w Hw; simpl.
  - exact Hw.
  - apply IH. now apply H.
Qed.

(** X7. The stock invariant of the store extends to the catalog pages of
    the admin as long as the stock fields they submit are not negative:
    after any sequence of purchases, restocks, wallet requests and such
    catalog requests, whatever the file system does, no product has a
    negative stock, in memory or in products.json. *)
Theorem stock_never_negative_under_requests int requests w :
  Forall stock_input_nonneg requests →
  stock_invariant w →
  stock_invariant (serve_all int requests w).
Proof.
  intros Hall Hw.
  apply (Forall_serve_all int stock_input_nonneg); auto using serve_stock.
Qed.

Lemma sample_world_stock : stock_invariant sample_world.
Proof.
  assert (H : map_Forall (λ _ p, 0 ≤ p_stock p) sample_products).
  { unfold sample_products.
    repeat (apply map_Forall_insert_2; [simpl; lia|]). apply map_Forall_empty. }
  split; exact H.
Qed.

Lemma stock_never_negative_under_requests_witness :
  let requests :=
    [EditProductRequest 1 (mkProductData "Serum" "Garnier" 10 150);
     AddProductRequest (mkProductData "Lip Balm" "Nivea" 40 120);
     ShopRequest (PurchaseOp 7 "Asha" [(1, 6)]);
     DeleteProductRequest 2] in
  Forall stock_input_nonneg requests ∧
  stock_invariant sample_world ∧
  stock_invariant (serve_all decimal_int requests sample_world).
Proof.
  cbv zeta.
  assert (Hall : Forall stock_input_nonneg
            [EditProductRequest 1 (mkProductData "Serum" "Garnier" 10 150);
             AddProductRequest (mkProductData "Lip Balm" "Nivea" 40 120);
             ShopRequest (PurchaseOp 7 "Asha" [(1, 6)]);
             DeleteProductRequest 2])
    by (repeat constructor; simpl; lia).
  split; [exact Hall|]. split; [exact sample_world_stock|].
  apply (stock_never_negative_under_requests decimal_int _ sample_world Hall
           sample_world_stock).
Defined.

Lemma update_product_ok product_id product_data w p :
  synced w → faults w = [] →
  products w !! str product_id = Some p →
  update_product product_id product_data w
  = (Ret CatalogSaved,
     commit (alter (apply_edit product_data) (str product_id) (products w))
       (tick w)).
Proof.
  intros Hs Hf Hp. unfold update_product. apply try_ret.
  rewrite (bind_ret _ _ _ _ _ (load_products_ok true w Hs Hf)), bind_gets.
  simpl. rewrite Hp, bind_modify.
  erewrite bind_ret by (apply save_products_ok; exact Hf).
  reflexivity.
Qed.

(** X8. Neither [admin_edit_product] nor [update_product] checks the
    stock it is given.  Without file faults, editing a product of the
    catalog with a negative stock succeeds, the negative stock is written
    to products.json, and the stock invariant is lost. *)
Theorem edit_product_accepts_negative_stock product_id product_data w p :
  synced w → faults w = [] →
  products w !! str product_id = Some p →
  pd_stock product_data < 0 →
  let run := admin_edit_product product_id product_data w in
  run.1 = Ret (Redirect "admin_products",
               Some (ProductUpdatedSuccessfully (pd_name product_data))) ∧
  products_file run.2 !! str product_id
  = Some (mkProduct (p_id p) (pd_name product_data) (pd_brand product_data)
            (pd_stock product_data) (pd_cost product_data)
            (pd_cost product_data * 2) (p_is_active p)) ∧
  ¬ stock_invariant run.2.
Proof.
  intros Hs Hf Hp Hneg. cbv zeta. unfold admin_edit_product.
  unfold ensure_products_reload.
  rewrite (bind_ret _ _ _ _ _ (load_products_ok true w Hs Hf)), bind_gets.
  simpl. rewrite Hp.
  assert (Hs1 : synced (tick w)) by exact Hs.
  assert (Hf1 : faults (tick w) = []) by exact Hf.
  assert (Hp1 : products (tick w) !! str product_id = Some p) by exact Hp.
  rewrite (bind_ret _ _ _ _ _
             (update_product_ok product_id (edit_form product_data) (tick w) p
                Hs1 Hf1 Hp1)).
  simpl. split; [done|].
  assert (Hl : alter (apply_edit (edit_form product_data)) (str product_id)
                 (products w) !! str product_id
               = Some (mkProduct (p_id p) (pd_name product_data)
                         (pd_brand product_data) (pd_stock product_data)
                         (pd_cost product_data) (pd_cost product_data * 2)
                         (p_is_active p)))
    by (now rewrite lookup_alter_eq, Hp).
  split; [exact Hl|].
  intros [_ Hfile]. simpl in Hfile. specialize (Hfile _ _ Hl). simpl in Hfile.
  lia.
Qed.

Lemma edit_product_accepts_negative_stock_witness :
  let product_data := mkProductData "Serum" "Garnier" (-5) 150 in
  let run := admin_edit_product 1 product_data sample_world in
  run.1 = Ret (Redirect "admin_products",
               Some (ProductUpdatedSuccessfully "Serum")) ∧
  products_file run.2 !! str 1
  = Some (mkProduct 1 "Serum" "Garnier" (-5) 150 (150 * 2) true) ∧
  ¬ stock_invariant run.2.
Proof.
  apply (edit_product_accepts_negative_stock 1
           (mkProductData "Serum" "Garnier" (-5) 150) sample_world
           (mkProduct 1 "Vitamin C Serum" "Garnier" 265 100 200 true));
    first [reflexivity | vm_compute; done].
Defined.

(** ** Loyalty points *)

Lemma points_bounded_view w w' :
  customers_file w' = customers_file w → points_bounded w → points_bounded w'.
Proof. unfold points_bounded. now intros ->. Qed.

Lemma points_bounded_insert w w' key c :
  points_bounded w → 100 * c_points c ≤ c_total_spent c →
  customers_file w' = <[key := c]> (customers_file w) →
  points_bounded w'.
Proof.
  intros Hw Hc E k x. rewrite E. destruct (decide (key = k)) as [<-|Hne].
  - rewrite lookup_insert_eq. now intros [= <-].
  - rewrite lookup_insert_ne by done. apply Hw.
Qed.

Lemma update_customer_purchase_points customer_id amount :
  preserves points_bounded (update_customer_purchase customer_id amount).
Proof.
  intros w Hw.
  assert (Hc : ∀ c now, 100 * c_points c ≤ c_total_spent c →
            100 * c_points (mkCustomer (c_name c) (c_total_spent c + amount)
                              (c_purchase_count c + 1)
                              (c_points c + amount / 100) now)
            ≤ c_total_spent (mkCustomer (c_name c) (c_total_spent c + amount)
                               (c_purchase_count c + 1)
                               (c_points c + amount / 100) now)).
  { intros c now Ec. simpl. pose proof (Z.mul_div_le amount 100). lia. }
  unfold update_customer_purchase, try_except, bind, file_op, gets, modify,
    ret.
  destruct (faults w) as [|[e|] rest] eqn:Ef; simpl; try done;
    destruct (customers_file w !! str customer_id) as [c|] eqn:Ec; simpl;
    rewrite ?Ef; simpl; try done.
  - eapply (points_bounded_insert w _ _ _ Hw (Hc c _ (Hw _ _ Ec))).
    reflexivity.
  - destruct rest as [|[e|] rest]; simpl; try done;
      eapply (points_bounded_insert w _ _ _ Hw (Hc c _ (Hw _ _ Ec)));
      reflexivity.
Qed.

Ltac points_closing :=
  solve [ apply (preserves_of_keeps customers_file);
          [apply points_bounded_view|keeps_auto] ].

Lemma serve_points int request :
  preserves points_bounded (serve int request).
Proof.
  destruct request as [[| ]| | | | |]; unfold serve;
    inv_auto ltac:(apply update_customer_purchase_points) points_closing.
Qed.

(** X9. A customer never holds more than one loyalty point per 100
    spent: if 100 x points <= total_spent holds of every customer record, it
    still holds after any sequence of requests, whatever the file system
    does.  (Each purchase earns amount // 100 points, so the remainders of
    separate purchases are never added up.) *)
Theorem points_never_exceed_spending int requests w :
  points_bounded w → points_bounded (serve_all int requests w).
Proof. apply serve_all_preserves, serve_points. Qed.

Lemma sample_world_points : points_bounded sample_world.
Proof.
  intros key c H. simpl in H. apply lookup_singleton_Some in H as [_ <-].
  simpl. lia.
Qed.

Lemma points_never_exceed_spending_witness :
  let requests :=
    [ShopRequest (PurchaseOp 7 "Asha" [(1, 6)]);
     ShopRequest (PurchaseOp 7 "Asha" [(2, 1)])] in
  points_bounded sample_world ∧
  points_bounded (serve_all decimal_int requests sample_world).
Proof.
  split; [exact sample_world_points|].
  apply (points_never_exceed_spending decimal_int _ sample_world
           sample_world_points).
Defined.

(** ** Wallets are never overdrawn *)

Lemma wallets_nonneg_view w w' :
  wallets_file w' = wallets_file w → wallets_nonneg w → wallets_nonneg w'.
Proof. unfold wallets_nonneg. now intros ->. Qed.

Lemma wallets_nonneg_insert w w' key wallet :
  wallets_nonneg w → 0 ≤ wl_balance wallet →
  wallets_file w' = <[key := wallet]> (wallets_file w) →
  wallets_nonneg w'.
Proof.
  intros Hw Hb E k x. rewrite E. destruct (decide (key = k)) as [<-|Hne].
  - rewrite lookup_insert_eq. now intros [= <-].
  - rewrite lookup_insert_ne by done. apply Hw.
Qed.

(** The balance [get_wallet_balance] reports never exceeds the balance of
    the wallet, when no wallet is overdrawn: it is that balance, or 0 when
    the file could not be read or has no wallet for the customer. *)
Lemma get_wallet_balance_bound customer_id w :
  wallets_nonneg w →
  ∃ balance w1,
    get_wallet_balance customer_id w = (Ret balance, w1) ∧
    wallets_file w1 = wallets_file w ∧
    ∀ wallet, wallets_file w !! str customer_id = Some wallet →
              balance ≤ wl_balance wallet.
Proof.
  intros Hw.
  unfold get_wallet_balance, get_customer_wallet, try_except, bind, file_op,
    gets, ret.
  destruct (faults w) as [|[e|] rest]; simpl.
  - destruct (wallets_file w !! str customer_id) as [wl|] eqn:E;
      eexists _, _; (split; [reflexivity|]); split; try done.
    intros wallet [= <-]. lia.
  - eexists _, _. split; [reflexivity|]. split; [done|].
    intros wallet Hl. apply (Hw _ _ Hl).
  - destruct (wallets_file w !! str customer_id) as [wl|] eqn:E;
      eexists _, _; (split; [reflexivity|]); split; try done.
    intros wallet [= <-]. lia.
Qed.

(** A balance change that leaves the wallet of the customer non-negative
    leaves every wallet non-negative, whatever the file system does. *)
Lemma update_wallet_balance_nonneg customer_id amount w :
  wallets_nonneg w →
  (∀ wallet, wallets_file w !! str customer_id = Some wallet →
             0 ≤ wl_balance wallet + amount) →
  wallets_nonneg (update_wallet_balance customer_id amount w).2.
Proof.
  intros Hw Hb.
  assert (Hlog : ∀ ty amt d b w2,
            wallets_nonneg w2 →
            wallets_nonneg
              (log_customer_transaction customer_id ty amt d b w2).2).
  { intros ty amt d b.
    apply (preserves_of_keeps wallets_file); [apply wallets_nonneg_view|].
    keeps_auto. }
  unfold update_wallet_balance, try_except.
  unfold bind at 1, file_op.
  destruct (faults w) as [|[e|] rest] eqn:Ef; simpl; try exact Hw;
    rewrite bind_gets; simpl;
    (destruct (wallets_file w !! str customer_id) as [wallet|] eqn:E;
     [|exact Hw]);
    unfold bind at 1, file_op; simpl; rewrite ?Ef;
    [|destruct rest as [|[e|] rest]; simpl];
    first
      [ exact Hw
      | (eapply (wallets_nonneg_insert w); [exact Hw| |reflexivity]);
        simpl; now apply Hb
      | rewrite bind_modify; unfold bind at 1;
        match goal with
        | |- context [log_customer_transaction ?a ?b ?c ?d ?e ?W] =>
            pose proof (Hlog b c d e W) as HL;
            destruct (log_customer_transaction a b c d e W) as [[?|?] w3]
        end; simpl in *; apply HL;
        (eapply (wallets_nonneg_insert w); [exact Hw| |reflexivity]);
        simpl; now apply Hb ].
Qed.

(** Two ways to chain a step to what follows it: the step preserves the
    precondition [I] and what follows turns it into [J]; or the step turns
    the world into one where [J] holds and what follows preserves [J]. *)
Lemma bind_leads {A B} (I J : World → Prop) (m : M A) (k : A → M B) w :
  preserves I m → (∀ w', I w' → J w') →
  (∀ a w', I w' → J (k a w').2) →
  I w → J (bind m k w).2.
Proof.
  intros Hm HIJ Hk Hw. unfold bind. specialize (Hm w Hw).
  destruct (m w) as [[a|e] w1]; simpl in *; auto.
Qed.

Lemma bind_after {A B} (J : World → Prop) (m : M A) (k : A → M B) w :
  J (m w).2 → (∀ a, preserves J (k a)) → J (bind m k w).2.
Proof.
  intros Hm Hk. unfold bind.
  destruct (m w) as [[a|e] w1]; simpl in *; [now apply Hk|done].
Qed.

Lemma try_after {A} (J : World → Prop) (m : M A) h w :
  J (m w).2 → (∀ e, preserves J (h e)) → J (try_except m h w).2.
Proof.
  intros Hm Hh. unfold try_except.
  destruct (m w) as [[a|e] w1]; simpl in *; [done|now apply Hh].
Qed.

Ltac wallets_closing :=
  solve [ apply (preserves_of_keeps wallets_file);
          [apply wallets_nonneg_view|keeps_auto] ].

(** [covered customer_id balance w]: no wallet is overdrawn and the wallet
    of the customer holds at least [balance]. *)
Lemma covered_view customer_id (balance : Z) w w' :
  wallets_file w' = wallets_file w →
  wallets_nonneg w ∧
  (∀ wallet, wallets_file w !! str customer_id = Some wallet →
             balance ≤ wl_balance wallet) →
  wallets_nonneg w' ∧
  (∀ wallet, wallets_file w' !! str customer_id = Some wallet →
             balance ≤ wl_balance wallet).
Proof. unfold wallets_nonneg. now intros ->. Qed.

Lemma purchase_try_wallets customer_id verify_name items balance w :
  wallets_nonneg w →
  (∀ wallet, wallets_file w !! str customer_id = Some wallet →
             balance ≤ wl_balance wallet) →
  wallets_nonneg
    (purchase_try customer_id verify_name items balance w).2.
Proof.
  intros Hw Hb.
  pose (J := λ w', wallets_nonneg w' ∧
                   ∀ wallet, wallets_file w' !! str customer_id = Some wallet →
                             balance ≤ wl_balance wallet).
  assert (HJ : J w) by (split; assumption).
  assert (Hkeep : ∀ A (m : M A), keeps wallets_file m → preserves J m).
  { intros A m K. apply (preserves_of_keeps wallets_file); [|exact K].
    apply covered_view. }
  unfold purchase_try. rewrite bind_gets.
  destruct (check_stock (products w) items 0 []) as [[name available]|[total its]];
    [exact Hw|].
  case_bool_decide as Hcmp; [exact Hw|].
  apply (bind_leads J wallets_nonneg); [apply Hkeep; keeps_auto|now intros ? []| |exact HJ].
  intros updated w1 HJ1. destruct updated; simpl; [|apply HJ1].
  unfold datefunction. rewrite bind_gets.
  apply (bind_leads J wallets_nonneg); [apply Hkeep; keeps_auto|now intros ? []| |exact HJ1].
  intros filename w2 [Hw2 Hb2]. destruct filename as [invoice|]; [|exact Hw2].
  apply bind_after.
  - apply update_wallet_balance_nonneg; [exact Hw2|].
    intros wallet Hl. specialize (Hb2 wallet Hl). lia.
  - intros new_balance. inv_auto fail wallets_closing.
Qed.

Lemma purchase_wallets customer_id verify_name form :
  preserves wallets_nonneg (purchase customer_id verify_name form).
Proof.
  intros w Hw. unfold purchase.
  destruct (get_wallet_balance_bound customer_id w Hw)
    as (balance & w1 & E1 & K1 & Hb).
  rewrite (bind_ret _ _ _ _ _ E1).
  pose (J := λ w', wallets_nonneg w' ∧
                   ∀ wallet, wallets_file w' !! str customer_id = Some wallet →
                             balance ≤ wl_balance wallet).
  assert (HJ : J w1).
  { apply (covered_view customer_id balance w); [exact K1|]. now split. }
  assert (Hkeep : ∀ A (m : M A), keeps wallets_file m → preserves J m).
  { intros A m K. apply (preserves_of_keeps wallets_file); [|exact K].
    apply covered_view. }
  apply (bind_leads J wallets_nonneg); [apply Hkeep; keeps_auto|now intros ? []| |exact HJ].
  intros _ w2 HJ2.
  destruct (collect_items form) as [|line rest]; [apply HJ2|].
  apply (bind_leads J wallets_nonneg); [apply Hkeep; keeps_auto|now intros ? []| |exact HJ2].
  intros _ w3 [Hw3 Hb3].
  apply bind_after.
  - apply try_after; [now apply purchase_try_wallets|].
    intros e. inv_auto fail wallets_closing.
  - intros returned. inv_auto fail wallets_closing.
Qed.

Lemma wallet_post_wallets customer_id action amount :
  (action = "add" → 0 ≤ amount) →
  preserves wallets_nonneg (wallet_post customer_id action amount).
Proof.
  intros Hadd w Hw. unfold wallet_post.
  destruct (String.eqb action "add") eqn:Ea.
  - apply String.eqb_eq in Ea. specialize (Hadd Ea).
    apply bind_after; [|intros; apply preserves_ret].
    apply update_wallet_balance_nonneg; [exact Hw|].
    intros wallet Hl. specialize (Hw _ _ Hl). simpl in Hw. lia.
  - destruct (String.eqb action "withdraw"); [|exact Hw].
    destruct (get_wallet_balance_bound customer_id w Hw)
      as (balance & w1 & E1 & K1 & Hb).
    rewrite (bind_ret _ _ _ _ _ E1).
    assert (Hw1 : wallets_nonneg w1)
      by (now apply (wallets_nonneg_view w)).
    case_bool_decide as Hcmp; [exact Hw1|].
    apply bind_after; [|intros; apply preserves_ret].
    apply update_wallet_balance_nonneg; [exact Hw1|].
    rewrite K1. intros wallet Hl. specialize (Hb wallet Hl). lia.
Qed.

Lemma setup_customer_wallet_wallets customer_id wallet_data :
  preserves wallets_nonneg (setup_customer_wallet customer_id wallet_data).
Proof.
  intros w Hw.
  unfold setup_customer_wallet, try_except, bind, file_op, gets, modify, ret.
  destruct (faults w) as [|[e|] rest] eqn:Ef; simpl; rewrite ?Ef; simpl;
    [|exact Hw|destruct rest as [|[e|] rest]; simpl];
    first
      [ exact Hw
      | (eapply (wallets_nonneg_insert w); [exact Hw| |reflexivity]);
        simpl; lia ].
Qed.

Lemma serve_wallets int request :
  honest_deposit request → preserves wallets_nonneg (serve int request).
Proof.
  intros Hok. destruct request as [[| ]| | | | |]; unfold serve; simpl in Hok.
  - apply preserves_bind; [apply purchase_wallets|intros; apply preserves_ret].
  - wallets_closing.
  - apply preserves_bind; [now apply wallet_post_wallets|].
    intros; apply preserves_ret.
  - inv_auto ltac:(apply setup_customer_wallet_wallets) wallets_closing.
  - wallets_closing.
  - wallets_closing.
  - wallets_closing.
Qed.

(** X10. With whole numbers for amounts, no wallet is overdrawn by a
    purchase, a withdrawal, a wallet setup, a restock or a catalog request
    of the admin.  If every wallet balance is at least 0, it still is after
    any sequence of such requests in which no deposit has a negative
    amount, whichever file operations are refused: [purchase] and the
    withdrawal compare the amount with a balance that is never more than
    what the wallet holds.  (X25 is what the same guard does with nan.) *)
Theorem wallets_never_overdrawn int requests w :
  Forall honest_deposit requests →
  wallets_nonneg w →
  wallets_nonneg (serve_all int requests w).
Proof.
  intros Hall Hw.
  apply (Forall_serve_all int honest_deposit); auto using serve_wallets.
Qed.

Lemma sample_world_wallets : wallets_nonneg sample_world.
Proof.
  intros key wallet H. simpl in H. apply lookup_singleton_Some in H as [_ <-].
  simpl. lia.
Qed.

Lemma wallets_never_overdrawn_witness :
  let requests :=
    [ShopRequest (PurchaseOp 7 "Asha" [(1, 6)]);
     WalletRequest 7 "withdraw" 3000;
     WalletRequest 7 "withdraw" 3000;
     WalletRequest 7 "add" 250] in
  Forall honest_deposit requests ∧
  wallets_nonneg sample_world ∧
  wallets_nonneg (serve_all decimal_int requests sample_world).
Proof.
  cbv zeta.
  assert (Hall : Forall honest_deposit
            [ShopRequest (PurchaseOp 7 "Asha" [(1, 6)]);
             WalletRequest 7 "withdraw" 3000;
             WalletRequest 7 "withdraw" 3000;
             WalletRequest 7 "add" 250]).
  { repeat constructor; simpl; intros; first [discriminate | lia]. }
  split; [exact Hall|]. split; [exact sample_world_wallets|].
  apply (wallets_never_overdrawn decimal_int _ sample_world Hall
           sample_world_wallets).
Defined.

(** X11. The deposit of the wallet page does not check the sign of the
    amount.  Without file faults, 'add' with a negative amount larger than
    the balance leaves the wallet overdrawn, answers with the 'added'
    message, and the ledger records the change as a 'withdraw' entry. *)
Theorem negative_deposit_overdraws customer_id amount w wallet :
  faults w = [] →
  wallets_file w !! str customer_id = Some wallet →
  wl_balance wallet + amount < 0 →
  0 ≤ wl_balance wallet →
  let run := wallet_post customer_id "add" amount w in
  run.1 = Ret (Some (MoneyAdded amount)) ∧
  balance_of customer_id run.2 = wl_balance wallet + amount ∧
  balance_of customer_id run.2 < 0 ∧
  ∃ entry,
    ledger_of customer_id run.2 = ledger_of customer_id w ++ [entry] ∧
    ctx_type entry = "withdraw" ∧ ctx_amount entry = - amount.
Proof.
  intros Hf Hw Hneg Hpos. cbv zeta. unfold wallet_post. simpl.
  destruct (update_wallet_balance_ok customer_id amount w wallet Hf Hw)
    as (w' & entry & E & _ & _ & _ & Hb & Hl & _ & Ha & Ht).
  rewrite (bind_ret _ _ _ _ _ E). simpl.
  rewrite bool_decide_eq_false_2 in Ht by lia.
  split; [done|]. split; [done|]. split; [lia|].
  exists entry. split; [done|]. split; [done|]. lia.
Qed.

Lemma negative_deposit_overdraws_witness :
  let run := wallet_post 7 "add" (-6000) sample_world in
  run.1 = Ret (Some (MoneyAdded (-6000))) ∧
  balance_of 7 run.2 = 5000 + -6000 ∧
  balance_of 7 run.2 < 0 ∧
  ∃ entry,
    ledger_of 7 run.2 = ledger_of 7 sample_world ++ [entry] ∧
    ctx_type entry = "withdraw" ∧ ctx_amount entry = - -6000.
Proof.
  apply (negative_deposit_overdraws 7 (-6000) sample_world
           (mkWallet "Asha" "4242" 5000));
    first [reflexivity | vm_compute; done].
Defined.

(** X25. The withdrawal of the wallet page, on the floats it computes
    with.  [float('nan')] is an amount the form can submit: the guard
    [amount > current_balance] is false of it whatever the balance, so the
    withdrawal is accepted and the balance stored is nan.  From then on the
    guard is false of every amount, every withdrawal is accepted, and the
    balance stays nan. *)
Theorem withdraw_nan_accepted balance amount :
  binary64.withdraw balance binary64.nan = Some binary64.nan ∧
  binary64.withdraw binary64.nan amount = Some binary64.nan.
Proof.
  unfold binary64.withdraw, binary64.gt, binary64.update_wallet_balance,
    binary64.add, binary64.neg, binary64.nan.
  split.
  - assert (SFltb balance S754_nan = false) as -> by now destruct balance.
    now destruct balance.
  - assert (SFltb S754_nan amount = false) as -> by reflexivity.
    reflexivity.
Qed.

(** ** The logs are append-only *)

Lemma logs_extended_refl w : logs_extended w w.
Proof. repeat split; done. Qed.

Lemma logs_extended_view w0 w w' :
  (customer_tx_file w', sales_file w', transactions_file w')
  = (customer_tx_file w, sales_file w, transactions_file w) →
  logs_extended w0 w → logs_extended w0 w'.
Proof. unfold logs_extended. now intros [= -> -> ->]. Qed.

Lemma logs_extended_ledger w0 w w' key tx :
  logs_extended w0 w →
  customer_tx_file w'
  = <[key := default [] (customer_tx_file w !! key) ++ [tx]]>
      (customer_tx_file w) →
  sales_file w' = sales_file w →
  transactions_file w' = transactions_file w →
  logs_extended w0 w'.
Proof.
  intros (Hl & Hs & Ht) El Es Et. unfold logs_extended.
  rewrite El, Es, Et. split; [|done].
  intros k. destruct (decide (key = k)) as [<-|Hne].
  - rewrite lookup_insert_eq. simpl.
    etrans; [apply Hl|]. now apply prefix_app_r.
  - rewrite lookup_insert_ne by done. apply Hl.
Qed.

Lemma logs_extended_sales w0 w w' sale :
  logs_extended w0 w →
  customer_tx_file w' = customer_tx_file w →
  sales_file w' = sales_file w ++ [sale] →
  transactions_file w' = transactions_file w →
  logs_extended w0 w'.
Proof.
  intros (Hl & Hs & Ht) El Es Et. unfold logs_extended.
  rewrite El, Es, Et. repeat split; try done. now apply prefix_app_r.
Qed.

Lemma logs_extended_transactions w0 w w' tx :
  logs_extended w0 w →
  customer_tx_file w' = customer_tx_file w →
  sales_file w' = sales_file w →
  transactions_file w' = transactions_file w ++ [tx] →
  logs_extended w0 w'.
Proof.
  intros (Hl & Hs & Ht) El Es Et. unfold logs_extended.
  rewrite El, Es, Et. repeat split; try done. now apply prefix_app_r.
Qed.

(** The logs as they grow while every file read finds a parsable file. *)
Lemma logs_parsable_view w0 w w' :
  (customer_tx_file w', sales_file w', transactions_file w', faults w')
  = (customer_tx_file w, sales_file w, transactions_file w, faults w) →
  logs_extended w0 w ∧ parsable_files w →
  logs_extended w0 w' ∧ parsable_files w'.
Proof.
  unfold logs_extended, parsable_files. now intros [= -> -> -> ->].
Qed.

Lemma parsable_files_next fate rest w w' :
  faults w = fate :: rest → faults w' = rest →
  parsable_files w → parsable_files w'.
Proof.
  unfold parsable_files. intros -> ->. now inversion 1.
Qed.

Lemma parsable_files_fault e rest w :
  faults w = Some e :: rest → parsable_files w → json_decode_error e = false.
Proof.
  unfold parsable_files. intros ->. inversion 1; subst. auto.
Qed.

Lemma file_op_logs w0 :
  preserves (λ w, logs_extended w0 w ∧ parsable_files w) file_op.
Proof.
  intros w [Hw Hp]. unfold file_op.
  destruct (faults w) as [|[e|] rest] eqn:Ef; simpl; (split; [exact Hw|]);
    first [exact Hp | now apply (parsable_files_next _ _ _ _ Ef)].
Qed.

Lemma log_customer_transaction_logs w0 customer_id ty amount d balance :
  preserves (λ w, logs_extended w0 w ∧ parsable_files w)
    (log_customer_transaction customer_id ty amount d balance).
Proof.
  intros w [Hw Hp].
  unfold log_customer_transaction, try_except, bind, file_op, gets, modify,
    ret, raise.
  destruct (faults w) as [|[e|] rest] eqn:Ef; simpl.
  - destruct balance as [b|]; simpl; rewrite ?Ef; simpl; [|done].
    split; [|unfold parsable_files; simpl; now rewrite Ef].
    eapply (logs_extended_ledger w0 w); [exact Hw|..]; reflexivity.
  - rewrite (parsable_files_fault _ _ _ Ef Hp). simpl. split; [exact Hw|].
    now apply (parsable_files_next _ _ w _ Ef).
  - assert (Hp1 : parsable_files (set_faults rest w))
      by now apply (parsable_files_next _ _ w _ Ef).
    destruct balance as [b|]; simpl; [|done].
    destruct rest as [|[e|] rest]; simpl.
    + split; [|done].
      eapply (logs_extended_ledger w0 w); [exact Hw|..]; reflexivity.
    + split; [exact Hw|]. unfold parsable_files in *. simpl in *.
      now inversion Hp1.
    + split.
      * eapply (logs_extended_ledger w0 w); [exact Hw|..]; reflexivity.
      * unfold parsable_files in *. simpl in *. now inversion Hp1.
Qed.

Lemma log_sale_logs w0 customer_id product_id name quantity unit_price
    total_price timestamp :
  preserves (λ w, logs_extended w0 w ∧ parsable_files w)
    (log_sale customer_id product_id name quantity unit_price total_price
       timestamp).
Proof.
  intros w [Hw Hp].
  unfold log_sale, try_except, bind, file_op, gets, modify, ret.
  destruct (faults w) as [|[e|] rest] eqn:Ef; simpl; rewrite ?Ef; simpl.
  - split; [|unfold parsable_files; simpl; now rewrite Ef].
    eapply (logs_extended_sales w0 w); [exact Hw|..]; reflexivity.
  - split; [exact Hw|]. now apply (parsable_files_next _ _ w _ Ef).
  - assert (Hp1 : parsable_files (set_faults rest w))
      by now apply (parsable_files_next _ _ w _ Ef).
    destruct rest as [|[e|] rest]; simpl.
    + split; [|done].
      eapply (logs_extended_sales w0 w); [exact Hw|..]; reflexivity.
    + split; [exact Hw|]. unfold parsable_files in *. simpl in *.
      now inversion Hp1.
    + split.
      * eapply (logs_extended_sales w0 w); [exact Hw|..]; reflexivity.
      * unfold parsable_files in *. simpl in *. now inversion Hp1.
Qed.

Lemma log_transaction_logs w0 customer_id amount ty d :
  preserves (λ w, logs_extended w0 w ∧ parsable_files w)
    (log_transaction customer_id amount ty d).
Proof.
  intros w [Hw Hp].
  unfold log_transaction, try_except, bind, file_op, gets, modify, ret.
  destruct (faults w) as [|[e|] rest] eqn:Ef; simpl; rewrite ?Ef; simpl.
  - split; [|unfold parsable_files; simpl; now rewrite Ef].
    eapply (logs_extended_transactions w0 w); [exact Hw|..]; reflexivity.
  - split; [exact Hw|]. now apply (parsable_files_next _ _ w _ Ef).
  - assert (Hp1 : parsable_files (set_faults rest w))
      by now apply (parsable_files_next _ _ w _ Ef).
    destruct rest as [|[e|] rest]; simpl.
    + split; [|done].
      eapply (logs_extended_transactions w0 w); [exact Hw|..]; reflexivity.
    + split; [exact Hw|]. unfold parsable_files in *. simpl in *.
      now inversion Hp1.
    + split.
      * eapply (logs_extended_transactions w0 w); [exact Hw|..]; reflexivity.
      * unfold parsable_files in *. simpl in *. now inversion Hp1.
Qed.

Ltac logs_special w0 :=
  first [ apply (log_customer_transaction_logs w0)
        | apply (log_sale_logs w0)
        | apply (log_transaction_logs w0)
        | apply (file_op_logs w0) ].

Ltac logs_closing w0 :=
  solve [ apply (preserves_of_keeps
                   (λ w, (customer_tx_file w, sales_file w,
                          transactions_file w, faults w)));
          [apply (logs_parsable_view w0)|keeps_auto] ].

Lemma serve_logs w0 int request :
  preserves (λ w, logs_extended w0 w ∧ parsable_files w) (serve int request).
Proof.
  destruct request as [[| ]| | | | |]; unfold serve;
    inv_auto ltac:(logs_special w0) ltac:(logs_closing w0).
Qed.

(** X12. The customer ledgers, sales.json and transactions.json are
    append-only as long as every file read finds a file it can parse.
    After any sequence of purchases, restocks, wallet requests, wallet
    setups and catalog requests of the admin, whichever file operations
    are refused, the ledger of every customer, the sales log and the
    global transaction log each start with what they held before: no such
    request removes or rewrites an entry. *)
Theorem logs_are_append_only int requests w :
  parsable_files w →
  logs_extended w (serve_all int requests w).
Proof.
  intros Hp.
  apply (serve_all_preserves int
           (λ w', logs_extended w w' ∧ parsable_files w')).
  - apply serve_logs.
  - split; [apply logs_extended_refl|exact Hp].
Qed.

Lemma logs_are_append_only_witness :
  let w := set_faults [None; Some "[Errno 13] Permission denied"]
             sample_world in
  parsable_files w ∧
  logs_extended w
    (serve_all decimal_int
       [ShopRequest (PurchaseOp 7 "Asha" [(1, 6)]);
        WalletRequest 7 "add" 500] w).
Proof.
  cbv zeta.
  assert (Hp : parsable_files
                 (set_faults [None; Some "[Errno 13] Permission denied"]
                    sample_world)).
  { unfold parsable_files. simpl. repeat constructor; intros e [= <-];
      reflexivity. }
  split; [exact Hp|]. apply (logs_are_append_only decimal_int _ _ Hp).
Defined.

(** X24. An unparsable ledger file is replaced.  When the read of
    customer_transactions.json ends on a [JSONDecodeError] and the write
    that follows succeeds, [log_customer_transaction] starts from an empty
    dict and reports success: the file it writes holds the new entry, with
    id 1, and nothing else, so that the ledgers of all customers are
    gone. *)
Theorem log_customer_transaction_unparsable customer_id ty amount d balance w
    e rest :
  faults w = Some e :: None :: rest →
  json_decode_error e = true →
  let run :=
    log_customer_transaction customer_id ty amount d (Some balance) w in
  run.1 = Ret true ∧
  customer_tx_file run.2
  = {[ str customer_id := [mkCustomerTx 1 ty amount d balance (clock w)] ]} ∧
  ∀ other, other ≠ customer_id → ledger_of other run.2 = [].
Proof.
  intros Hf He. cbv zeta.
  unfold log_customer_transaction, try_except, bind, file_op, gets, modify,
    ret, raise.
  rewrite Hf. simpl. rewrite He. simpl. rewrite lookup_empty. simpl.
  repeat split. intros other Hne. unfold ledger_of. simpl.
  rewrite lookup_insert_ne; [done|].
  intros Heq. apply Hne. symmetry. now apply str_inj.
Qed.

Lemma log_customer_transaction_unparsable_witness :
  let ledgers : gmap string (list CustomerTx) :=
    {[ "7" := [mkCustomerTx 1 "add" 500 "Money added to wallet" 5500 20251119];
       "8" := [mkCustomerTx 1 "add" 100 "Money added to wallet" 100 20251119] ]} in
  let w := set_faults [Some "Expecting value: line 1 column 1 (char 0)"; None]
             (set_customer_tx_file ledgers sample_world) in
  let run :=
    log_customer_transaction 7 "withdraw" 200 "Money withdrawn from wallet"
      (Some 5300) w in
  ledger_of 8 w
  = [mkCustomerTx 1 "add" 100 "Money added to wallet" 100 20251119] ∧
  run.1 = Ret true ∧
  ledger_of 7 run.2
  = [mkCustomerTx 1 "withdraw" 200 "Money withdrawn from wallet" 5300
       20251120] ∧
  ledger_of 8 run.2 = [].
Proof.
  cbv zeta.
  destruct (log_customer_transaction_unparsable 7 "withdraw" 200
              "Money withdrawn from wallet" 5300
              (set_faults
                 [Some "Expecting value: line 1 column 1 (char 0)"; None]
                 (set_customer_tx_file
                    {[ "7" := [mkCustomerTx 1 "add" 500
                                 "Money added to wallet" 5500 20251119];
                       "8" := [mkCustomerTx 1 "add" 100
                                 "Money added to wallet" 100 20251119] ]}
                    sample_world))
              "Expecting value: line 1 column 1 (char 0)" [])
    as (R & L & O).
  - reflexivity.
  - reflexivity.
  - split; [vm_compute; reflexivity|]. split; [exact R|].
    split; [unfold ledger_of; rewrite L; vm_compute; reflexivity|].
    apply O. discriminate.
Defined.

(** ** Tier details *)

(** X13. [get_loyalty_tier_info] against [get_loyalty_tier].  For the
    bronze, silver and gold tiers [points_needed] is exactly the distance to
    the next tier: adding it reaches the tier named by [next_tier], the
    next in rank, and one point less does not.  For the tier 'none' it is
    the constant 100 whatever the points are, and the diamond tier has no
    next tier.  [min_points] and [max_points] bracket the points. *)
Theorem get_loyalty_tier_info_next_tier points :
  let info := get_loyalty_tier_info points in
  let tier := get_loyalty_tier points in
  ti_min_points info = min_points tier ∧
  (0 ≤ points →
   ti_min_points info ≤ points ∧
   ∀ most, ti_max_points info = Some most → points ≤ most) ∧
  (100 ≤ points →
   ∀ next, ti_next_tier info = Some next →
     0 < ti_points_needed info ∧
     get_loyalty_tier (points + ti_points_needed info) = next ∧
     get_loyalty_tier (points + ti_points_needed info - 1) = tier ∧
     tier_rank next = S (tier_rank tier)) ∧
  (points < 100 →
   ti_next_tier info = Some bronze ∧ ti_points_needed info = 100) ∧
  (ti_next_tier info = None ↔ 2000 ≤ points).
Proof.
  cbv zeta. unfold get_loyalty_tier_info, get_loyalty_tier.
  repeat case_bool_decide; simpl; repeat split; intros; simplify_eq;
    try lia; try done; simpl in *; exfalso; lia.
Qed.

(** ** Wallet setup *)

Lemma setup_customer_wallet_ok customer_id wallet_data w :
  faults w = [] →
  setup_customer_wallet customer_id wallet_data w
  = (Ret true,
     set_wallets_file
       (<[str customer_id :=
            mkWallet (wd_card_holder wallet_data)
              (last_four (wd_card_number wallet_data)) 10000]>
          (wallets_file w)) w).
Proof.
  intros Hf.
  unfold setup_customer_wallet, try_except, bind, file_op, gets, modify, ret.
  rewrite Hf. simpl. rewrite Hf. reflexivity.
Qed.

(** X14. The wallet setup page does not look for an existing wallet.
    Without file faults, a POST with the four fields filled in stores a
    wallet holding 10000 under the customer's id, whether or not the
    customer already had a wallet and whatever its balance was; only the
    last four characters of the card number are kept, the customer's
    ledger receives no entry, and the other wallets are untouched. *)
Theorem setup_wallet_resets_balance customer_id card_type card_holder
    card_number expiry_date w :
  faults w = [] →
  card_type ≠ "" → card_holder ≠ "" → card_number ≠ "" → expiry_date ≠ "" →
  let run :=
    setup_wallet customer_id card_type card_holder card_number expiry_date w in
  run.1 = Ret (Redirect "customer_dashboard", WalletSetupSuccessful) ∧
  wallets_file run.2 !! str customer_id
  = Some (mkWallet card_holder (last_four card_number) 10000) ∧
  balance_of customer_id run.2 = 10000 ∧
  ledger_of customer_id run.2 = ledger_of customer_id w ∧
  ∀ key, key ≠ str customer_id →
         wallets_file run.2 !! key = wallets_file w !! key.
Proof.
  intros Hf H1 H2 H3 H4. cbv zeta. unfold setup_wallet.
  rewrite !bool_decide_eq_false_2 by done. simpl.
  rewrite (bind_ret _ _ _ _ _
             (setup_customer_wallet_ok customer_id
                (mkWalletData card_type card_number card_holder expiry_date)
                w Hf)).
  simpl. unfold balance_of. simpl. rewrite lookup_insert_eq.
  repeat split; try done.
  intros key Hne. now rewrite lookup_insert_ne.
Qed.

Lemma setup_wallet_resets_balance_witness :
  let w := (purchase 7 "Asha" [(1, 6)] sample_world).2 in
  let run := setup_wallet 7 "visa" "Asha" "4000123412344242" "12/29" w in
  balance_of 7 w = 3800 ∧
  run.1 = Ret (Redirect "customer_dashboard", WalletSetupSuccessful) ∧
  wallets_file run.2 !! str 7
  = Some (mkWallet "Asha" (last_four "4000123412344242") 10000) ∧
  balance_of 7 run.2 = 10000 ∧
  ledger_of 7 run.2 = ledger_of 7 w ∧
  ∀ key, key ≠ str 7 → wallets_file run.2 !! key = wallets_file w !! key.
Proof.
  split; [vm_compute; reflexivity|].
  apply (setup_wallet_resets_balance 7 "visa" "Asha" "4000123412344242"
           "12/29" (purchase 7 "Asha" [(1, 6)] sample_world).2);
    first [vm_compute; reflexivity | discriminate].
Defined.

Lemma drop_chars_length n s :
  String.length (drop_chars n s) = (String.length s - n)%nat.
Proof.
  revert s. induction n as [|n IH]; intros s; simpl.
  - lia.
  - destruct s as [|c s]; simpl; [done|apply IH].
Qed.

Lemma last_four_length s :
  (4 ≤ String.length s)%nat → String.length (last_four s) = 4%nat.
Proof. intros H. unfold last_four. rewrite drop_chars_length. lia. Qed.

(** X15. What [setup_customer_wallet] stores is what
    [verify_card_information] asks for.  Without file faults, after a
    wallet setup the card check succeeds for the same card holder and the
    last four characters of the card number, and it fails for the full
    card number when that has more than four characters. *)
Theorem setup_then_verify_card (lower : string → string) customer_id
    wallet_data w :
  faults w = [] →
  let w1 := (setup_customer_wallet customer_id wallet_data w).2 in
  let stored :=
    mkWallet (wd_card_holder wallet_data)
      (last_four (wd_card_number wallet_data)) 10000 in
  (verify_card_information lower customer_id (wd_card_holder wallet_data)
     (last_four (wd_card_number wallet_data)) w1).1
  = Ret (CardVerified stored) ∧
  ((4 < String.length (wd_card_number wallet_data))%nat →
   (verify_card_information lower customer_id (wd_card_holder wallet_data)
      (wd_card_number wallet_data) w1).1
   = Ret CardVerificationFailed).
Proof.
  intros Hf. cbv zeta.
  rewrite (setup_customer_wallet_ok customer_id wallet_data w Hf). simpl.
  unfold verify_card_information, try_except, bind, file_op, gets, ret.
  simpl. rewrite Hf. simpl. rewrite lookup_insert_eq. simpl.
  split.
  - rewrite !bool_decide_eq_false_2 by (intros H; now apply H). done.
  - intros Hlen.
    rewrite (bool_decide_eq_true_2
               (last_four (wd_card_number wallet_data)
                ≠ wd_card_number wallet_data)).
    + now rewrite orb_true_r.
    + intros E. apply (f_equal String.length) in E.
      rewrite last_four_length in E by lia. lia.
Qed.

Lemma setup_then_verify_card_witness :
  let wallet_data := mkWalletData "visa" "4000123412344242" "Asha" "12/29" in
  let w1 := (setup_customer_wallet 7 wallet_data sample_world).2 in
  (verify_card_information (λ s, s) 7 "Asha" (last_four "4000123412344242")
     w1).1
  = Ret (CardVerified (mkWallet "Asha" (last_four "4000123412344242") 10000)) ∧
  ((4 < String.length "4000123412344242")%nat →
   (verify_card_information (λ s, s) 7 "Asha" "4000123412344242" w1).1
   = Ret CardVerificationFailed).
Proof.
  apply (setup_then_verify_card (λ s, s) 7
           (mkWalletData "visa" "4000123412344242" "Asha" "12/29")
           sample_world).
  reflexivity.
Defined.

(** ** The books of a completed purchase *)













(** ** A completed restock *)



Lemma restock_lines_applied_other ps l key :
  key ∉ (str <$> l.*1) → restock_lines_applied ps l !! key = ps !! key.
Proof.
  revert ps. induction l as [|[pid q] l IH]; intros ps Hnot; simpl; [done|].
  rewrite fmap_cons in Hnot. simpl in Hnot.
  apply not_elem_of_cons in Hnot as [Hne Hnot].
  unfold restock_lines_applied in IH. rewrite IH by done.
  unfold restock_line. simpl. now rewrite lookup_alter_ne.
Qed.










(** ** Transaction statistics *)










(** ** Loyalty never goes down *)

Lemma serve_costs int request :
  cost_input_nonneg request → preserves costs_invariant (serve int request).
Proof.
  intros Hsane.
  pose (Q := λ p, 0 ≤ p_cost p).
  change (preserves (λ w, map_Forall (λ _, Q) (products w) ∧
                          map_Forall (λ _, Q) (products_file w))
            (serve int request)).
  destruct request as [[| ]| | | | |]; unfold serve; simpl in Hsane;
    inv_auto ltac:(catalog_special Q
                     ltac:(first [done | now intros [] | now simpl]))
             ltac:(catalog_closing Q).
Qed.

Lemma customers_grow_refl w : customers_grow w w.
Proof. intros key c Hc. exists c. repeat split; try done; lia. Qed.

Lemma customers_grow_view w0 w w' :
  customers_file w' = customers_file w →
  customers_grow w0 w → customers_grow w0 w'.
Proof. unfold customers_grow. now intros ->. Qed.

Lemma customers_grow_insert w0 w w' key c c' :
  customers_grow w0 w →
  customers_file w !! key = Some c →
  c_points c ≤ c_points c' → c_total_spent c ≤ c_total_spent c' →
  c_purchase_count c ≤ c_purchase_count c' →
  customers_file w' = <[key := c']> (customers_file w) →
  customers_grow w0 w'.
Proof.
  intros Hg Hc H1 H2 H3 E k c0 Hc0. rewrite E.
  destruct (Hg k c0 Hc0) as (c1 & Hc1 & G1 & G2 & G3).
  destruct (decide (key = k)) as [<-|Hne].
  - rewrite lookup_insert_eq. exists c'. rewrite Hc in Hc1. simplify_eq.
    repeat split; try done; lia.
  - rewrite lookup_insert_ne by done. exists c1. done.
Qed.

Lemma update_customer_purchase_grow w0 customer_id amount :
  0 ≤ amount →
  preserves (customers_grow w0) (update_customer_purchase customer_id amount).
Proof.
  intros Hamount w Hw.
  pose proof (Z.div_pos amount 100 Hamount ltac:(lia)) as Hdiv.
  unfold update_customer_purchase, try_except, bind, file_op, gets, modify,
    ret.
  destruct (faults w) as [|[e|] rest] eqn:Ef; simpl; try done;
    destruct (customers_file w !! str customer_id) as [c|] eqn:Ec; simpl;
    rewrite ?Ef; simpl; try done;
    [|destruct rest as [|[e|] rest]; simpl; try done];
    (eapply (customers_grow_insert w0 w _ _ c); [exact Hw|exact Ec|..|reflexivity]);
    simpl; lia.
Qed.

Lemma sum_of_prices_nonneg ps l :
  costs_nonneg ps → Forall (λ line, 0 < line.2) l →
  0 ≤ sum_of_prices (priced_item <$> catalog_lines ps l).
Proof.
  intros Hps Hl. induction Hl as [|[product_id qty] l Hq _ IH]; [done|].
  rewrite catalog_lines_cons.
  destruct (ps !! str product_id) as [p|] eqn:Ep; [|exact IH].
  rewrite fmap_cons, sum_of_prices_cons. simpl. unfold line_price.
  simpl in Hq. specialize (Hps _ _ Ep). nia.
Qed.

Lemma preserves_at {A} (I : World → Prop) (m : M A) w :
  preserves I m → I w → I (m w).2.
Proof. intros H. apply H. Qed.

Ltac grow_closing w0 :=
  solve [ apply (preserves_of_keeps customers_file);
          [apply (customers_grow_view w0)|keeps_auto] ].

Lemma purchase_try_grow w0 customer_id verify_name items balance w :
  costs_nonneg (products w) →
  Forall (λ line, 0 < line.2) items →
  customers_grow w0 w →
  customers_grow w0
    (purchase_try customer_id verify_name items balance w).2.
Proof.
  intros Hc Hq Hg. unfold purchase_try. rewrite bind_gets.
  pose proof (check_stock_acc (products w) items 0 []) as Hacc.
  destruct (check_stock (products w) items 0 [])
    as [[name available]|[total its]]; [exact Hg|].
  destruct Hacc as (_ & Htotal & _).
  assert (H0 : 0 ≤ total).
  { rewrite Htotal. pose proof (sum_of_prices_nonneg _ _ Hc Hq). lia. }
  apply preserves_at; [|exact Hg].
  inv_auto ltac:(now apply update_customer_purchase_grow)
           ltac:(grow_closing w0).
Qed.

Lemma collect_items_positive form :
  Forall (λ line, 0 < line.2) (collect_items form).
Proof.
  apply Forall_forall. intros line Hin.
  now apply list_elem_of_filter in Hin as [Hpos _].
Qed.

Lemma purchase_costs customer_id verify_name form :
  preserves costs_invariant (purchase customer_id verify_name form).
Proof.
  intros w Hw.
  pose proof (serve_costs (λ _, None)
                (ShopRequest (PurchaseOp customer_id verify_name form)) I w Hw)
    as H.
  unfold serve, run_operation, bind in H.
  now destruct (purchase customer_id verify_name form w) as [[?|?] ?].
Qed.

Lemma purchase_grow w0 customer_id verify_name form w :
  costs_invariant w → customers_grow w0 w →
  customers_grow w0 (purchase customer_id verify_name form w).2.
Proof.
  intros Hc Hg. destruct (decide (collect_items form = [])) as [E|Hne].
  - unfold purchase. rewrite E. apply preserves_at; [|exact Hg].
    inv_auto fail ltac:(grow_closing w0).
  - rewrite (purchase_unfold _ _ _ _ Hne).
    pose (Q := λ p, 0 ≤ p_cost p).
    apply (bind_leads (λ w, costs_invariant w ∧ customers_grow w0 w)
             (customers_grow w0)).
    + intros w1 [Hc1 Hg1]. split.
      * revert w1 Hc1 Hg1.
        change (∀ w1, costs_invariant w1 → customers_grow w0 w1 →
                      costs_invariant (purchase_prelude customer_id w1).2).
        intros w1 Hc1 _. revert w1 Hc1.
        change (preserves (λ w, map_Forall (λ _, Q) (products w) ∧
                                map_Forall (λ _, Q) (products_file w))
                  (purchase_prelude customer_id)).
        unfold purchase_prelude.
        inv_auto ltac:(catalog_special Q ltac:(done)) ltac:(catalog_closing Q).
      * apply preserves_at; [|exact Hg1]. unfold purchase_prelude.
        inv_auto fail ltac:(grow_closing w0).
    + now intros ? [].
    + intros balance w1 [[Hc1 _] Hg1].
      apply bind_after.
      * apply try_after.
        -- apply purchase_try_grow; [exact Hc1| |exact Hg1].
           apply collect_items_positive.
        -- intros e. inv_auto fail ltac:(grow_closing w0).
      * intros returned. inv_auto fail ltac:(grow_closing w0).
    + now split.
Qed.

Lemma serve_grow w0 int request :
  cost_input_nonneg request →
  preserves (λ w, costs_invariant w ∧ customers_grow w0 w)
    (serve int request).
Proof.
  intros Hsane w [Hc Hg]. split; [now apply serve_costs|].
  destruct request as [[| ]| | | | |]; unfold serve.
  1: { unfold run_operation, bind.
       pose proof (purchase_grow w0 customer_id verify_name form w Hc Hg) as H.
       now destruct (purchase customer_id verify_name form w) as [[?|?] ?]. }
  all: apply preserves_at; [|exact Hg];
       apply (preserves_of_keeps customers_file);
       [apply (customers_grow_view w0)|keeps_auto].
Qed.

(** X19. Loyalty never goes down as long as no account is registered or
    deleted.  Starting from a catalog without negative costs, after any
    sequence of purchases, restocks, wallet requests, wallet setups and
    catalog requests of the admin that submit no negative cost, whichever
    file operations are refused, every customer record is still there with
    at least the points, the spending and the number of purchases it had;
    so the tier of a customer never drops. *)
Theorem loyalty_never_decreases int requests w :
  Forall cost_input_nonneg requests →
  costs_invariant w →
  ∀ key c, customers_file w !! key = Some c →
    ∃ c', customers_file (serve_all int requests w) !! key = Some c' ∧
          c_points c ≤ c_points c' ∧
          c_total_spent c ≤ c_total_spent c' ∧
          c_purchase_count c ≤ c_purchase_count c' ∧
          (tier_rank (get_loyalty_tier (c_points c))
           ≤ tier_rank (get_loyalty_tier (c_points c')))%nat.
Proof.
  intros Hall Hc key c Hkey.
  assert (H : costs_invariant (serve_all int requests w) ∧
              customers_grow w (serve_all int requests w)).
  { apply (Forall_serve_all int cost_input_nonneg
             (λ w', costs_invariant w' ∧ customers_grow w w'));
      [apply serve_grow|exact Hall|].
    split; [exact Hc|apply customers_grow_refl]. }
  destruct H as [_ Hg]. destruct (Hg key c Hkey) as (c' & Hc' & G1 & G2 & G3).
  exists c'. repeat split; try done.
  unfold get_loyalty_tier. repeat case_bool_decide; simpl; lia.
Qed.

Lemma sample_world_costs : costs_invariant sample_world.
Proof.
  assert (H : map_Forall (λ _ p, 0 ≤ p_cost p) sample_products).
  { unfold sample_products.
    repeat (apply map_Forall_insert_2; [simpl; lia|]). apply map_Forall_empty. }
  split; exact H.
Qed.

Lemma loyalty_never_decreases_witness :
  let requests :=
    [ShopRequest (PurchaseOp 7 "Asha" [(1, 6)]);
     EditProductRequest 1 (mkProductData "Serum" "Garnier" 10 150);
     ShopRequest (PurchaseOp 7 "Asha" [(1, 3)])] in
  Forall cost_input_nonneg requests ∧
  costs_invariant sample_world ∧
  ∃ c', customers_file (serve_all decimal_int requests sample_world) !! "7"
        = Some c' ∧
        c_points (mkCustomer "Asha" 0 0 0 None) ≤ c_points c' ∧
        c_total_spent (mkCustomer "Asha" 0 0 0 None) ≤ c_total_spent c' ∧
        c_purchase_count (mkCustomer "Asha" 0 0 0 None) ≤ c_purchase_count c' ∧
        (tier_rank (get_loyalty_tier (c_points (mkCustomer "Asha" 0 0 0 None)))
         ≤ tier_rank (get_loyalty_tier (c_points c')))%nat.
Proof.
  cbv zeta.
  assert (Hall : Forall cost_input_nonneg
            [ShopRequest (PurchaseOp 7 "Asha" [(1, 6)]);
             EditProductRequest 1 (mkProductData "Serum" "Garnier" 10 150);
             ShopRequest (PurchaseOp 7 "Asha" [(1, 3)])])
    by (repeat constructor; simpl; lia).
  split; [exact Hall|]. split; [exact sample_world_costs|].
  apply (loyalty_never_decreases decimal_int _ sample_world Hall
           sample_world_costs "7" (mkCustomer "Asha" 0 0 0 None)).
  reflexivity.
Defined.

(** ** Accounts *)

Lemma foldr_max_spec n ns :
  let m := foldr Z.max n ns in
  (m = n ∨ m ∈ ns) ∧ n ≤ m ∧ Forall (λ x, x ≤ m) ns.
Proof.
  induction ns as [|x ns IH]; simpl.
  - split; [now left|]. split; [lia|constructor].
  - destruct IH as ([Hm|Hm] & Hle & Hall); (split; [|split]);
      try (constructor; [lia|]);
      try (eapply Forall_impl; [exact Hall|simpl; intros; lia]);
      try lia.
    + destruct (Z.max_spec x (foldr Z.max n ns)) as [[_ ->]|[_ ->]];
        [now left|right; left].
    + destruct (Z.max_spec x (foldr Z.max n ns)) as [[_ ->]|[_ ->]];
        [right; now right|right; left].
Qed.

Lemma mapM_int_canonical int keys :
  (∀ n, int (str n) = Some n) →
  Forall (λ key, ∃ n, key = str n) keys →
  ∃ ns, mapM int keys = Some ns ∧ keys = str <$> ns.
Proof.
  intros Hint Hall. induction Hall as [|key keys [n ->] _ (ns & E & ->)].
  - exists []. done.
  - exists (n :: ns). simpl. rewrite Hint. simpl. rewrite E. done.
Qed.

(** On a dict whose keys are all written by [str], the largest id. *)
Lemma max_customer_id_spec int keys :
  (∀ n, int (str n) = Some n) →
  keys ≠ [] →
  Forall (λ key, ∃ n, key = str n) keys →
  ∃ max_id, max_customer_id int keys = Some max_id ∧
            str max_id ∈ keys ∧
            ∀ n, str n ∈ keys → n ≤ max_id.
Proof.
  intros Hint Hne Hall.
  destruct (mapM_int_canonical int keys Hint Hall) as (ns & E & ->).
  unfold max_customer_id. rewrite E.
  destruct ns as [|n ns]; [done|].
  destruct (foldr_max_spec n ns) as (Hin & Hle & Hmax). cbv zeta in *.
  eexists. split; [reflexivity|]. split.
  - apply list_elem_of_fmap. eexists. split; [reflexivity|].
    destruct Hin as [->|Hin]; [left|now right].
  - intros k Hk. apply list_elem_of_fmap in Hk as (k' & Hk' & Hin').
    apply str_inj in Hk'. subst k'.
    apply elem_of_cons in Hin' as [->|Hin']; [done|].
    rewrite Forall_forall in Hmax. now apply Hmax.
Qed.

(** Every key of customers.json was written by [str]. *)
Lemma get_next_customer_id_ok int w :
  (∀ n, int (str n) = Some n) →
  faults w = [] →
  (∀ key, is_Some (customers_file w !! key) → ∃ n, key = str n) →
  ∃ customer_id,
    get_next_customer_id int w = (Ret customer_id, w) ∧
    customers_file w !! str customer_id = None ∧
    ((customers_file w = ∅ ∧ customer_id = 1) ∨
     (is_Some (customers_file w !! str (customer_id - 1)) ∧
      ∀ n, is_Some (customers_file w !! str n) → n < customer_id)).
Proof.
  intros Hint Hf Hcanon.
  unfold get_next_customer_id, try_except, bind, file_op, gets, ret, raise.
  rewrite Hf. simpl. case_bool_decide as He.
  - exists 1. rewrite He. split; [done|]. split; [apply lookup_empty|].
    now left.
  - destruct (max_customer_id_spec int (map_to_list (customers_file w)).*1
                Hint) as (m & Em & Hin & Hmax).
    + intros E. apply He. apply fmap_nil_inv in E.
      now apply map_to_list_empty_iff.
    + apply Forall_forall. intros key Hkey. apply Hcanon.
      apply list_elem_of_fmap in Hkey as ([k c] & -> & Hkc).
      apply elem_of_map_to_list in Hkc. simpl. eauto.
    + rewrite Em. exists (m + 1). split; [done|].
      assert (Hkeys : ∀ n, is_Some (customers_file w !! str n) →
                str n ∈ (map_to_list (customers_file w)).*1).
      { intros n [c Hc]. apply list_elem_of_fmap. exists (str n, c).
        split; [done|]. now apply elem_of_map_to_list. }
      split.
      * destruct (customers_file w !! str (m + 1)) as [c|] eqn:Ec; [|done].
        specialize (Hmax (m + 1) (Hkeys _ (mk_is_Some _ _ Ec))). lia.
      * right. replace (m + 1 - 1) with m by lia. split.
        -- apply list_elem_of_fmap in Hin as ([k c] & Hk & Hkc).
           apply elem_of_map_to_list in Hkc. simpl in Hk. subst k. eauto.
        -- intros n Hn. specialize (Hmax n (Hkeys n Hn)). lia.
Qed.

(** Without file faults a registration with an address that is not
    registered goes through, under the id [get_next_customer_id] gives. *)
Lemma register_customer_ok lower hash_password int accounts name email phone
    password wallet_data w customer_id :
  faults w = [] →
  ¬ map_Exists (λ _ account, lower (a_email account) = lower email) accounts →
  get_next_customer_id int w = (Ret customer_id, w) →
  register_customer lower hash_password int accounts name email phone password
    wallet_data w
  = (Ret (Registered customer_id,
          <[str customer_id :=
              mkAccount (lower email) phone (hash_password password)]>
            accounts),
     match wallet_data with
     | Some data =>
         (setup_customer_wallet customer_id data
            (set_customers_file
               (<[str customer_id := mkCustomer name 0 0 0 None]>
                  (customers_file w)) w)).2
     | None =>
         set_customers_file
           (<[str customer_id := mkCustomer name 0 0 0 None]>
              (customers_file w)) w
     end).
Proof.
  intros Hf Hnew Hid. unfold register_customer. apply try_ret.
  rewrite (bind_ret _ _ _ _ _ (file_op_ok w Hf)), bind_gets.
  rewrite bool_decide_eq_false_2 by done.
  rewrite (bind_ret _ _ _ _ _ Hid).
  rewrite (bind_ret _ _ _ _ _ (file_op_ok w Hf)), bind_modify.
  destruct wallet_data as [data|]; [|reflexivity].
  set (w1 := set_customers_file _ w).
  assert (Hf1 : faults w1 = []) by exact Hf.
  rewrite (bind_ret _ _ _ _ _
             (bind_ret _ _ _ _ _
                (setup_customer_wallet_ok customer_id data w1 Hf1))).
  rewrite (setup_customer_wallet_ok customer_id data w1 Hf1). reflexivity.
Qed.

(** X20. Registration round trip.  With an [int] that reads back the
    keys [str] writes and a [lower] that is idempotent, on a customers.json
    whose keys are all written by [str], without file faults: a
    registration with an address that no account has succeeds under an id
    that was not in use, adds a blank customer record and changes no other;
    after it the same address and password log in as that customer, the
    identity check passes for the data given, a second registration with
    the same address is refused, and no two accounts share an address. *)
Theorem register_then_login lower hash_password int accounts name email phone
    password wallet_data w :
  (∀ n, int (str n) = Some n) →
  (∀ s, lower (lower s) = lower s) →
  faults w = [] →
  (∀ key, is_Some (customers_file w !! key) → ∃ n, key = str n) →
  (∀ key, is_Some (accounts !! key) → is_Some (customers_file w !! key)) →
  ¬ map_Exists (λ _ account, lower (a_email account) = lower email) accounts →
  let run :=
    register_customer lower hash_password int accounts name email phone
      password wallet_data w in
  ∃ customer_id,
    let account := mkAccount (lower email) phone (hash_password password) in
    let accounts' := <[str customer_id := account]> accounts in
    run.1 = Ret (Registered customer_id, accounts') ∧
    customers_file w !! str customer_id = None ∧
    accounts !! str customer_id = None ∧
    customers_file run.2
    = <[str customer_id := mkCustomer name 0 0 0 None]> (customers_file w) ∧
    (login_customer lower hash_password accounts' email password run.2).1
    = Ret (LoggedIn (str customer_id) account) ∧
    (verify_customer_identity lower accounts' customer_id name email phone
       run.2).1
    = Ret IdentityVerified ∧
    (∀ name2 phone2 password2 wallet_data2,
       (register_customer lower hash_password int accounts' name2 email phone2
          password2 wallet_data2 run.2).1
       = Ret (EmailAlreadyRegistered, accounts')) ∧
    (emails_unique lower accounts → emails_unique lower accounts').
Proof.
  intros Hint Hlower Hf Hcanon Hdom Hnew. cbv zeta.
  destruct (get_next_customer_id_ok int w Hint Hf Hcanon)
    as (customer_id & Eid & Hfresh & _).
  exists customer_id.
  rewrite (register_customer_ok lower hash_password int accounts name email
             phone password wallet_data w customer_id Hf Hnew Eid).
  set (account := mkAccount (lower email) phone (hash_password password)).
  set (accounts' := <[str customer_id := account]> accounts).
  set (w1 := set_customers_file _ w).
  set (w' := match wallet_data with Some _ => _ | None => _ end).
  assert (Hw' : faults w' = [] ∧ customers_file w' = customers_file w1).
  { unfold w'. destruct wallet_data as [data|]; [|done].
    now rewrite (setup_customer_wallet_ok customer_id data w1 Hf). }
  destruct Hw' as [Hf' Hc'].
  assert (Hafresh : accounts !! str customer_id = None).
  { destruct (accounts !! str customer_id) as [a|] eqn:Ea; [|done].
    destruct (Hdom (str customer_id)) as [c Hc]; [eauto|]. congruence. }
  assert (Hold : ∀ key a, accounts !! key = Some a →
            lower (a_email a) ≠ lower email).
  { intros key a Ha E. apply Hnew. exists key, a. done. }
  simpl. split; [done|]. split; [done|]. split; [done|].
  split; [exact Hc'|]. split; [|split; [|split]].
  - unfold login_customer, try_except.
    rewrite (bind_ret _ _ _ _ _ (file_op_ok w' Hf')).
    destruct (list_find _ (map_to_list accounts')) as [[i [key a]]|] eqn:Efind.
    + apply list_find_Some in Efind as (Hi & [HP1 HP2] & _). simpl in *.
      apply list_elem_of_lookup_2, elem_of_map_to_list in Hi.
      apply lookup_insert_Some in Hi as [[<- <-]|[_ Ha]]; [done|].
      now destruct (Hold key a Ha).
    + apply list_find_None in Efind. rewrite Forall_forall in Efind.
      destruct (Efind (str customer_id, account)).
      * apply elem_of_map_to_list. apply lookup_insert_eq.
      * simpl. split; [apply Hlower|done].
  - unfold verify_customer_identity, try_except.
    rewrite (bind_ret _ _ _ _ _ (file_op_ok w' Hf')), bind_gets.
    rewrite Hc'. unfold w1, accounts'. simpl. rewrite !lookup_insert_eq.
    simpl. rewrite Hlower.
    rewrite !bool_decide_eq_false_2 by (intros H; now apply H). done.
  - intros name2 phone2 password2 wallet_data2.
    unfold register_customer, try_except.
    rewrite (bind_ret _ _ _ _ _ (file_op_ok w' Hf')), bind_gets.
    rewrite bool_decide_eq_true_2; [done|].
    exists (str customer_id), account. split; [apply lookup_insert_eq|].
    simpl. apply Hlower.
  - intros Huniq k1 k2 a1 a2 H1 H2 E.
    apply lookup_insert_Some in H1 as [[<- <-]|[N1 H1]];
      apply lookup_insert_Some in H2 as [[<- <-]|[N2 H2]]; try done.
    + simpl in E. rewrite Hlower in E. now destruct (Hold k2 a2 H2).
    + simpl in E. rewrite Hlower in E. now destruct (Hold k1 a1 H1).
    + now apply (Huniq k1 k2 a1 a2).
Qed.

(** X21. A failed read inside [get_next_customer_id] is answered by the
    id 1.  When the first read of customers.json succeeds and the second
    one, made to choose the id, fails, a registration with a new address
    reports success under the id 1: the record and the credentials of
    customer 1 are replaced by those of the newcomer, while the wallet and
    the ledger stored under that id stay. *)
Theorem register_after_failed_read_takes_id_1 lower hash_password int accounts
    name email phone password w e rest :
  faults w = None :: Some e :: None :: rest →
  ¬ map_Exists (λ _ account, lower (a_email account) = lower email) accounts →
  let run :=
    register_customer lower hash_password int accounts name email phone
      password None w in
  run.1
  = Ret (Registered 1,
         <[str 1 := mkAccount (lower email) phone (hash_password password)]>
           accounts) ∧
  customers_file run.2
  = <[str 1 := mkCustomer name 0 0 0 None]> (customers_file w) ∧
  wallets_file run.2 = wallets_file w ∧
  customer_tx_file run.2 = customer_tx_file w.
Proof.
  intros Hf Hnew. cbv zeta.
  assert (E : register_customer lower hash_password int accounts name email
                phone password None w
              = (Ret (Registered 1,
                      <[str 1 := mkAccount (lower email) phone
                                   (hash_password password)]> accounts),
                 set_customers_file
                   (<[str 1 := mkCustomer name 0 0 0 None]> (customers_file w))
                   (set_faults rest w))).
  { unfold register_customer, try_except.
    unfold bind at 1, file_op. rewrite Hf. rewrite bind_gets.
    rewrite bool_decide_eq_false_2 by done.
    unfold get_next_customer_id, try_except, bind, file_op, gets, modify, ret.
    reflexivity. }
  rewrite E. done.
Qed.

Lemma register_after_failed_read_takes_id_1_witness :
  let w := set_faults [None; Some "read error"; None] sample_world in
  let accounts : gmap string Account :=
    {[ "1" := mkAccount "old@example.com" "111" "h1" ]} in
  let run :=
    register_customer (λ s, s) (λ s, s) decimal_int accounts "Bea"
      "bea@example.com" "222" "secret" None w in
  run.1
  = Ret (Registered 1,
         <[str 1 := mkAccount "bea@example.com" "222" "secret"]> accounts) ∧
  customers_file run.2
  = <[str 1 := mkCustomer "Bea" 0 0 0 None]> (customers_file w) ∧
  wallets_file run.2 = wallets_file w ∧
  customer_tx_file run.2 = customer_tx_file w.
Proof.
  cbv zeta.
  apply (register_after_failed_read_takes_id_1 (λ s, s) (λ s, s) decimal_int
           {[ "1" := mkAccount "old@example.com" "111" "h1" ]} "Bea"
           "bea@example.com" "222" "secret" _ "read error" []).
  - reflexivity.
  - intros H. apply map_Exists_singleton in H. simpl in H. discriminate.
Defined.

Lemma register_then_login_witness :
  let accounts : gmap string Account :=
    {[ "7" := mkAccount "asha@example.com" "111" "pw" ]} in
  let run :=
    register_customer (λ s, s) (λ s, s) decimal_int accounts "Bea"
      "bea@example.com" "222" "secret" None sample_world in
  ∃ customer_id,
    let account := mkAccount "bea@example.com" "222" "secret" in
    let accounts' := <[str customer_id := account]> accounts in
    run.1 = Ret (Registered customer_id, accounts') ∧
    customers_file sample_world !! str customer_id = None ∧
    accounts !! str customer_id = None ∧
    customers_file run.2
    = <[str customer_id := mkCustomer "Bea" 0 0 0 None]>
        (customers_file sample_world) ∧
    (login_customer (λ s, s) (λ s, s) accounts' "bea@example.com" "secret"
       run.2).1
    = Ret (LoggedIn (str customer_id) account) ∧
    (verify_customer_identity (λ s, s) accounts' customer_id "Bea"
       "bea@example.com" "222" run.2).1
    = Ret IdentityVerified ∧
    (∀ name2 phone2 password2 wallet_data2,
       (register_customer (λ s, s) (λ s, s) decimal_int accounts' name2
          "bea@example.com" phone2 password2 wallet_data2 run.2).1
       = Ret (EmailAlreadyRegistered, accounts')) ∧
    (emails_unique (λ s, s) accounts → emails_unique (λ s, s) accounts').
Proof.
  cbv zeta.
  apply (register_then_login (λ s, s) (λ s, s) decimal_int
           {[ "7" := mkAccount "asha@example.com" "111" "pw" ]} "Bea"
           "bea@example.com" "222" "secret" None sample_world).
  - exact decimal_int_str.
  - reflexivity.
  - reflexivity.
  - intros key [c Hc]. simpl in Hc. apply lookup_singleton_Some in Hc as [<- _].
    now exists 7.
  - intros key [a Ha]. apply lookup_singleton_Some in Ha as [<- _].
    simpl. rewrite lookup_singleton_eq. eauto.
  - intros H. apply map_Exists_singleton in H. simpl in H. discriminate.
Defined.

Lemma remove_customer_wallet_ok customer_id w :
  faults w = [] →
  ∃ w', remove_customer_wallet customer_id w = (Ret true, w') ∧
        faults w' = [] ∧
        wallets_file w' = delete (str customer_id) (wallets_file w) ∧
        customers_file w' = customers_file w ∧
        customer_tx_file w' = customer_tx_file w ∧
        sales_file w' = sales_file w.
Proof.
  intros Hf.
  unfold remove_customer_wallet, try_except, bind, file_op, gets, modify, ret.
  rewrite Hf. simpl.
  destruct (wallets_file w !! str customer_id) as [wallet|] eqn:E; simpl;
    rewrite ?Hf; simpl; eexists; (split; [reflexivity|]); simpl;
    repeat split; try done.
  now rewrite delete_id.
Qed.

(** Without file faults, the right password deletes the account. *)
Lemma delete_customer_account_ok hash_password accounts customer_id
    confirm_password w customer account :
  faults w = [] →
  customers_file w !! str customer_id = Some customer →
  accounts !! str customer_id = Some account →
  a_password account = hash_password confirm_password →
  ∃ w', delete_customer_account hash_password accounts customer_id
          confirm_password w
        = (Ret (AccountDeleted (balance_of customer_id w),
                delete (str customer_id) accounts), w') ∧
        faults w' = [] ∧
        customers_file w' = delete (str customer_id) (customers_file w) ∧
        wallets_file w' = delete (str customer_id) (wallets_file w) ∧
        customer_tx_file w' = customer_tx_file w ∧
        sales_file w' = sales_file w.
Proof.
  intros Hf Hc Ha Hpw.
  set (w1 := set_customers_file (delete (str customer_id) (customers_file w)) w).
  assert (Hf1 : faults w1 = []) by exact Hf.
  destruct (remove_customer_wallet_ok customer_id w1 Hf1)
    as (w' & ER & Hf' & W' & C' & T' & S').
  exists w'. split; [|done].
  unfold delete_customer_account. apply try_ret.
  rewrite (bind_ret _ _ _ _ _ (file_op_ok w Hf)), bind_gets.
  rewrite Hc, Ha. rewrite bool_decide_eq_false_2 by (intros H; now apply H).
  rewrite (bind_ret _ _ _ _ _ (get_wallet_balance_ok customer_id w Hf)).
  rewrite (bind_ret _ _ _ _ _ (file_op_ok w Hf)), bind_modify.
  fold w1. now rewrite (bind_ret _ _ _ _ _ ER).
Qed.

(** X22. The contract of [delete_customer_account] for a customer on
    record.  With a password that does not match, whatever the file system
    does, the call fails and customers.json, the credentials and the
    wallets are as they were.  With the right password and no file fault
    it reports the wallet balance as forfeited and removes the customer
    record, the credentials and the wallet, of that customer only; the
    customer's ledger and the sales log are left in place. *)
Theorem delete_customer_account_contract hash_password accounts customer_id
    confirm_password w customer account :
  customers_file w !! str customer_id = Some customer →
  accounts !! str customer_id = Some account →
  let run :=
    delete_customer_account hash_password accounts customer_id
      confirm_password w in
  (a_password account ≠ hash_password confirm_password →
   (run.1 = Ret (IncorrectPassword, accounts) ∨
    ∃ e, run.1 = Ret (DeleteError e, accounts)) ∧
   customers_file run.2 = customers_file w ∧
   wallets_file run.2 = wallets_file w) ∧
  (a_password account = hash_password confirm_password →
   faults w = [] →
   run.1 = Ret (AccountDeleted (balance_of customer_id w),
                delete (str customer_id) accounts) ∧
   customers_file run.2 = delete (str customer_id) (customers_file w) ∧
   wallets_file run.2 = delete (str customer_id) (wallets_file w) ∧
   customer_tx_file run.2 = customer_tx_file w ∧
   sales_file run.2 = sales_file w).
Proof.
  intros Hc Ha. cbv zeta. split.
  - intros Hpw.
    assert (E : ∃ r,
              delete_customer_account hash_password accounts customer_id
                confirm_password w
              = (Ret (r, accounts), set_faults (tail (faults w)) w) ∧
              (r = IncorrectPassword ∨ ∃ e, r = DeleteError e)).
    { unfold delete_customer_account, try_except.
      unfold bind at 1, file_op.
      destruct (faults w) as [|[e|] rest] eqn:Ef; simpl.
      - rewrite bind_gets, Hc, Ha. rewrite bool_decide_eq_true_2 by done.
        eexists. split; [|now left]. unfold ret. f_equal.
        destruct w. simpl in *. now subst.
      - eexists. split; [reflexivity|]. right. eauto.
      - rewrite bind_gets. simpl. rewrite Hc, Ha.
        rewrite bool_decide_eq_true_2 by done.
        eexists. split; [reflexivity|]. now left. }
    destruct E as (r & -> & Hr). simpl.
    split; [|done]. destruct Hr as [->|[e ->]]; eauto.
  - intros Hpw Hf.
    destruct (delete_customer_account_ok hash_password accounts customer_id
                confirm_password w customer account Hf Hc Ha Hpw)
      as (w' & -> & _ & H). simpl. done.
Qed.

Lemma delete_customer_account_contract_witness :
  let accounts : gmap string Account :=
    {[ "7" := mkAccount "asha@example.com" "111" "pw" ]} in
  let run := delete_customer_account (λ s, s) accounts 7 "pw" sample_world in
  (a_password (mkAccount "asha@example.com" "111" "pw") ≠ "pw" →
   (run.1 = Ret (IncorrectPassword, accounts) ∨
    ∃ e, run.1 = Ret (DeleteError e, accounts)) ∧
   customers_file run.2 = customers_file sample_world ∧
   wallets_file run.2 = wallets_file sample_world) ∧
  (a_password (mkAccount "asha@example.com" "111" "pw") = "pw" →
   faults sample_world = [] →
   run.1 = Ret (AccountDeleted (balance_of 7 sample_world),
                delete (str 7) accounts) ∧
   customers_file run.2 = delete (str 7) (customers_file sample_world) ∧
   wallets_file run.2 = delete (str 7) (wallets_file sample_world) ∧
   customer_tx_file run.2 = customer_tx_file sample_world ∧
   sales_file run.2 = sales_file sample_world).
Proof.
  cbv zeta.
  apply (delete_customer_account_contract (λ s, s)
           {[ "7" := mkAccount "asha@example.com" "111" "pw" ]} 7 "pw"
           sample_world (mkCustomer "Asha" 0 0 0 None)
           (mkAccount "asha@example.com" "111" "pw")); reflexivity.
Defined.


(** * Whole numbers in floating point

    The amounts of the store are binary64 floats.  On whole numbers below
    2^53 the operations of binary64 are exact: this part proves it from the
    definition of the format and concludes that the totals, debits and
    guards the routes compute in floating point are those of the model. *)

Lemma iter_pos_nat {A} (f : A → A) p x :
  SpecFloat.iter_pos f p x = Nat.iter (Pos.to_nat p) f x.
Proof.
  revert x. induction p as [p IH|p IH|]; intros x.
  - rewrite Pos2Nat.inj_xI. simpl SpecFloat.iter_pos. rewrite !IH.
    replace (S (2 * Pos.to_nat p))%nat
      with (S (Pos.to_nat p + Pos.to_nat p))%nat by lia.
    rewrite Nat.iter_succ_r, Nat.iter_add. reflexivity.
  - rewrite Pos2Nat.inj_xO. simpl SpecFloat.iter_pos. rewrite !IH.
    replace (2 * Pos.to_nat p)%nat
      with (Pos.to_nat p + Pos.to_nat p)%nat by lia.
    rewrite Nat.iter_add. reflexivity.
  - reflexivity.
Qed.

Lemma shr_shl n k r :
  Nat.iter k shr_1
    (Build_shr_record (Z.pos (binary64.shl n (k + r))) false false)
  = Build_shr_record (Z.pos (binary64.shl n r)) false false.
Proof.
  induction k as [|k IH]; [reflexivity|].
  rewrite Nat.iter_succ_r. simpl. exact IH.
Qed.

Lemma digits_shl n k :
  Z.pos (digits2_pos (binary64.shl n k)) = Z.pos (digits2_pos n) + Z.of_nat k.
Proof.
  induction k as [|k IH]; [simpl; lia|].
  change (binary64.shl n (S k)) with (xO (binary64.shl n k)). simpl digits2_pos.
  rewrite Pos2Z.inj_succ, IH. lia.
Qed.

Lemma Zpos_shl n k : Z.pos (binary64.shl n k) = Z.pos n * 2 ^ Z.of_nat k.
Proof.
  induction k as [|k IH]; [simpl; lia|].
  change (binary64.shl n (S k)) with (xO (binary64.shl n k)).
  rewrite Nat2Z.inj_succ, Z.pow_succ_r by lia. lia.
Qed.

Lemma digits_bounds n :
  2 ^ (Z.pos (digits2_pos n) - 1) ≤ Z.pos n < 2 ^ Z.pos (digits2_pos n).
Proof.
  induction n as [n IH|n IH|]; simpl digits2_pos.
  - rewrite Pos2Z.inj_succ.
    replace (Z.succ (Z.pos (digits2_pos n)) - 1)
      with (Z.succ (Z.pos (digits2_pos n) - 1)) by lia.
    rewrite !Z.pow_succ_r by lia. lia.
  - rewrite Pos2Z.inj_succ.
    replace (Z.succ (Z.pos (digits2_pos n)) - 1)
      with (Z.succ (Z.pos (digits2_pos n) - 1)) by lia.
    rewrite !Z.pow_succ_r by lia. lia.
  - simpl. lia.
Qed.

Lemma digits_whole n : Z.pos n < 2 ^ 53 → Z.pos (digits2_pos n) ≤ 53.
Proof.
  intros H. destruct (digits_bounds n) as [Hlow _].
  destruct (Z.le_gt_cases (Z.pos (digits2_pos n)) 53) as [|Hgt]; [done|].
  exfalso. assert (2 ^ 53 ≤ 2 ^ (Z.pos (digits2_pos n) - 1))
    by (apply Z.pow_le_mono_r; lia). lia.
Qed.

Lemma fexp_whole d :
  1 ≤ d ≤ 53 → fexp binary64.prec binary64.emax d = d - 53.
Proof. unfold fexp, emin, binary64.prec, binary64.emax. lia. Qed.

Lemma round_aux_whole s n (j : nat) :
  Z.pos (digits2_pos n) ≤ 53 →
  53 ≤ Z.pos (digits2_pos n) + Z.of_nat j →
  binary_round_aux binary64.prec binary64.emax s (Z.pos (binary64.shl n j))
    (- Z.of_nat j) loc_Exact
  = binary64.canon s n.
Proof.
  intros Hd Hj. set (d := Z.pos (digits2_pos n)) in *.
  assert (Hd1 : 1 ≤ d) by (unfold d; lia).
  unfold binary_round_aux, shr_fexp. simpl Zdigits2.
  rewrite digits_shl. fold d.
  replace (d + Z.of_nat j + - Z.of_nat j) with d by lia.
  rewrite fexp_whole by lia.
  assert (Hshr : shr (shr_record_of_loc (Z.pos (binary64.shl n j)) loc_Exact)
                   (- Z.of_nat j) (d - 53 - - Z.of_nat j)
                 = (Build_shr_record
                      (Z.pos (binary64.shl n (Z.to_nat (53 - d)))) false false,
                    d - 53)).
  { unfold shr. simpl shr_record_of_loc.
    destruct (d - 53 - - Z.of_nat j) as [|p|p] eqn:Et; [| |lia].
    - replace (Z.to_nat (53 - d)) with j by lia. f_equal. lia.
    - rewrite iter_pos_nat.
      replace j with (Pos.to_nat p + Z.to_nat (53 - d))%nat at 1 by lia.
      rewrite shr_shl. f_equal. lia. }
  rewrite Hshr. simpl loc_of_shr_record. simpl round_nearest_even.
  simpl shr_m. unfold shr_fexp. simpl Zdigits2. rewrite digits_shl. fold d.
  replace (d + Z.of_nat (Z.to_nat (53 - d)) + (d - 53)) with d by lia.
  rewrite fexp_whole by lia.
  replace (d - 53 - (d - 53)) with 0 by lia. simpl.
  assert ((d - 53 <=? binary64.emax - binary64.prec) = true) as ->
    by (apply Z.leb_le; unfold binary64.emax, binary64.prec; lia).
  reflexivity.
Qed.

Lemma pos_iter_shl n p : Pos.iter xO n p = binary64.shl n (Pos.to_nat p).
Proof. unfold binary64.shl. now rewrite Pos2Nat.inj_iter. Qed.

Lemma shl_shl n j k :
  binary64.shl (binary64.shl n j) k = binary64.shl n (k + j).
Proof. unfold binary64.shl. now rewrite Nat.iter_add. Qed.

Lemma round_whole s n (j : nat) :
  Z.pos n < 2 ^ 53 →
  binary_round binary64.prec binary64.emax s (binary64.shl n j) (- Z.of_nat j)
  = binary64.canon s n.
Proof.
  intros Hn. pose proof (digits_whole n Hn) as Hd.
  set (d := Z.pos (digits2_pos n)) in *.
  assert (Hd1 : 1 ≤ d) by (unfold d; lia).
  unfold binary_round. rewrite digits_shl. fold d.
  replace (d + Z.of_nat j + - Z.of_nat j) with d by lia.
  rewrite fexp_whole by lia. unfold shl_align.
  destruct (d - 53 - - Z.of_nat j) as [|p|p] eqn:Et.
  - apply round_aux_whole; fold d; lia.
  - apply round_aux_whole; fold d; lia.
  - rewrite pos_iter_shl, shl_shl.
    replace (d - 53) with (- Z.of_nat (Pos.to_nat p + j)) by lia.
    apply round_aux_whole; fold d; lia.
Qed.

Lemma of_int_pos n :
  Z.pos n < 2 ^ 53 → binary64.of_int (Z.pos n) = binary64.canon false n.
Proof. intros Hn. apply (round_whole false n 0 Hn). Qed.

Lemma of_int_neg n :
  Z.pos n < 2 ^ 53 → binary64.of_int (Z.neg n) = binary64.canon true n.
Proof. intros Hn. apply (round_whole true n 0 Hn). Qed.

(** Rounding a whole number given with a scale. *)
Lemma normalize_whole (x : Z) (j : nat) :
  Z.abs x < 2 ^ 53 →
  binary_normalize binary64.prec binary64.emax (x * 2 ^ Z.of_nat j)
    (- Z.of_nat j) false
  = binary64.of_int x.
Proof.
  intros Hx. destruct x as [|n|n].
  - reflexivity.
  - rewrite of_int_pos by lia. rewrite <- Zpos_shl. simpl.
    apply round_whole. lia.
  - rewrite of_int_neg by lia.
    replace (Z.neg n * 2 ^ Z.of_nat j) with (Z.neg (binary64.shl n j))
      by (rewrite <- Pos2Z.opp_pos, Zpos_shl; lia).
    simpl. apply round_whole. lia.
Qed.

Lemma canon_eq s n :
  Z.pos n < 2 ^ 53 →
  binary64.canon s n
  = S754_finite s (binary64.shl n (binary64.shift_of n))
      (- Z.of_nat (binary64.shift_of n)).
Proof.
  intros Hn. pose proof (digits_whole n Hn).
  unfold binary64.canon, binary64.shift_of.
  f_equal. lia.
Qed.

Lemma of_int_canon x :
  Z.abs x < 2 ^ 53 → x ≠ 0 →
  ∃ s n, Z.pos n < 2 ^ 53 ∧ x = cond_Zopp s (Z.pos n) ∧
         binary64.of_int x = binary64.canon s n.
Proof.
  intros Hx H0. destruct x as [|n|n]; [done| |].
  - exists false, n. split; [lia|]. split; [done|]. apply of_int_pos. lia.
  - exists true, n. split; [lia|]. split; [done|]. apply of_int_neg. lia.
Qed.

Lemma shl_align_shl n k J :
  (k ≤ J)%nat →
  (shl_align (binary64.shl n k) (- Z.of_nat k) (- Z.of_nat J)).1
  = binary64.shl n J.
Proof.
  intros Hk. unfold shl_align.
  destruct (- Z.of_nat J - - Z.of_nat k) as [|p|p] eqn:E; simpl.
  - f_equal. lia.
  - lia.
  - rewrite pos_iter_shl, shl_shl. f_equal. lia.
Qed.

Lemma cond_Zopp_shl s n J :
  cond_Zopp s (Z.pos (binary64.shl n J))
  = cond_Zopp s (Z.pos n) * 2 ^ Z.of_nat J.
Proof. rewrite Zpos_shl. destruct s; simpl; lia. Qed.

Lemma add_canon sa na sb nb :
  Z.pos na < 2 ^ 53 → Z.pos nb < 2 ^ 53 →
  Z.abs (cond_Zopp sa (Z.pos na) + cond_Zopp sb (Z.pos nb)) < 2 ^ 53 →
  binary64.add (binary64.canon sa na) (binary64.canon sb nb)
  = binary64.of_int (cond_Zopp sa (Z.pos na) + cond_Zopp sb (Z.pos nb)).
Proof.
  intros Ha Hb Hab. rewrite !canon_eq by done.
  unfold binary64.add, SFadd.
  set (ka := binary64.shift_of na). set (kb := binary64.shift_of nb).
  replace (Z.min (- Z.of_nat ka) (- Z.of_nat kb))
    with (- Z.of_nat (Nat.max ka kb)) by lia.
  rewrite !shl_align_shl by lia. rewrite !cond_Zopp_shl.
  rewrite <- Z.mul_add_distr_r. now apply normalize_whole.
Qed.

Lemma sub_canon sa na sb nb :
  Z.pos na < 2 ^ 53 → Z.pos nb < 2 ^ 53 →
  Z.abs (cond_Zopp sa (Z.pos na) - cond_Zopp sb (Z.pos nb)) < 2 ^ 53 →
  binary64.sub (binary64.canon sa na) (binary64.canon sb nb)
  = binary64.of_int (cond_Zopp sa (Z.pos na) - cond_Zopp sb (Z.pos nb)).
Proof.
  intros Ha Hb Hab. rewrite !canon_eq by done.
  unfold binary64.sub, SFsub.
  set (ka := binary64.shift_of na). set (kb := binary64.shift_of nb).
  replace (Z.min (- Z.of_nat ka) (- Z.of_nat kb))
    with (- Z.of_nat (Nat.max ka kb)) by lia.
  rewrite !shl_align_shl by lia. rewrite !cond_Zopp_shl.
  rewrite <- Z.mul_sub_distr_r. now apply normalize_whole.
Qed.

(** On whole numbers below 2^53 whose sum is below 2^53, the addition of
    binary64 is the addition of integers. *)
Lemma of_int_add a b :
  Z.abs a < 2 ^ 53 → Z.abs b < 2 ^ 53 → Z.abs (a + b) < 2 ^ 53 →
  binary64.add (binary64.of_int a) (binary64.of_int b)
  = binary64.of_int (a + b).
Proof.
  intros Ha Hb Hab.
  destruct (decide (a = 0)) as [->|Ha0].
  { destruct (decide (b = 0)) as [->|Hb0]; [reflexivity|].
    destruct (of_int_canon b Hb Hb0) as (s & n & _ & _ & E).
    rewrite Z.add_0_l, E. reflexivity. }
  destruct (of_int_canon a Ha Ha0) as (sa & na & Hna & Ea & Eca).
  destruct (decide (b = 0)) as [->|Hb0].
  { rewrite Z.add_0_r, Eca. reflexivity. }
  destruct (of_int_canon b Hb Hb0) as (sb & nb & Hnb & Eb & Ecb).
  rewrite Eca, Ecb, Ea, Eb. apply add_canon; try done. now rewrite <- Ea, <- Eb.
Qed.

Lemma of_int_sub a b :
  Z.abs a < 2 ^ 53 → Z.abs b < 2 ^ 53 → Z.abs (a - b) < 2 ^ 53 →
  binary64.sub (binary64.of_int a) (binary64.of_int b)
  = binary64.of_int (a - b).
Proof.
  intros Ha Hb Hab.
  destruct (decide (b = 0)) as [->|Hb0].
  { rewrite Z.sub_0_r. destruct (decide (a = 0)) as [->|Ha0]; [reflexivity|].
    destruct (of_int_canon a Ha Ha0) as (s & n & _ & _ & E).
    rewrite E. reflexivity. }
  destruct (of_int_canon b Hb Hb0) as (sb & nb & Hnb & Eb & Ecb).
  destruct (decide (a = 0)) as [->|Ha0].
  { rewrite Ecb. subst b. destruct sb; simpl.
    - symmetry. apply (of_int_pos nb Hnb).
    - symmetry. apply (of_int_neg nb Hnb). }
  destruct (of_int_canon a Ha Ha0) as (sa & na & Hna & Ea & Eca).
  rewrite Eca, Ecb, Ea, Eb. apply sub_canon; try done. now rewrite <- Ea, <- Eb.
Qed.

Lemma shl_mul na ka nb kb :
  (binary64.shl na ka * binary64.shl nb kb)%positive
  = binary64.shl (na * nb) (ka + kb).
Proof.
  apply Pos2Z.inj. rewrite Pos2Z.inj_mul, !Zpos_shl, Pos2Z.inj_mul.
  rewrite Nat2Z.inj_add, Z.pow_add_r by lia. lia.
Qed.

Lemma digits_lower n k :
  0 ≤ k → 2 ^ k ≤ Z.pos n → k < Z.pos (digits2_pos n).
Proof.
  intros Hk Hn. destruct (digits_bounds n) as [_ Hup].
  apply (Z.pow_lt_mono_r_iff 2); lia.
Qed.

Lemma mul_canon sa na sb nb :
  Z.pos na < 2 ^ 53 → Z.pos nb < 2 ^ 53 → Z.pos (na * nb) < 2 ^ 53 →
  binary64.mul (binary64.canon sa na) (binary64.canon sb nb)
  = binary64.canon (xorb sa sb) (na * nb).
Proof.
  intros Ha Hb Hab. rewrite (canon_eq sa), (canon_eq sb) by done.
  unfold binary64.mul, SFmul. rewrite shl_mul.
  replace (- Z.of_nat (binary64.shift_of na)
           + - Z.of_nat (binary64.shift_of nb))
    with (- Z.of_nat (binary64.shift_of na + binary64.shift_of nb)) by lia.
  pose proof (digits_whole _ Ha). pose proof (digits_whole _ Hb).
  apply round_aux_whole; [now apply digits_whole|].
  destruct (digits_bounds na) as [La _]. destruct (digits_bounds nb) as [Lb _].
  assert (Hlow : Z.pos (digits2_pos na) + Z.pos (digits2_pos nb) - 2
                 < Z.pos (digits2_pos (na * nb))).
  { apply digits_lower; [lia|].
    replace (Z.pos (digits2_pos na) + Z.pos (digits2_pos nb) - 2)
      with ((Z.pos (digits2_pos na) - 1) + (Z.pos (digits2_pos nb) - 1))
      by lia.
    rewrite Z.pow_add_r, Pos2Z.inj_mul by lia. nia. }
  unfold binary64.shift_of. lia.
Qed.

(** On whole numbers below 2^53 whose product is below 2^53, the
    multiplication of binary64 is the multiplication of integers, a product
    of zero by a negative number apart: that one is the float -0.0. *)
Lemma of_int_mul a b :
  Z.abs a < 2 ^ 53 → Z.abs b < 2 ^ 53 → Z.abs (a * b) < 2 ^ 53 →
  (a * b = 0 → 0 ≤ a ∧ 0 ≤ b) →
  binary64.mul (binary64.of_int a) (binary64.of_int b)
  = binary64.of_int (a * b).
Proof.
  intros Ha Hb Hab Hz.
  destruct a as [|na|na], b as [|nb|nb]; try reflexivity;
    try (exfalso; lia).
  - rewrite (of_int_pos nb) by lia. reflexivity.
  - rewrite (of_int_pos na) by lia. reflexivity.
  - change (Z.pos na * Z.pos nb) with (Z.pos (na * nb)) in *.
    rewrite (of_int_pos na), (of_int_pos nb), (of_int_pos (na * nb)) by lia.
    apply mul_canon; lia.
  - change (Z.pos na * Z.neg nb) with (Z.neg (na * nb)) in *.
    rewrite (of_int_pos na), (of_int_neg nb), (of_int_neg (na * nb)) by lia.
    apply mul_canon; lia.
  - change (Z.neg na * Z.pos nb) with (Z.neg (na * nb)) in *.
    rewrite (of_int_neg na), (of_int_pos nb), (of_int_neg (na * nb)) by lia.
    apply mul_canon; lia.
  - change (Z.neg na * Z.neg nb) with (Z.pos (na * nb)) in *.
    rewrite (of_int_neg na), (of_int_neg nb), (of_int_pos (na * nb)) by lia.
    apply mul_canon; lia.
Qed.

Lemma compare_shl na nb k :
  Pos.compare_cont Eq (binary64.shl na k) (binary64.shl nb k)
  = (Z.pos na ?= Z.pos nb).
Proof.
  induction k as [|k IH]; [reflexivity|exact IH].
Qed.

Lemma compare_canon_pos na nb :
  Z.pos na < 2 ^ 53 → Z.pos nb < 2 ^ 53 →
  match Z.pos (digits2_pos na) - 53 ?= Z.pos (digits2_pos nb) - 53 with
  | Lt => Lt
  | Gt => Gt
  | Eq => Pos.compare_cont Eq (binary64.shl na (binary64.shift_of na))
            (binary64.shl nb (binary64.shift_of nb))
  end = (Z.pos na ?= Z.pos nb).
Proof.
  intros Ha Hb.
  destruct (digits_bounds na) as [La Ua].
  destruct (digits_bounds nb) as [Lb Ub].
  destruct (Z.compare_spec (Z.pos (digits2_pos na) - 53)
              (Z.pos (digits2_pos nb) - 53)) as [E|E|E].
  - assert (binary64.shift_of na = binary64.shift_of nb) as ->
      by (unfold binary64.shift_of; lia).
    apply compare_shl.
  - symmetry. apply Z.compare_lt_iff.
    assert (2 ^ Z.pos (digits2_pos na) ≤ 2 ^ (Z.pos (digits2_pos nb) - 1))
      by (apply Z.pow_le_mono_r; lia). lia.
  - symmetry. apply Z.compare_gt_iff.
    assert (2 ^ Z.pos (digits2_pos nb) ≤ 2 ^ (Z.pos (digits2_pos na) - 1))
      by (apply Z.pow_le_mono_r; lia). lia.
Qed.

(** On whole numbers below 2^53 the comparison of binary64 is the
    comparison of integers. *)
Lemma of_int_compare a b :
  Z.abs a < 2 ^ 53 → Z.abs b < 2 ^ 53 →
  SFcompare (binary64.of_int a) (binary64.of_int b) = Some (a ?= b).
Proof.
  intros Ha Hb.
  destruct a as [|na|na], b as [|nb|nb]; try reflexivity;
    rewrite ?of_int_pos, ?of_int_neg by lia;
    rewrite ?canon_eq by lia; try reflexivity.
  - unfold SFcompare. f_equal.
    replace (- Z.of_nat (binary64.shift_of na))
      with (Z.pos (digits2_pos na) - 53)
      by (pose proof (digits_whole na); unfold binary64.shift_of; lia).
    replace (- Z.of_nat (binary64.shift_of nb))
      with (Z.pos (digits2_pos nb) - 53)
      by (pose proof (digits_whole nb); unfold binary64.shift_of; lia).
    apply compare_canon_pos; lia.
  - unfold SFcompare. f_equal.
    replace (- Z.of_nat (binary64.shift_of na))
      with (Z.pos (digits2_pos na) - 53)
      by (pose proof (digits_whole na); unfold binary64.shift_of; lia).
    replace (- Z.of_nat (binary64.shift_of nb))
      with (Z.pos (digits2_pos nb) - 53)
      by (pose proof (digits_whole nb); unfold binary64.shift_of; lia).
    pose proof (compare_canon_pos na nb) as H.
    change (Z.neg na ?= Z.neg nb) with (CompOpp (Z.pos na ?= Z.pos nb)).
    rewrite <- H by lia.
    destruct (Z.pos (digits2_pos na) - 53 ?= Z.pos (digits2_pos nb) - 53);
      reflexivity.
Qed.

Lemma of_int_gt a b :
  Z.abs a < 2 ^ 53 → Z.abs b < 2 ^ 53 →
  binary64.gt (binary64.of_int a) (binary64.of_int b) = bool_decide (a > b).
Proof.
  intros Ha Hb. unfold binary64.gt, SFltb. rewrite of_int_compare by done.
  destruct (Z.compare_spec b a); case_bool_decide; lia || reflexivity.
Qed.

Lemma neg_canon s n :
  binary64.neg (binary64.canon s n) = binary64.canon (negb s) n.
Proof. reflexivity. Qed.

(** [balance + (-amount)], as [update_wallet_balance] is called to take
    money out. *)
Lemma of_int_add_neg a b :
  Z.abs a < 2 ^ 53 → Z.abs b < 2 ^ 53 → Z.abs (a - b) < 2 ^ 53 →
  binary64.add (binary64.of_int a) (binary64.neg (binary64.of_int b))
  = binary64.of_int (a - b).
Proof.
  intros Ha Hb Hab. destruct (decide (b = 0)) as [->|Hb0].
  - rewrite Z.sub_0_r. destruct (decide (a = 0)) as [->|Ha0]; [reflexivity|].
    destruct (of_int_canon a Ha Ha0) as (s & n & _ & _ & E).
    rewrite E. reflexivity.
  - assert (E : binary64.neg (binary64.of_int b) = binary64.of_int (- b)).
    { destruct b as [|n|n]; [done| |].
      - rewrite (of_int_pos n) by lia. change (- Z.pos n) with (Z.neg n).
        rewrite (of_int_neg n) by lia. reflexivity.
      - rewrite (of_int_neg n) by lia. change (- Z.neg n) with (Z.pos n).
        rewrite (of_int_pos n) by lia. reflexivity. }
    rewrite E. replace (a - b) with (a + - b) by lia.
    apply of_int_add; lia.
Qed.

(** ** The arithmetic of the routes on whole numbers *)

Lemma restock_total_unknown ps product_id amount l :
  ps !! str product_id = None →
  restock_total ps ((product_id, amount) :: l) = restock_total ps l.
Proof. intros Hp. unfold restock_total. simpl. now rewrite Hp. Qed.

Lemma restock_total_nonneg ps l :
  whole_costs ps → whole_quantities l → 0 ≤ restock_total ps l.
Proof.
  intros Hps Hl. induction Hl as [|[product_id amount] l Hq _ IH]; [done|].
  destruct (ps !! str product_id) as [p|] eqn:Ep.
  - rewrite (restock_total_known _ _ _ _ _ Ep). simpl in Hq.
    pose proof (Hps _ _ Ep). nia.
  - now rewrite restock_total_unknown.
Qed.

Lemma restock_total_whole_from ps l total_cost :
  whole_costs ps → whole_quantities l →
  0 ≤ total_cost → total_cost + restock_total ps l < 2 ^ 53 →
  foldl (λ total_cost line,
           binary64.add total_cost
             (binary64.mul (binary64.of_int line.1) line.2))
    (binary64.of_int total_cost) (binary64.restock_lines ps l)
  = binary64.of_int (total_cost + restock_total ps l).
Proof.
  intros Hps Hl. revert total_cost.
  induction Hl as [|[product_id amount] l Hq Hl IH]; intros total_cost H0 Hup.
  - simpl. f_equal. unfold restock_total. simpl. lia.
  - unfold binary64.restock_lines. simpl omap.
    fold (binary64.restock_lines ps l). simpl in Hq.
    destruct (ps !! str product_id) as [p|] eqn:Ep; simpl.
    + rewrite (restock_total_known _ _ _ _ _ Ep) in Hup |- *.
      pose proof (Hps _ _ Ep) as Hc.
      pose proof (restock_total_nonneg ps l Hps Hl) as Hrest.
      assert (0 ≤ amount * p_cost p) by nia.
      rewrite of_int_mul by lia. rewrite of_int_add by lia.
      rewrite IH by lia. f_equal. lia.
    + rewrite restock_total_unknown in Hup |- * by done. now apply IH.
Qed.

(** X26. The restock route on whole numbers.  When the costs of the
    catalog, the quantities of the batch, its total and the balance of the
    admin wallet are whole numbers below 2^53 (costs below 2^52), the total
    the route adds up in floating point is the exact sum of quantity x cost
    over the lines, its guard refuses the batch exactly when that sum
    exceeds the balance, and the balance it stores is the exact
    difference. *)
Theorem admin_restock_whole ps restock_items balance :
  whole_costs ps → whole_quantities restock_items →
  restock_total ps restock_items < 2 ^ 53 →
  0 ≤ balance < 2 ^ 53 →
  binary64.restock_total (binary64.restock_lines ps restock_items)
  = binary64.of_int (restock_total ps restock_items) ∧
  binary64.admin_restock (binary64.of_int balance)
    (binary64.restock_lines ps restock_items)
  = if bool_decide (restock_total ps restock_items > balance) then None
    else Some (binary64.of_int (balance - restock_total ps restock_items)).
Proof.
  intros Hps Hl Hup Hb.
  pose proof (restock_total_nonneg ps restock_items Hps Hl) as H0.
  assert (E : binary64.restock_total (binary64.restock_lines ps restock_items)
              = binary64.of_int (restock_total ps restock_items)).
  { unfold binary64.restock_total.
    rewrite (restock_total_whole_from ps restock_items 0) by (done || lia).
    f_equal. }
  split; [exact E|].
  unfold binary64.admin_restock. rewrite E, of_int_gt by lia.
  case_bool_decide; [reflexivity|].
  unfold binary64.update_admin_wallet. simpl. now rewrite of_int_sub by lia.
Qed.

Lemma sample_products_whole : whole_costs sample_products.
Proof.
  intros key p H. unfold sample_products in H.
  apply lookup_insert_Some in H as [[_ <-]|[_ H]]; [simpl; lia|].
  apply lookup_insert_Some in H as [[_ <-]|[_ H]]; [simpl; lia|].
  now rewrite lookup_empty in H.
Qed.

Lemma admin_restock_whole_witness :
  binary64.restock_total
    (binary64.restock_lines sample_products [(1, 10); (2, 3)])
  = binary64.of_int (restock_total sample_products [(1, 10); (2, 3)]) ∧
  binary64.admin_restock (binary64.of_int 50000)
    (binary64.restock_lines sample_products [(1, 10); (2, 3)])
  = Some (binary64.of_int (50000 - 1840)).
Proof.
  destruct (admin_restock_whole sample_products [(1, 10); (2, 3)] 50000)
    as [E1 E2].
  - exact sample_products_whole.
  - repeat constructor; simpl; lia.
  - vm_compute. reflexivity.
  - lia.
  - split; [exact E1|]. rewrite E2. reflexivity.
Defined.

Lemma sum_of_prices_whole ps l :
  whole_costs ps → whole_quantities l →
  0 ≤ sum_of_prices (priced_item <$> catalog_lines ps l).
Proof.
  intros Hps Hl. induction Hl as [|[product_id qty] l Hq _ IH]; [done|].
  rewrite catalog_lines_cons.
  destruct (ps !! str product_id) as [p|] eqn:Ep; [|exact IH].
  rewrite fmap_cons, sum_of_prices_cons. simpl. unfold line_price.
  simpl in Hq. pose proof (Hps _ _ Ep). nia.
Qed.

Lemma purchase_total_whole_from ps l total :
  whole_costs ps → whole_quantities l →
  0 ≤ total →
  total + sum_of_prices (priced_item <$> catalog_lines ps l) < 2 ^ 53 →
  foldl (λ total line,
           binary64.add total
             (binary64.mul (binary64.mul line.1 (binary64.of_int 2))
                (binary64.of_int line.2)))
    (binary64.of_int total) (binary64.purchase_lines ps l)
  = binary64.of_int
      (total + sum_of_prices (priced_item <$> catalog_lines ps l)).
Proof.
  intros Hps Hl. revert total.
  induction Hl as [|[product_id qty] l Hq Hl IH]; intros total H0 Hup.
  - simpl. f_equal. unfold sum_of_prices. simpl. lia.
  - unfold binary64.purchase_lines. simpl omap.
    fold (binary64.purchase_lines ps l).
    rewrite catalog_lines_cons in Hup |- *. simpl in Hq.
    destruct (ps !! str product_id) as [p|] eqn:Ep; [|now apply IH].
    rewrite fmap_cons, sum_of_prices_cons in Hup |- *.
    cbn [mbind option_bind foldl fst snd priced_item it_price] in Hup |- *.
    unfold line_price in *.
    pose proof (Hps _ _ Ep) as Hc.
    pose proof (sum_of_prices_whole ps l Hps Hl) as Hrest.
    assert (0 ≤ p_cost p * 2 * qty) by nia.
    rewrite (of_int_mul (p_cost p) 2) by lia.
    rewrite of_int_mul by lia. rewrite of_int_add by lia.
    rewrite IH by lia. f_equal. lia.
Qed.

(** X27. The purchase route on whole numbers.  When the costs of the
    catalog, the quantities ordered, the total and the wallet balance are
    whole numbers below 2^53 (costs below 2^52), the total the check adds
    up in floating point is the exact sum of cost x 2 x qty over the
    catalog lines, the balance guard refuses the purchase exactly when that
    sum exceeds the balance, and the balance stored after the debit is the
    exact difference. *)
Theorem purchase_whole ps purchased_items balance :
  let total :=
    sum_of_prices (priced_item <$> catalog_lines ps purchased_items) in
  whole_costs ps → whole_quantities purchased_items →
  total < 2 ^ 53 →
  0 ≤ balance < 2 ^ 53 →
  binary64.purchase_total (binary64.purchase_lines ps purchased_items)
  = binary64.of_int total ∧
  binary64.purchase (binary64.of_int balance)
    (binary64.purchase_lines ps purchased_items)
  = if bool_decide (total > balance) then None
    else Some (binary64.of_int (balance - total)).
Proof.
  intros total Hps Hl Hup Hb.
  pose proof (sum_of_prices_whole ps purchased_items Hps Hl) as H0.
  fold total in H0.
  assert (E : binary64.purchase_total
                (binary64.purchase_lines ps purchased_items)
              = binary64.of_int total).
  { unfold binary64.purchase_total.
    rewrite (purchase_total_whole_from ps purchased_items 0)
      by (done || fold total; lia).
    f_equal. }
  split; [exact E|].
  unfold binary64.purchase. rewrite E, of_int_gt by lia.
  case_bool_decide; [reflexivity|].
  unfold binary64.update_wallet_balance. now rewrite of_int_add_neg by lia.
Qed.

Lemma purchase_whole_witness :
  binary64.purchase_total
    (binary64.purchase_lines sample_products [(1, 6); (2, 3)])
  = binary64.of_int (100 * 2 * 6 + 280 * 2 * 3) ∧
  binary64.purchase (binary64.of_int 5000)
    (binary64.purchase_lines sample_products [(1, 6); (2, 3)])
  = Some (binary64.of_int (5000 - 2880)).
Proof.
  destruct (purchase_whole sample_products [(1, 6); (2, 3)] 5000)
    as [E1 E2].
  - exact sample_products_whole.
  - repeat constructor; simpl; lia.
  - vm_compute. reflexivity.
  - lia.
  - split; [rewrite E1|rewrite E2]; reflexivity.
Defined.

(** The wallet page on whole numbers: deposits add, and a withdrawal is
    refused exactly when it exceeds the balance. *)
Lemma wallet_whole balance amount :
  0 ≤ balance < 2 ^ 53 → Z.abs amount < 2 ^ 53 →
  Z.abs (balance + amount) < 2 ^ 53 → Z.abs (balance - amount) < 2 ^ 53 →
  binary64.update_wallet_balance (binary64.of_int balance)
    (binary64.of_int amount)
  = binary64.of_int (balance + amount) ∧
  binary64.withdraw (binary64.of_int balance) (binary64.of_int amount)
  = if bool_decide (amount > balance) then None
    else Some (binary64.of_int (balance - amount)).
Proof.
  intros Hb Ha Hs Hd. split.
  - unfold binary64.update_wallet_balance. apply of_int_add; lia.
  - unfold binary64.withdraw. rewrite of_int_gt by lia.
    case_bool_decide; [reflexivity|].
    unfold binary64.update_wallet_balance. now rewrite of_int_add_neg by lia.
Qed.
